(** * Virtus WorkChain: the hash-chained ledger, its proof-of-work mining,
      the certificate issuers and the proof-of-stake ledger

    A shallow embedding of [blockchain.py], [consensus.py], [utils.py] and
    [task.py].

    - A Python [int] is a [Z]; a [str] is a [string] whose characters are the
      code points 0..255; a list is a [list], with Python's slices.
    - A transaction and a certificate are dicts with fixed keys, kept as
      records; the stake ledger is a dict that is iterated, kept as an
      association list in insertion order.
    - [hashlib.sha256] and [json.dumps] are written out, so that hashes are
      computed, not assumed.
    - [time.time()] and the random validation stub read from a [World] that
      is threaded through the calls; the draw of [random.uniform] is an
      argument of [select_validator].
    - A [float] the program computes with, the staking reward, is a binary64
      number given by its sign and the rational its magnitude denotes; the
      division of two [int]s and the product of two [float]s round the exact
      result to the nearest such number, ties to even.
    - A call ends with a value or an exception; the one loop without a bound,
      the proof-of-work search, takes fuel.
    - Of what the program prints, only the diagnostic of [is_chain_valid] is
      kept: it carries the index at which validation stopped. *)

From Stdlib Require Import ZArith List String Ascii Bool Lia QArith.
From Stdlib Require Import DecimalString Qabs Qpower Lqa.
From Stdlib Require Import PrimFloat Uint63 SpecFloat FloatOps.
Import ListNotations.

Local Open Scope string_scope.
Local Open Scope list_scope.
Local Open Scope Z_scope.

(* ------------------------------------------------------------------ *)
(** ** Python strings *)

Module PyStr.

(** [len(s)] *)
Definition len (s : string) : Z := Z.of_nat (String.length s).

(** The first [n] characters, for a natural [n]. *)
Fixpoint take (n : nat) (s : string) : string :=
  match n, s with
  | O, _ => EmptyString
  | S _, EmptyString => EmptyString
  | S n', String c s' => String c (take n' s')
  end.

(** [s[:n]]: a negative bound counts from the end. *)
Definition slice_to (n : Z) (s : string) : string :=
  if 0 <=? n then take (Z.to_nat n) s
  else take (String.length s - Z.to_nat (- n))%nat s.

Fixpoint replicate (n : nat) (c : ascii) : string :=
  match n with
  | O => EmptyString
  | S n' => String c (replicate n' c)
  end.

(** ["c" * n]: empty when [n <= 0]. *)
Definition repeat (c : ascii) (n : Z) : string := replicate (Z.to_nat n) c.

(** [str(z)] of an [int]: decimal digits, with a minus sign when negative. *)
Definition of_int (z : Z) : string := NilZero.string_of_int (Z.to_int z).

Fixpoint join (sep : string) (l : list string) : string :=
  match l with
  | [] => EmptyString
  | [s] => s
  | s :: rest => (s ++ sep ++ join sep rest)%string
  end.

(** [s.encode()]: UTF-8, for code points below 256. *)
Definition utf8 (c : ascii) : list Z :=
  let n := Z.of_N (N_of_ascii c) in
  if n <? 128 then [n]
  else [Z.lor 192 (Z.shiftr n 6); Z.lor 128 (Z.land n 63)].

Fixpoint encode (s : string) : list Z :=
  match s with
  | EmptyString => []
  | String c s' => utf8 c ++ encode s'
  end.

(** Number of leading ['0'] characters. *)
Fixpoint leading_zeros (s : string) : nat :=
  match s with
  | String "0"%char s' => S (leading_zeros s')
  | _ => O
  end.

End PyStr.

(* ------------------------------------------------------------------ *)
(** ** [hashlib.sha256(...).hexdigest()] (FIPS 180-4), on 32-bit words
       kept in [Z] with the wrap-around written out *)

Module Hashlib.

Definition wrap (x : Z) : Z := Z.land x 4294967295.
Definition add32 (x y : Z) : Z := wrap (x + y).
Definition rotr (n x : Z) : Z :=
  Z.lor (Z.shiftr x n) (wrap (Z.shiftl x (32 - n))).
Definition not32 (x : Z) : Z := Z.lxor x 4294967295.

Definition Ch (x y z : Z) : Z := Z.lxor (Z.land x y) (Z.land (not32 x) z).
Definition Maj (x y z : Z) : Z :=
  Z.lxor (Z.lxor (Z.land x y) (Z.land x z)) (Z.land y z).
Definition Sigma0 (x : Z) : Z :=
  Z.lxor (Z.lxor (rotr 2 x) (rotr 13 x)) (rotr 22 x).
Definition Sigma1 (x : Z) : Z :=
  Z.lxor (Z.lxor (rotr 6 x) (rotr 11 x)) (rotr 25 x).
Definition sigma0 (x : Z) : Z :=
  Z.lxor (Z.lxor (rotr 7 x) (rotr 18 x)) (Z.shiftr x 3).
Definition sigma1 (x : Z) : Z :=
  Z.lxor (Z.lxor (rotr 17 x) (rotr 19 x)) (Z.shiftr x 10).

(** The round constants are the first 32 bits of the fractional parts of the
    cube roots of the first 64 primes; the initial state takes the square
    roots of the first 8. *)
Definition is_prime (n : Z) : bool :=
  forallb (fun d => negb (n mod Z.of_nat d =? 0)) (seq 2 (Z.to_nat n - 2)).

Definition primes : list Z := filter is_prime (map Z.of_nat (seq 2 310)).

Fixpoint cube_root (fuel : nat) (lo hi n : Z) : Z :=
  match fuel with
  | O => lo
  | S fuel' =>
      if hi <=? lo then lo
      else
        let mid := (lo + hi + 1) / 2 in
        if mid * mid * mid <=? n then cube_root fuel' mid hi n
        else cube_root fuel' lo (mid - 1) n
  end.

Definition K : list Z :=
  Eval vm_compute in
    map (fun p => wrap (cube_root 64 0 (Z.shiftl 1 40) (Z.shiftl p 96))) primes.

(** Padding: a one bit, zeros up to 56 modulo 64, the bit length on 8 bytes. *)
Definition be_bytes (n : nat) (x : Z) : list Z :=
  map (fun i => Z.land (Z.shiftr x (8 * Z.of_nat i)) 255) (rev (seq 0 n)).

Definition pad (msg : list Z) : list Z :=
  let l := Z.of_nat (List.length msg) in
  let k := Z.to_nat ((55 - l) mod 64) in
  msg ++ [128] ++ List.repeat 0 k ++ be_bytes 8 (8 * l).

(** Big-endian words of a byte string whose length is a multiple of 4. *)
Fixpoint words (bs : list Z) : list Z :=
  match bs with
  | a :: b :: c :: d :: rest =>
      (Z.shiftl a 24 + Z.shiftl b 16 + Z.shiftl c 8 + d) :: words rest
  | _ => []
  end.

(** The message schedule, most recent word first. *)
Fixpoint schedule (n : nat) (ws : list Z) : list Z :=
  match n with
  | O => ws
  | S n' =>
      let w := add32 (add32 (sigma1 (nth 1 ws 0)) (nth 6 ws 0))
                     (add32 (sigma0 (nth 14 ws 0)) (nth 15 ws 0)) in
      schedule n' (w :: ws)
  end.

Definition regs : Type := (Z * Z * Z * Z * Z * Z * Z * Z)%type.

Definition H0 : regs :=
  Eval vm_compute in
    match map (fun p => wrap (Z.sqrt (Z.shiftl p 64))) (firstn 8 primes) with
    | [a; b; c; d; e; f; g; h] => (a, b, c, d, e, f, g, h)
    | _ => (0, 0, 0, 0, 0, 0, 0, 0)
    end.

Definition round (s : regs) (kw : Z * Z) : regs :=
  let '(a, b, c, d, e, f, g, h) := s in
  let t1 := add32 (add32 (add32 h (Sigma1 e)) (add32 (Ch e f g) (fst kw))) (snd kw) in
  let t2 := add32 (Sigma0 a) (Maj a b c) in
  (add32 t1 t2, a, b, c, add32 d t1, e, f, g).

Definition compress (s : regs) (block : list Z) : regs :=
  let w := rev (schedule 48 (rev block)) in
  let '(a, b, c, d, e, f, g, h) := fold_left round (combine K w) s in
  let '(a0, b0, c0, d0, e0, f0, g0, h0) := s in
  (add32 a0 a, add32 b0 b, add32 c0 c, add32 d0 d,
   add32 e0 e, add32 f0 f, add32 g0 g, add32 h0 h).

Fixpoint blocks (n : nat) (ws : list Z) (s : regs) : regs :=
  match n with
  | O => s
  | S n' => blocks n' (skipn 16 ws) (compress s (firstn 16 ws))
  end.

Definition hex_digit (d : Z) : ascii :=
  if d <? 10 then ascii_of_N (Z.to_N (48 + d)) else ascii_of_N (Z.to_N (87 + d)).

Definition hex32 (x : Z) : string :=
  string_of_list_ascii
    (map (fun i => hex_digit (Z.land (Z.shiftr x (4 * Z.of_nat i)) 15))
         (rev (seq 0 8))).

Definition sha256_hexdigest (msg : list Z) : string :=
  let ws := words (pad msg) in
  let '(a, b, c, d, e, f, g, h) := blocks (List.length ws / 16) ws H0 in
  (hex32 a ++ hex32 b ++ hex32 c ++ hex32 d ++
   hex32 e ++ hex32 f ++ hex32 g ++ hex32 h)%string.

End Hashlib.

(* ------------------------------------------------------------------ *)
(** ** Python lists: slices with a bound that may be negative *)

Module PyList.

Definition len {A} (l : list A) : Z := Z.of_nat (List.length l).

(** [l[:n]] *)
Definition slice_to {A} (n : Z) (l : list A) : list A :=
  if 0 <=? n then firstn (Z.to_nat n) l
  else firstn (List.length l - Z.to_nat (- n))%nat l.

(** [l[n:]] *)
Definition slice_from {A} (n : Z) (l : list A) : list A :=
  if 0 <=? n then skipn (Z.to_nat n) l
  else skipn (List.length l - Z.to_nat (- n))%nat l.

End PyList.

(* ------------------------------------------------------------------ *)
(** ** Floats, exceptions, the world *)

(** A Python [float] that is only stored, compared and printed (a reading of
    [time.time()]) is carried by its [repr], which [json.dumps] and an
    f-string both print and which determines the float. *)
Inductive pyfloat : Type := PyFloat (repr : string).

Definition float_repr (x : pyfloat) : string := let 'PyFloat r := x in r.

Inductive exn : Type :=
| ValueError (msg : string)
| IndexError (msg : string)
| NameError (msg : string)
| OverflowError (msg : string)
| ZeroDivisionError (msg : string).

(** How a call ends.  [OutOfFuel] stands for a loop that was still running
    when the fuel given to the model ran out. *)
Inductive result (A : Type) : Type :=
| Returned (v : A)
| Raised (e : exn)
| OutOfFuel.
Arguments Returned {A} v.
Arguments Raised {A} e.
Arguments OutOfFuel {A}.

(** The successive readings of [time.time()] and the successive verdicts of
    the random task-validation stub. *)
Record World : Type := mkWorld { clock : nat -> pyfloat; luck : nat -> bool }.

Definition Py (A : Type) : Type := World -> A * World.

Definition ret {A} (a : A) : Py A := fun w => (a, w).
Definition bind {A B} (m : Py A) (k : A -> Py B) : Py B :=
  fun w => let (a, w') := m w in k a w'.

Notation "x <- m ;; k" := (bind m (fun x => k))
  (at level 100, m at next level, right associativity).

(** [time.time()] *)
Definition time_time : Py pyfloat :=
  fun w => (clock w O, mkWorld (fun n => clock w (S n)) (luck w)).

(** One verdict of the random stub. *)
Definition random_verdict : Py bool :=
  fun w => (luck w O, mkWorld (clock w) (fun n => luck w (S n))).

(* ------------------------------------------------------------------ *)
(** ** [json.dumps(..., sort_keys=True)] *)

Module Json.

#[local] Set Warnings "-register-all".

Inductive value : Type :=
| Int (z : Z)
| Float (x : pyfloat)
| Str (s : string)
| Array (l : list value)
| Dict (items : list (string * value)).

Definition quote : string := String "034"%char EmptyString.
Definition backslash : string := String "092"%char EmptyString.

(** A character outside [' '..'~'], a quote or a backslash is escaped. *)
Definition escape_char (c : ascii) : string :=
  let n := Z.of_N (N_of_ascii c) in
  if n =? 34 then backslash ++ quote
  else if n =? 92 then backslash ++ backslash
  else if n =? 10 then backslash ++ "n"
  else if n =? 13 then backslash ++ "r"
  else if n =? 9 then backslash ++ "t"
  else if n =? 8 then backslash ++ "b"
  else if n =? 12 then backslash ++ "f"
  else if (32 <=? n) && (n <=? 126) then String c EmptyString
  else backslash ++ "u00"
       ++ String (Hashlib.hex_digit (Z.shiftr n 4))
            (String (Hashlib.hex_digit (Z.land n 15)) EmptyString).

Fixpoint escape (s : string) : string :=
  match s with
  | EmptyString => EmptyString
  | String c s' => escape_char c ++ escape s'
  end.

Definition dumps_str (s : string) : string := quote ++ escape s ++ quote.

(** Insertion of a rendered item by its key: the order of [sort_keys]. *)
Fixpoint insert_item (kv : string * string) (l : list (string * string))
  : list (string * string) :=
  match l with
  | [] => [kv]
  | kv' :: rest =>
      if String.leb (fst kv) (fst kv') then kv :: l
      else kv' :: insert_item kv rest
  end.

Definition sort_items (l : list (string * string)) : list (string * string) :=
  fold_right insert_item [] l.

Definition dumps_item (kv : string * string) : string :=
  dumps_str (fst kv) ++ ": " ++ snd kv.

Fixpoint dumps (v : value) : string :=
  match v with
  | Int z => PyStr.of_int z
  | Float x => float_repr x
  | Str s => dumps_str s
  | Array l => "[" ++ PyStr.join ", " (map dumps l) ++ "]"
  | Dict items =>
      "{" ++ PyStr.join ", "
               (map dumps_item
                    (sort_items (map (fun kv => (fst kv, dumps (snd kv))) items)))
          ++ "}"
  end.

End Json.

(* ------------------------------------------------------------------ *)
(** ** blockchain.py *)

Module Blockchain.

(** A transaction is the dict [{"from": .., "to": .., "amount": ..}]. *)
Record Transaction : Type := mkTransaction
  { sender : string; recipient : string; amount : Z }.

(** A task certificate is the dict
    [{"task_id": .., "user_address": .., "timestamp": .., "signature": ..}]. *)
Record Certificate : Type := mkCertificate
  { task_id : string; user_address : string;
    cert_timestamp : pyfloat; signature : string }.

Record Block : Type := mkBlock
  { index : Z;
    timestamp : pyfloat;
    transactions : list Transaction;
    task_certificates : list Certificate;
    previous_hash : string;
    nonce : Z;
    hash : string }.

Definition set_nonce (b : Block) (n : Z) : Block :=
  mkBlock (index b) (timestamp b) (transactions b) (task_certificates b)
          (previous_hash b) n (hash b).

Definition set_hash (b : Block) (h : string) : Block :=
  mkBlock (index b) (timestamp b) (transactions b) (task_certificates b)
          (previous_hash b) (nonce b) h.

Definition transaction_dict (t : Transaction) : Json.value :=
  Json.Dict [("from", Json.Str (sender t)); ("to", Json.Str (recipient t));
             ("amount", Json.Int (amount t))].

Definition certificate_dict (c : Certificate) : Json.value :=
  Json.Dict [("task_id", Json.Str (task_id c));
             ("user_address", Json.Str (user_address c));
             ("timestamp", Json.Float (cert_timestamp c));
             ("signature", Json.Str (signature c))].

(** The dict that [calculate_hash] serialises: every field but [hash]. *)
Definition block_dict (self : Block) : Json.value :=
  Json.Dict [("index", Json.Int (index self));
             ("timestamp", Json.Float (timestamp self));
             ("transactions", Json.Array (map transaction_dict (transactions self)));
             ("task_certificates",
               Json.Array (map certificate_dict (task_certificates self)));
             ("previous_hash", Json.Str (previous_hash self));
             ("nonce", Json.Int (nonce self))].

(** [Block.calculate_hash] *)
Definition calculate_hash (self : Block) : string :=
  let block_string := PyStr.encode (Json.dumps (block_dict self)) in
  Hashlib.sha256_hexdigest block_string.

(** [Block.__init__] *)
Definition Block_init (index : Z) (transactions : list Transaction)
    (task_certificates : list Certificate) (previous_hash : string) : Py Block :=
  now <- time_time ;;
  let self := mkBlock index now transactions task_certificates previous_hash 0
                      EmptyString in
  ret (set_hash self (calculate_hash self)).

Record VirtusWorkChain : Type := mkChain
  { chain : list Block;
    difficulty : Z;
    pending_transactions : list Transaction;
    pending_task_certificates : list Certificate;
    min_task_certificates_per_block : Z;
    mining_reward : Z }.

Definition set_chain (self : VirtusWorkChain) (c : list Block) :=
  mkChain c (difficulty self) (pending_transactions self)
          (pending_task_certificates self)
          (min_task_certificates_per_block self) (mining_reward self).

Definition set_pending_transactions (self : VirtusWorkChain)
    (l : list Transaction) :=
  mkChain (chain self) (difficulty self) l (pending_task_certificates self)
          (min_task_certificates_per_block self) (mining_reward self).

Definition set_pending_task_certificates (self : VirtusWorkChain)
    (l : list Certificate) :=
  mkChain (chain self) (difficulty self) (pending_transactions self) l
          (min_task_certificates_per_block self) (mining_reward self).

(** [create_genesis_block] *)
Definition create_genesis_block : Py Block := Block_init 0 [] [] "0".

(** [VirtusWorkChain.__init__] *)
Definition VirtusWorkChain_init : Py VirtusWorkChain :=
  genesis <- create_genesis_block ;;
  ret (mkChain [genesis] 4 [] [] 5 5).

(** [get_latest_block]: [self.chain[-1]] *)
Definition get_latest_block (self : VirtusWorkChain) : result Block :=
  match rev (chain self) with
  | [] => Raised (IndexError "list index out of range")
  | b :: _ => Returned b
  end.

(** The loop test of the search: [block.hash[:d] != "0" * d] is false. *)
Definition meets_target (d : Z) (block : Block) : bool :=
  String.eqb (PyStr.slice_to d (hash block)) (PyStr.repeat "0" d).

(** One turn of the loop body. *)
Definition next_nonce (block : Block) : Block :=
  let block := set_nonce block (nonce block + 1) in
  set_hash block (calculate_hash block).

(** The proof-of-work loop; [None] when [fuel] turns were not enough. *)
Fixpoint proof_of_work (fuel : nat) (d : Z) (block : Block) : option Block :=
  if meets_target d block then Some block
  else match fuel with
       | O => None
       | S fuel' => proof_of_work fuel' d (next_nonce block)
       end.

(** [mine_block].  The call ends with the value it returns ([None]: the
    body has no [return]), or with the exception it raises; the chain
    object is given back as the call left it in either case. *)
Definition mine_block (fuel : nat) (self : VirtusWorkChain)
    (miner_address : string) : Py (result (option Block) * VirtusWorkChain) :=
  let reward_tx := mkTransaction "network" miner_address (mining_reward self) in
  let self := set_pending_transactions self (pending_transactions self ++ [reward_tx]) in
  if PyList.len (pending_task_certificates self) <? min_task_certificates_per_block self
  then ret (Raised (ValueError ("Need at least "
              ++ PyStr.of_int (min_task_certificates_per_block self)
              ++ " task certificates to mine")), self)
  else
    let task_certificates :=
      PyList.slice_to (min_task_certificates_per_block self)
                      (pending_task_certificates self) in
    let self := set_pending_task_certificates self
      (PyList.slice_from (min_task_certificates_per_block self)
                         (pending_task_certificates self)) in
    match get_latest_block self with
    | Returned latest =>
        block <- Block_init (PyList.len (chain self)) (pending_transactions self)
                            task_certificates (hash latest) ;;
        start_time <- time_time ;;
        match proof_of_work fuel (difficulty self) block with
        | Some block =>
            end_time <- time_time ;;
            let self := set_chain self (chain self ++ [block]) in
            let self := set_pending_transactions self [] in
            ret (Returned None, self)
        | None => ret (OutOfFuel, self)
        end
    | Raised e => ret (Raised e, self)
    | OutOfFuel => ret (OutOfFuel, self)
    end.

(** [add_transaction] *)
Definition add_transaction (self : VirtusWorkChain)
    (sender recipient : string) (amount : Z) : VirtusWorkChain :=
  let transaction := mkTransaction sender recipient amount in
  set_pending_transactions self (pending_transactions self ++ [transaction]).

(** [add_task_certificate] *)
Definition add_task_certificate (self : VirtusWorkChain)
    (certificate : Certificate) : VirtusWorkChain :=
  set_pending_task_certificates self
    (pending_task_certificates self ++ [certificate]).

(** The body of the loop of [is_chain_valid] from index [i] on, with the
    block at [i - 1]; the line printed on failure is returned with the
    verdict. *)
Fixpoint validate_from (min_certs : Z) (i : Z) (previous_block : Block)
    (rest : list Block) : bool * list string :=
  match rest with
  | [] => (true, [])
  | current_block :: rest' =>
      if negb (String.eqb (hash current_block) (calculate_hash current_block))
      then (false, [("Invalid hash at block " ++ PyStr.of_int i)%string])
      else if negb (String.eqb (previous_hash current_block) (hash previous_block))
      then (false, [("Chain broken at block " ++ PyStr.of_int i)%string])
      else if PyList.len (task_certificates current_block) <? min_certs
      then (false, [("Insufficient task certificates at block " ++ PyStr.of_int i)%string])
      else validate_from min_certs (i + 1) current_block rest'
  end.

(** [is_chain_valid]: the verdict and what was printed. *)
Definition is_chain_valid (self : VirtusWorkChain) : bool * list string :=
  match chain self with
  | [] => (true, [])
  | first :: rest =>
      validate_from (min_task_certificates_per_block self) 1 first rest
  end.

(** [get_balance] *)
Definition get_balance (self : VirtusWorkChain) (address : string) : Z :=
  fold_left
    (fun balance block =>
       fold_left
         (fun balance tx =>
            let balance :=
              if String.eqb (sender tx) address then balance - amount tx
              else balance in
            if String.eqb (recipient tx) address then balance + amount tx
            else balance)
         (transactions block) balance)
    (chain self) 0.

(** [validate_task]: [random.choice([True, True, False])] *)
Definition validate_task (task_data : string) : Py bool := random_verdict.

(** [generate_task_certificate]: the dict display reads the clock for the
    ["timestamp"] entry and reads it again inside the f-string. *)
Definition generate_task_certificate (task_id user_address task_data : string)
  : Py (option Certificate) :=
  valid <- validate_task task_data ;;
  if valid then
    t1 <- time_time ;;
    t2 <- time_time ;;
    let certificate :=
      mkCertificate task_id user_address t1
        (Hashlib.sha256_hexdigest
           (PyStr.encode (task_id ++ user_address ++ float_repr t2))) in
    ret (Some certificate)
  else ret None.

End Blockchain.

(* ------------------------------------------------------------------ *)
(** ** utils.py and task.py *)

Module Utils.

Import Blockchain.

(** The names bound at the top level of [utils.py]: its two imports and its
    two functions.  [time] is not one of them. *)
Definition module_globals : list string :=
  ["hashlib"; "json"; "sha256_hash"; "generate_certificate"].

Definition bound (name : string) : bool :=
  existsb (String.eqb name) module_globals.

(** [sha256_hash] *)
Definition sha256_hash (data : Json.value) : string :=
  Hashlib.sha256_hexdigest (PyStr.encode (Json.dumps data)).

(** The statements of [generate_certificate], with [time] resolved. *)
Definition generate_certificate_body (task_id user_address : string)
  : Py Certificate :=
  timestamp <- time_time ;;
  let signature :=
    Hashlib.sha256_hexdigest
      (PyStr.encode (task_id ++ user_address ++ float_repr timestamp)) in
  ret (mkCertificate task_id user_address timestamp signature).

(** [generate_certificate]: its first statement looks [time] up. *)
Definition generate_certificate (task_id user_address : string)
  : Py (result Certificate) :=
  if bound "time" then
    certificate <- generate_certificate_body task_id user_address ;;
    ret (Returned certificate)
  else ret (Raised (NameError "name 'time' is not defined")).

End Utils.

Module Task.

Import Blockchain.

(** [validate_task]: [random.random() < 0.7] *)
Definition validate_task (task_data : string) : Py bool := random_verdict.

(** [complete_task] *)
Definition complete_task (task_id user_address task_data : string)
  : Py (result (option Certificate)) :=
  valid <- validate_task task_data ;;
  if valid then
    r <- Utils.generate_certificate task_id user_address ;;
    match r with
    | Returned c => ret (Returned (Some c))
    | Raised e => ret (Raised e)
    | OutOfFuel => ret OutOfFuel
    end
  else ret (Returned None).

End Task.

(* ------------------------------------------------------------------ *)
(** ** Floats that are computed with *)

Module Float64.

(** A Python [float]: an IEEE 754 binary64 number.  A finite one is its sign
    and the rational number its magnitude denotes, in lowest terms, so that
    [Finite false 0] is [0.0] and [Finite true 0] is [-0.0]. *)
Inductive float64 : Type :=
| Finite (negative : bool) (magnitude : Q)
| Infinite (negative : bool)
| NaN.

(** Bits of the significand, exponent of the least positive double, and the
    exponent of the power of two that no double reaches. *)
Definition prec : Z := 53.
Definition emin : Z := -1074.
Definition emax : Z := 1024.

(** [floor (log2 (n / d))], for positive [n] and [d]. *)
Definition ilog2 (n d : Z) : Z :=
  if d <=? n then Z.log2 (n / d) else - Z.log2_up ((d + n - 1) / n).

(** The exponent of the unit in the last place of the doubles around
    [n / d]. *)
Definition ulp_exponent (n d : Z) : Z := Z.max (ilog2 n d - (prec - 1)) emin.

(** The integer nearest to [n / d], the even one of two that are equally
    near. *)
Definition round_half_even (n d : Z) : Z :=
  let m := n / d in
  match 2 * (n mod d) ?= d with
  | Lt => m
  | Gt => m + 1
  | Eq => if Z.even m then m else m + 1
  end.

(** [m * 2 ^ e], in lowest terms. *)
Definition dyadic (m e : Z) : Q :=
  if 0 <=? e then inject_Z (m * 2 ^ e) else Qred (m # Z.to_pos (2 ^ (- e))).

(** The double nearest to the magnitude [q], ties to even, with the sign
    given; infinite from [2 ^ emax] on. *)
Definition round64 (negative : bool) (q : Q) : float64 :=
  match Qnum q with
  | Zpos n =>
      let d := Zpos (Qden q) in
      let e := ulp_exponent (Zpos n) d in
      let m := round_half_even (Zpos n * 2 ^ Z.max 0 (- e)) (d * 2 ^ Z.max 0 e) in
      if (0 <=? e) && (2 ^ emax <=? m * 2 ^ e) then Infinite negative
      else Finite negative (dyadic m e)
  | _ => Finite negative 0
  end.

(** [float(z)], the conversion an [int] operand of a [float] operation
    undergoes. *)
Definition of_int (z : Z) : result float64 :=
  match round64 (z <? 0) (inject_Z (Z.abs z)) with
  | Infinite _ => Raised (OverflowError "int too large to convert to float")
  | x => Returned x
  end.

(** [a / b] on two [int]s: the double nearest to the exact quotient, however
    large the operands. *)
Definition truediv (a b : Z) : result float64 :=
  if b =? 0 then Raised (ZeroDivisionError "division by zero")
  else
    match round64 (xorb (a <? 0) (b <? 0)) (Z.abs a # Z.to_pos (Z.abs b)) with
    | Infinite _ =>
        Raised (OverflowError "integer division result too large for a float")
    | x => Returned x
    end.

(** [x * y] on two [float]s. *)
Definition mul (x y : float64) : float64 :=
  match x, y with
  | Finite s p, Finite t q => round64 (xorb s t) (p * q)%Q
  | Finite s p, Infinite t | Infinite t, Finite s p =>
      if Qeq_bool p 0 then NaN else Infinite (xorb s t)
  | Infinite s, Infinite t => Infinite (xorb s t)
  | _, _ => NaN
  end.

(** The number a primitive binary64 float of the prover denotes. *)
Definition of_binary64 (f : PrimFloat.float) : float64 :=
  match Prim2SF f with
  | S754_zero s => Finite s 0
  | S754_infinity s => Infinite s
  | S754_nan => NaN
  | S754_finite s m e => Finite s (dyadic (Zpos m) e)
  end.

(** The same double. *)
Definition same (x y : float64) : bool :=
  match x, y with
  | Finite s p, Finite t q =>
      Bool.eqb s t && (Qnum p =? Qnum q) && (Pos.eqb (Qden p) (Qden q))
  | Infinite s, Infinite t => Bool.eqb s t
  | NaN, NaN => true
  | _, _ => false
  end.

End Float64.

(* ------------------------------------------------------------------ *)
(** ** consensus.py *)

Module Consensus.

Import Float64.

(** [self.stakers]: a dict, kept in insertion order. *)
Definition ledger : Type := list (string * Z).

Record ProofOfStake : Type := mkPoS { stakers : ledger; min_stake : Z }.

(** [ProofOfStake.__init__] *)
Definition ProofOfStake_init : ProofOfStake := mkPoS [] 10.

(** [d.get(k)] *)
Fixpoint lookup (k : string) (d : ledger) : option Z :=
  match d with
  | [] => None
  | (k', v) :: rest => if String.eqb k k' then Some v else lookup k rest
  end.

(** [d[k] = v]: in place for a key that is present, at the end otherwise. *)
Fixpoint store (k : string) (v : Z) (d : ledger) : ledger :=
  match d with
  | [] => [(k, v)]
  | (k', v') :: rest =>
      if String.eqb k k' then (k', v) :: rest else (k', v') :: store k v rest
  end.

(** [del d[k]] *)
Fixpoint delete (k : string) (d : ledger) : ledger :=
  match d with
  | [] => []
  | (k', v') :: rest =>
      if String.eqb k k' then rest else (k', v') :: delete k rest
  end.

Definition keys (d : ledger) : list string := map fst d.
Definition values (d : ledger) : list Z := map snd d.

(** The keys of a dict are pairwise distinct. *)
Definition well_formed (d : ledger) : Prop := NoDup (keys d).

(** [add_staker] *)
Definition add_staker (self : ProofOfStake) (public_key : string) (amount : Z)
  : result unit * ProofOfStake :=
  if amount <? min_stake self then
    (Raised (ValueError ("Stake must be at least "
               ++ PyStr.of_int (min_stake self) ++ " tokens")), self)
  else
    match lookup public_key (stakers self) with
    | Some stake =>
        (Returned tt,
         mkPoS (store public_key (stake + amount) (stakers self)) (min_stake self))
    | None =>
        (Returned tt,
         mkPoS (store public_key amount (stakers self)) (min_stake self))
    end.

(** [remove_staker] *)
Definition remove_staker (self : ProofOfStake) (public_key : string) (amount : Z)
  : result unit * ProofOfStake :=
  match lookup public_key (stakers self) with
  | None => (Raised (ValueError "Insufficient stake"), self)
  | Some stake =>
      if stake <? amount then (Raised (ValueError "Insufficient stake"), self)
      else
        let stakers1 := store public_key (stake - amount) (stakers self) in
        if stake - amount =? 0
        then (Returned tt, mkPoS (delete public_key stakers1) (min_stake self))
        else (Returned tt, mkPoS stakers1 (min_stake self))
  end.

(** [sum(self.stakers.values())] *)
Definition total_stake (self : ProofOfStake) : Z :=
  fold_left Z.add (values (stakers self)) 0.

(** The [for] loop of [select_validator]: [current] before the entry. *)
Fixpoint walk (items : ledger) (current : Z) (selection : Q) : option string :=
  match items with
  | [] => None
  | (public_key, stake) :: rest =>
      let current := current + stake in
      if Qle_bool selection (inject_Z current) then Some public_key
      else walk rest current selection
  end.

(** [select_validator], given the number [selection] that
    [random.uniform(0, total_stake)] drew.  The comparison of an [int] with
    a [float] is exact in Python, so the draw is taken as the rational
    number the float denotes. *)
Definition select_validator (self : ProofOfStake) (selection : Q)
  : result string :=
  match stakers self with
  | [] => Raised (ValueError "No stakers available")
  | _ :: _ =>
      match walk (stakers self) 0 selection with
      | Some public_key => Returned public_key
      | None => Returned (last (keys (stakers self)) EmptyString)
      end
  end.

(** [calculate_reward].  The quotient [stake / 100] is taken first, and may
    raise [OverflowError]; the [int] [base_reward] is then converted and
    multiplied with it. *)
Definition calculate_reward (self : ProofOfStake) (validator : string)
  : result float64 :=
  let stake := match lookup validator (stakers self) with
               | Some s => s
               | None => 0
               end in
  let base_reward := 2 in
  match truediv stake 100 with
  | Returned quotient =>
      match of_int base_reward with
      | Returned base => Returned (mul base quotient)
      | Raised e => Raised e
      | OutOfFuel => OutOfFuel
      end
  | Raised e => Raised e
  | OutOfFuel => OutOfFuel
  end.

End Consensus.

(* ------------------------------------------------------------------ *)
(** ** Vocabulary of the statements *)

Import Blockchain.

(** The world after [k] readings of the clock. *)
Definition advance (k : nat) (w : World) : World :=
  mkWorld (fun n => clock w (k + n)%nat) (luck w).

(** The reward transaction a call of [mine_block] queues. *)
Definition reward_transaction (self : VirtusWorkChain) (miner_address : string)
  : Transaction :=
  mkTransaction "network" miner_address (mining_reward self).

(** The chain object after a call of [mine_block] that raised for want of
    certificates. *)
Definition after_shortfall (self : VirtusWorkChain) (miner_address : string)
  : VirtusWorkChain :=
  set_pending_transactions self
    (pending_transactions self ++ [reward_transaction self miner_address]).

(** The block [mine_block] constructs before the search, on top of [latest]
    at the clock reading [now]. *)
Definition candidate_block (self : VirtusWorkChain) (miner_address : string)
    (latest : Block) (now : pyfloat) : Block :=
  let b := mkBlock (PyList.len (chain self)) now
             (pending_transactions self ++ [reward_transaction self miner_address])
             (PyList.slice_to (min_task_certificates_per_block self)
                              (pending_task_certificates self))
             (hash latest) 0 EmptyString in
  set_hash b (calculate_hash b).

(** The chain object after a call of [mine_block] that appended [block]. *)
Definition after_mining (self : VirtusWorkChain) (block : Block)
  : VirtusWorkChain :=
  mkChain (chain self ++ [block]) (difficulty self) []
          (PyList.slice_from (min_task_certificates_per_block self)
                             (pending_task_certificates self))
          (min_task_certificates_per_block self) (mining_reward self).

(** A block whose stored hash is the hash of its content. *)
Definition sealed (b : Block) : Prop := hash b = calculate_hash b.

(** [chain[i] = b] *)
Fixpoint replace_at {A} (i : nat) (x : A) (l : list A) : list A :=
  match l, i with
  | [], _ => []
  | _ :: t, O => x :: t
  | h :: t, S i' => h :: replace_at i' x t
  end.

(** The chain object with the block at position [i] overwritten. *)
Definition tamper (self : VirtusWorkChain) (i : nat) (b : Block)
  : VirtusWorkChain :=
  set_chain self (replace_at i b (chain self)).

(** The states a program can bring a chain object to with the three public
    operations, starting from the constructor.  A call of [mine_block] counts
    when it ended, by returning or by raising. *)
Inductive reachable : VirtusWorkChain -> Prop :=
| reach_init w : reachable (fst (VirtusWorkChain_init w))
| reach_add_transaction self sender recipient amount :
    reachable self ->
    reachable (add_transaction self sender recipient amount)
| reach_add_task_certificate self certificate :
    reachable self ->
    reachable (add_task_certificate self certificate)
| reach_mine_block self fuel miner_address w r self' w' :
    reachable self ->
    mine_block fuel self miner_address w = (r, self', w') ->
    r <> OutOfFuel ->
    reachable self'.

(** The same, from a given chain object [start]: the states the three
    operations lead to from [start].  With [start] the object a call of the
    constructor returned, the history keeps that very object in view. *)
Inductive reachable_from (start : VirtusWorkChain) : VirtusWorkChain -> Prop :=
| from_start : reachable_from start start
| from_add_transaction self sender recipient amount :
    reachable_from start self ->
    reachable_from start (add_transaction self sender recipient amount)
| from_add_task_certificate self certificate :
    reachable_from start self ->
    reachable_from start (add_task_certificate self certificate)
| from_mine_block self fuel miner_address w r self' w' :
    reachable_from start self ->
    mine_block fuel self miner_address w = (r, self', w') ->
    r <> OutOfFuel ->
    reachable_from start self'.

(** The block at position [i] carries the index [i]. *)
Definition indexed (l : list Block) : Prop :=
  forall i b, nth_error l i = Some b -> index b = Z.of_nat i.

(** Each block names the stored hash of the block before it. *)
Definition linked (l : list Block) : Prop :=
  forall i p b,
    nth_error l i = Some p -> nth_error l (S i) = Some b ->
    previous_hash b = hash p.

(** [n] failed attempts in a row, each at its own clock. *)
Fixpoint attempts (n : nat) (fuel : nat) (self : VirtusWorkChain)
    (miner_address : string) (w : World) : VirtusWorkChain :=
  match n with
  | O => self
  | S n' =>
      let '(_, self', w') := mine_block fuel self miner_address w in
      attempts n' fuel self' miner_address w'
  end.

(* ------------------------------------------------------------------ *)
(** ** Concrete inputs used by the examples *)

Module Samples.

(** A clock that reads 1700000000.5, 1700000001.5, ... and a validation
    stub that always passes. *)
Definition w0 : World :=
  mkWorld (fun n => PyFloat (PyStr.of_int (1700000000 + Z.of_nat n) ++ ".5"))
          (fun _ => true).

(** A clock that advances by a tenth of a second between two readings. *)
Definition w_tick : World :=
  mkWorld (fun n => PyFloat ("1700000000." ++ PyStr.of_int (1 + Z.of_nat n)))
          (fun _ => true).

(** The certificate of task [n], as an issuer would hand it over. *)
Definition cert (n : Z) : Certificate :=
  mkCertificate ("task_" ++ PyStr.of_int n) "Alice" (PyFloat "1699999999.25")
                "sig".

(** [VirtusWorkChain()] *)
Definition fresh : VirtusWorkChain := fst (VirtusWorkChain_init w0).

(** The world once the constructor has read the clock. *)
Definition w1 : World := snd (VirtusWorkChain_init w0).

(** A fresh chain after six certificates and two transactions, with the
    constructor's settings. *)
Definition ready : VirtusWorkChain :=
  let self := fold_left add_task_certificate (map cert [0; 1; 2; 3; 4; 5]) fresh in
  let self := add_transaction self "Alice" "Bob" 50 in
  add_transaction self "Bob" "Charlie" 30.

(** A miner address for which the search on [ready] ends at nonce 5. *)
Definition miner : string := "miner9106".

(** [ready] after [mine_block(miner)]. *)
Definition mined : VirtusWorkChain :=
  snd (fst (mine_block 10 ready miner w1)).

(** The genesis block of [fresh]. *)
Definition genesis : Block := fst (create_genesis_block w0).

(** The genesis block with a transaction written into it and its stored
    hash left as it was. *)
Definition forged_genesis : Block :=
  mkBlock (index genesis) (timestamp genesis)
          [mkTransaction "network" "Mallory" 1000000]
          (task_certificates genesis) (previous_hash genesis) (nonce genesis)
          (hash genesis).

(** The block [mined] holds at index 1. *)
Definition block1 : Block := nth 1 (chain mined) genesis.

(** [block1] with the amount of its first transaction changed from 50 to
    5000 and its stored hash left as it was. *)
Definition forged_block1 : Block :=
  mkBlock (index block1) (timestamp block1)
          (mkTransaction "Alice" "Bob" 5000 :: tl (transactions block1))
          (task_certificates block1) (previous_hash block1) (nonce block1)
          (hash block1).

(** The stake ledger [{A: 90, B: 10}]. *)
Definition two_stakers : Consensus.ProofOfStake :=
  Consensus.mkPoS [("A", 90); ("B", 10)] 10.

End Samples.

(* ------------------------------------------------------------------ *)
(** ** Test vectors *)

Example round_constants :
  List.length Hashlib.K = 64%nat
  /\ hd 0 Hashlib.K = 0x428a2f98 /\ last Hashlib.K 0 = 0xc67178f2
  /\ fst Hashlib.H0 = (0x6a09e667, 0xbb67ae85, 0x3c6ef372, 0xa54ff53a,
                       0x510e527f, 0x9b05688c, 0x1f83d9ab).
Proof. vm_compute. repeat split. Qed.

Example sha256_abc :
  Hashlib.sha256_hexdigest (PyStr.encode "abc")
  = "ba7816bf8f01cfea414140de5dae2223b00361a396177a9cb410ff61f20015ad".
Proof. vm_compute. reflexivity. Qed.

Example sha256_empty :
  Hashlib.sha256_hexdigest []
  = "e3b0c44298fc1c149afbf4c8996fb92427ae41e4649b934ca495991b7852b855".
Proof. vm_compute. reflexivity. Qed.

Example sha256_two_blocks :
  Hashlib.sha256_hexdigest (List.repeat 97 119)
  = "31eba51c313a5c08226adf18d4a359cfdfd8d2e816b13f4af952f7ea6584dcfb".
Proof. vm_compute. reflexivity. Qed.

Example dumps_genesis :
  Json.dumps (block_dict (mkBlock 0 (PyFloat "1700000000.5") [] [] "0" 0 EmptyString))
  = (("{" ++ Json.quote ++ "index" ++ Json.quote ++ ": 0, "
      ++ Json.quote ++ "nonce" ++ Json.quote ++ ": 0, "
      ++ Json.quote ++ "previous_hash" ++ Json.quote ++ ": "
      ++ Json.quote ++ "0" ++ Json.quote ++ ", "
      ++ Json.quote ++ "task_certificates" ++ Json.quote ++ ": [], "
      ++ Json.quote ++ "timestamp" ++ Json.quote ++ ": 1700000000.5, "
      ++ Json.quote ++ "transactions" ++ Json.quote ++ ": []}")%string).
Proof. vm_compute. reflexivity. Qed.

Example genesis_hash :
  map hash (chain Samples.fresh)
  = ["da1beee003a55ef26ae9792a8346543acc2414f53de96ca5e840a59d39e2eca2"].
Proof. vm_compute. reflexivity. Qed.

Example mined_nonce_and_hashes :
  map nonce (chain Samples.mined) = [0; 5]
  /\ map hash (chain Samples.mined)
     = ["da1beee003a55ef26ae9792a8346543acc2414f53de96ca5e840a59d39e2eca2";
        "0000abab44db23501477707cfd8e44c9e3ec1052c81d49eefca3b98a75d006b7"].
Proof. vm_compute. split; reflexivity. Qed.

(* ------------------------------------------------------------------ *)
(** ** Strings and slices *)

Lemma string_length_append (s1 s2 : string) :
  String.length (s1 ++ s2) = (String.length s1 + String.length s2)%nat.
Proof. induction s1 as [|c s1 IH]; simpl; [reflexivity|rewrite IH; reflexivity]. Qed.

Lemma hex32_length x : String.length (Hashlib.hex32 x) = 8%nat.
Proof. reflexivity. Qed.

(** A digest is 64 characters long. *)
Lemma sha256_hexdigest_length msg :
  String.length (Hashlib.sha256_hexdigest msg) = 64%nat.
Proof.
  unfold Hashlib.sha256_hexdigest.
  destruct (Hashlib.blocks _ _ _) as [[[[[[[a b] c] d] e] f] g] h].
  rewrite !string_length_append, !hex32_length. reflexivity.
Qed.

(** The digest is only ever computed by the virtual machine. *)
Opaque Hashlib.sha256_hexdigest.

Arguments calculate_hash : simpl never.
Arguments meets_target : simpl never.
Arguments next_nonce : simpl never.
Arguments PyStr.of_int : simpl never.

Lemma take_replicate_leading_zeros n :
  forall s, PyStr.take n s = PyStr.replicate n "0"%char ->
            (n <= PyStr.leading_zeros s)%nat.
Proof.
  induction n as [|n IH]; intros s H.
  - apply Nat.le_0_l.
  - destruct s as [|c s]; simpl in H; [discriminate|].
    injection H as Hc Hs. subst c. simpl.
    apply le_n_S, IH, Hs.
Qed.

Lemma meets_target_leading_zeros d b :
  meets_target d b = true -> d <= Z.of_nat (PyStr.leading_zeros (hash b)).
Proof.
  unfold meets_target, PyStr.slice_to, PyStr.repeat. intros H.
  apply String.eqb_eq in H.
  destruct (0 <=? d) eqn:Hd.
  - apply take_replicate_leading_zeros in H. apply Z.leb_le in Hd. lia.
  - apply Z.leb_gt in Hd. lia.
Qed.

Lemma slice_app {A} n (l : list A) :
  PyList.slice_to n l ++ PyList.slice_from n l = l.
Proof.
  unfold PyList.slice_to, PyList.slice_from.
  destruct (0 <=? n); apply firstn_skipn.
Qed.

Lemma slice_to_length {A} n (l : list A) :
  0 <= n <= PyList.len l -> PyList.len (PyList.slice_to n l) = n.
Proof.
  unfold PyList.slice_to, PyList.len. intros [H0 Hn].
  destruct (0 <=? n) eqn:E; [|apply Z.leb_gt in E; lia].
  rewrite firstn_length_le; lia.
Qed.

Lemma slice_to_firstn {A} n (l : list A) :
  0 <= n -> PyList.slice_to n l = firstn (Z.to_nat n) l.
Proof.
  unfold PyList.slice_to. intros H.
  destruct (0 <=? n) eqn:E; [reflexivity|apply Z.leb_gt in E; lia].
Qed.

Lemma slice_from_skipn {A} n (l : list A) :
  0 <= n -> PyList.slice_from n l = skipn (Z.to_nat n) l.
Proof.
  unfold PyList.slice_from. intros H.
  destruct (0 <=? n) eqn:E; [reflexivity|apply Z.leb_gt in E; lia].
Qed.

(** A slice [l[:n]] is never longer than asked for when [n] is negative, and
    a block that passed the admission test holds at least [n] certificates. *)
Lemma slice_to_enough {A} n (l : list A) :
  n <= PyList.len l -> n <= PyList.len (PyList.slice_to n l).
Proof.
  intros H. destruct (Z.le_gt_cases 0 n) as [Hn|Hn].
  - rewrite slice_to_length; lia.
  - unfold PyList.len. lia.
Qed.

(* ------------------------------------------------------------------ *)
(** ** The proof-of-work search *)

Lemma calculate_hash_set_hash b h :
  calculate_hash (set_hash b h) = calculate_hash b.
Proof. reflexivity. Qed.

Lemma next_nonce_sealed b : sealed (next_nonce b).
Proof. reflexivity. Qed.

Lemma candidate_block_sealed self miner latest now :
  sealed (candidate_block self miner latest now).
Proof. reflexivity. Qed.

Lemma proof_of_work_sound fuel d :
  forall b b',
    proof_of_work fuel d b = Some b' ->
    meets_target d b' = true
    /\ (sealed b -> sealed b')
    /\ index b' = index b
    /\ timestamp b' = timestamp b
    /\ transactions b' = transactions b
    /\ task_certificates b' = task_certificates b
    /\ previous_hash b' = previous_hash b
    /\ nonce b <= nonce b'.
Proof.
  induction fuel as [|fuel IH]; intros b b' H; simpl in H.
  - destruct (meets_target d b) eqn:E; [|discriminate].
    injection H as <-. repeat split; auto. lia.
  - destruct (meets_target d b) eqn:E.
    + injection H as <-. repeat split; auto. lia.
    + apply IH in H. destruct H as (Hm & Hs & Hi & Ht & Htx & Hc & Hp & Hn).
      repeat split; auto.
      * intros _. apply Hs, next_nonce_sealed.
      * change (nonce (next_nonce b)) with (nonce b + 1) in Hn. lia.
Qed.

Lemma proof_of_work_complete d n :
  forall fuel b,
    (forall k, (k < n)%nat -> meets_target d (Nat.iter k next_nonce b) = false) ->
    meets_target d (Nat.iter n next_nonce b) = true ->
    (n <= fuel)%nat ->
    proof_of_work fuel d b = Some (Nat.iter n next_nonce b).
Proof.
  induction n as [|n IH]; intros fuel b Hlt Hn Hfuel.
  - simpl in Hn. destruct fuel; simpl; rewrite Hn; reflexivity.
  - destruct fuel as [|fuel]; [lia|]. simpl proof_of_work.
    assert (H0 : meets_target d b = false) by (apply (Hlt O); lia).
    rewrite H0. rewrite Nat.iter_succ_r in *.
    apply IH; [|assumption|lia].
    intros k Hk. rewrite <- Nat.iter_succ_r. apply Hlt. lia.
Qed.

(** A nonce that meets the target gives a first one. *)
Lemma first_hit d b n :
  meets_target d (Nat.iter n next_nonce b) = true ->
  exists m, (m <= n)%nat
            /\ meets_target d (Nat.iter m next_nonce b) = true
            /\ forall k, (k < m)%nat -> meets_target d (Nat.iter k next_nonce b) = false.
Proof.
  induction n as [n IH] using lt_wf_ind. intros Hn.
  destruct (existsb (fun k => meets_target d (Nat.iter k next_nonce b)) (seq 0 n)) eqn:E.
  - apply existsb_exists in E. destruct E as (k & Hk & Hm).
    apply in_seq in Hk. destruct (IH k) as (m & Hmk & Hmm & Hfirst); [lia|exact Hm|].
    exists m. split; [lia|]. split; assumption.
  - exists n. split; [lia|]. split; [assumption|].
    intros k Hk. destruct (meets_target d (Nat.iter k next_nonce b)) eqn:Ek; [|reflexivity].
    assert (existsb (fun k => meets_target d (Nat.iter k next_nonce b)) (seq 0 n) = true).
    { apply existsb_exists. exists k. split; [apply in_seq; lia|exact Ek]. }
    congruence.
Qed.

(* ------------------------------------------------------------------ *)
(** ** What a call of [mine_block] does *)

Lemma get_latest_block_last self :
  chain self <> [] ->
  get_latest_block self = Returned (last (chain self) (mkBlock 0 (PyFloat EmptyString) [] [] EmptyString 0 EmptyString)).
Proof.
  unfold get_latest_block. intros H.
  destruct (chain self) as [|b l] using rev_ind; [congruence|].
  rewrite rev_app_distr, last_last. reflexivity.
Qed.

Lemma get_latest_block_empty self :
  chain self = [] ->
  get_latest_block self = Raised (IndexError "list index out of range").
Proof. unfold get_latest_block. intros ->. reflexivity. Qed.

Lemma get_latest_block_app self latest :
  get_latest_block self = Returned latest ->
  exists l, chain self = l ++ [latest].
Proof.
  unfold get_latest_block. intros H.
  destruct (rev (chain self)) as [|b l] eqn:E; [discriminate|].
  injection H as ->. exists (rev l).
  rewrite <- (rev_involutive (chain self)), E. reflexivity.
Qed.

Lemma mine_block_shortfall fuel self miner w :
  PyList.len (pending_task_certificates self) < min_task_certificates_per_block self ->
  mine_block fuel self miner w
  = (Raised (ValueError ("Need at least "
               ++ PyStr.of_int (min_task_certificates_per_block self)
               ++ " task certificates to mine")),
     after_shortfall self miner, w).
Proof.
  intros H. apply Z.ltb_lt in H. unfold mine_block. simpl.
  rewrite H. reflexivity.
Qed.

Lemma mine_block_enough fuel self miner w latest :
  min_task_certificates_per_block self <= PyList.len (pending_task_certificates self) ->
  get_latest_block self = Returned latest ->
  mine_block fuel self miner w
  = match proof_of_work fuel (difficulty self)
            (candidate_block self miner latest (clock w O)) with
    | Some block => (Returned None, after_mining self block, advance 3 w)
    | None =>
        (OutOfFuel,
         set_pending_task_certificates (after_shortfall self miner)
           (PyList.slice_from (min_task_certificates_per_block self)
                              (pending_task_certificates self)),
         advance 2 w)
    end.
Proof.
  intros H Hl. apply Z.ltb_ge in H. unfold mine_block. simpl.
  rewrite H. unfold get_latest_block in *. simpl.
  destruct (rev (chain self)) as [|b l]; [discriminate|].
  injection Hl as ->.
  unfold bind, Block_init, time_time, ret. simpl.
  fold (reward_transaction self miner).
  change (set_hash _ _) with (candidate_block self miner latest (clock w O)).
  destruct (proof_of_work fuel (difficulty self) _); reflexivity.
Qed.

Lemma mine_block_no_chain fuel self miner w :
  min_task_certificates_per_block self <= PyList.len (pending_task_certificates self) ->
  chain self = [] ->
  mine_block fuel self miner w
  = (Raised (IndexError "list index out of range"),
     set_pending_task_certificates (after_shortfall self miner)
       (PyList.slice_from (min_task_certificates_per_block self)
                          (pending_task_certificates self)),
     w).
Proof.
  intros H Hl. apply Z.ltb_ge in H. unfold mine_block. simpl.
  rewrite H. unfold get_latest_block. simpl. rewrite Hl. reflexivity.
Qed.

(** The ways a call of [mine_block] can end. *)
Lemma mine_block_cases fuel self miner w r self' w' :
  mine_block fuel self miner w = (r, self', w') ->
  (PyList.len (pending_task_certificates self) < min_task_certificates_per_block self
   /\ (exists msg, r = Raised (ValueError msg))
   /\ self' = after_shortfall self miner)
  \/ (min_task_certificates_per_block self <= PyList.len (pending_task_certificates self)
      /\ chain self = [] /\ (exists msg, r = Raised (IndexError msg)))
  \/ (min_task_certificates_per_block self <= PyList.len (pending_task_certificates self)
      /\ r = OutOfFuel)
  \/ (min_task_certificates_per_block self <= PyList.len (pending_task_certificates self)
      /\ exists latest block,
           get_latest_block self = Returned latest
           /\ proof_of_work fuel (difficulty self)
                (candidate_block self miner latest (clock w O)) = Some block
           /\ r = Returned None
           /\ self' = after_mining self block).
Proof.
  intros H.
  destruct (Z.lt_ge_cases (PyList.len (pending_task_certificates self))
                          (min_task_certificates_per_block self)) as [Hlt|Hge].
  - rewrite mine_block_shortfall in H by assumption.
    injection H as <- <- <-. left. repeat split; eauto.
  - right. destruct (chain self) as [|b0 l0] eqn:Hc.
    + rewrite mine_block_no_chain in H by assumption.
      injection H as <- <- <-. left. repeat split; eauto.
    + right.
      assert (Hne : chain self <> []) by congruence.
      pose proof (get_latest_block_last self Hne) as Hl.
      rewrite (mine_block_enough _ _ _ _ _ Hge Hl) in H.
      destruct (proof_of_work fuel (difficulty self) _) as [block|] eqn:Hp.
      * injection H as <- <- <-. right. split; [assumption|].
        eexists _, block. repeat split; eauto.
      * injection H as <- <- <-. left. split; [assumption|reflexivity].
Qed.

(** A call that returned appended the block the search produced. *)
Lemma mine_block_returned fuel self miner w v self' w' :
  mine_block fuel self miner w = (Returned v, self', w') ->
  min_task_certificates_per_block self <= PyList.len (pending_task_certificates self)
  /\ exists latest block,
       get_latest_block self = Returned latest
       /\ proof_of_work fuel (difficulty self)
            (candidate_block self miner latest (clock w O)) = Some block
       /\ v = None
       /\ self' = after_mining self block.
Proof.
  intros H. apply mine_block_cases in H.
  destruct H as [(_ & (m & Hm) & _) | [(_ & _ & (m & Hm)) | [(_ & Hf) | (Hge & l & b & Hl & Hp & Hr & ->)]]];
    try discriminate.
  injection Hr as <-. split; [assumption|]. exists l, b. auto.
Qed.

Lemma ready_mined :
  exists w',
    mine_block 10 Samples.ready Samples.miner Samples.w1
    = (Returned None, Samples.mined, w').
Proof.
  assert (E : fst (fst (mine_block 10 Samples.ready Samples.miner Samples.w1))
              = Returned None) by (vm_compute; reflexivity).
  unfold Samples.mined.
  destruct (mine_block 10 Samples.ready Samples.miner Samples.w1) as [[r s] w'].
  simpl in E. subst r. exists w'. reflexivity.
Qed.

Lemma take_length n :
  forall s, (String.length (PyStr.take n s) <= String.length s)%nat.
Proof.
  induction n as [|n IH]; intros s; simpl; [lia|].
  destruct s as [|c s]; simpl; [lia|]. specialize (IH s). lia.
Qed.

Lemma replicate_length n c : String.length (PyStr.replicate n c) = n.
Proof. induction n as [|n IH]; simpl; [reflexivity|rewrite IH; reflexivity]. Qed.

(** No hash is long enough for a difficulty above its length. *)
Lemma meets_target_too_long d b :
  Z.of_nat (String.length (hash b)) < d -> meets_target d b = false.
Proof.
  intros Hd. apply String.eqb_neq. intros H.
  apply (f_equal String.length) in H.
  unfold PyStr.slice_to, PyStr.repeat in H.
  destruct (0 <=? d) eqn:E; [|apply Z.leb_gt in E; lia].
  rewrite replicate_length in H.
  pose proof (take_length (Z.to_nat d) (hash b)). lia.
Qed.

Lemma proof_of_work_above_64 fuel d :
  64 < d ->
  forall b, String.length (hash b) = 64%nat -> proof_of_work fuel d b = None.
Proof.
  intros Hd. induction fuel as [|fuel IH]; intros b Hb; simpl;
    rewrite meets_target_too_long by (rewrite Hb; lia); [reflexivity|].
  apply IH. apply sha256_hexdigest_length.
Qed.

(** With a difficulty above 64 the search never ends, whatever the fuel. *)
Lemma mine_block_above_64 fuel self miner w latest :
  64 < difficulty self ->
  min_task_certificates_per_block self <= PyList.len (pending_task_certificates self) ->
  get_latest_block self = Returned latest ->
  fst (fst (mine_block fuel self miner w)) = OutOfFuel.
Proof.
  intros Hd Hge Hl. rewrite (mine_block_enough _ _ _ _ _ Hge Hl).
  rewrite proof_of_work_above_64; [reflexivity|exact Hd|].
  apply sha256_hexdigest_length.
Qed.

(** A call of [mine_block] that ended only ever appends to the chain. *)
Lemma mine_block_extends fuel self miner w r self' w' :
  mine_block fuel self miner w = (r, self', w') ->
  r <> OutOfFuel ->
  exists suffix, chain self' = chain self ++ suffix.
Proof.
  intros H Hr. apply mine_block_cases in H.
  destruct H as [(_ & _ & ->) | [(Hge & Hc & _) | [(_ & Hf) | (_ & l & b & _ & _ & _ & ->)]]].
  - exists []. rewrite app_nil_r. reflexivity.
  - destruct self' as [c ? ? ? ? ?] eqn:E. exists c. rewrite Hc. reflexivity.
  - contradiction.
  - exists [b]. reflexivity.
Qed.

(* ------------------------------------------------------------------ *)
(** ** The validation loop *)

(** The three tests the loop makes on a block, given the block before it. *)
Definition block_ok (min_certs : Z) (previous_block current_block : Block) : bool :=
  String.eqb (hash current_block) (calculate_hash current_block)
  && String.eqb (previous_hash current_block) (hash previous_block)
  && negb (PyList.len (task_certificates current_block) <? min_certs).

Lemma validate_from_cons m i prev cur rest :
  block_ok m prev cur = true ->
  validate_from m i prev (cur :: rest) = validate_from m (i + 1) cur rest.
Proof.
  unfold block_ok. intros H.
  apply andb_prop in H. destruct H as [H H3].
  apply andb_prop in H. destruct H as [H1 H2].
  apply negb_true_iff in H3.
  simpl. rewrite H1, H2, H3. reflexivity.
Qed.

Lemma validate_from_true_cons m i prev cur rest :
  validate_from m i prev (cur :: rest) = (true, []) ->
  block_ok m prev cur = true /\ validate_from m (i + 1) cur rest = (true, []).
Proof.
  unfold block_ok. simpl.
  destruct (String.eqb (hash cur) (calculate_hash cur)); simpl; [|discriminate].
  destruct (String.eqb (previous_hash cur) (hash prev)); simpl; [|discriminate].
  destruct (PyList.len (task_certificates cur) <? m); simpl; [discriminate|].
  auto.
Qed.

Lemma last_cons_default {A} (l : list A) :
  forall x d, last (x :: l) d = last l x.
Proof.
  induction l as [|y l IH]; intros x d; [reflexivity|].
  change (last (x :: y :: l) d) with (last (y :: l) d).
  rewrite (IH y d), (IH y x). reflexivity.
Qed.

Lemma validate_from_snoc m rest :
  forall i prev b,
    validate_from m i prev rest = (true, []) ->
    block_ok m (last rest prev) b = true ->
    validate_from m i prev (rest ++ [b]) = (true, []).
Proof.
  induction rest as [|cur rest IH]; intros i prev b Hv Hb.
  - simpl in Hb. change ([] ++ [b]) with [b].
    rewrite validate_from_cons by assumption. reflexivity.
  - apply validate_from_true_cons in Hv. destruct Hv as [Hc Hv].
    change ((cur :: rest) ++ [b]) with (cur :: (rest ++ [b])).
    rewrite validate_from_cons by assumption.
    apply IH; [assumption|].
    rewrite <- (last_cons_default rest cur prev). assumption.
Qed.

(** Overwriting a block of a valid suffix by one whose stored hash is stale
    stops the loop at that block, on the hash test. *)
Lemma validate_from_tampered m rest :
  forall i prev k b',
    validate_from m i prev rest = (true, []) ->
    (k < List.length rest)%nat ->
    ~ sealed b' ->
    validate_from m i prev (replace_at k b' rest)
    = (false, [("Invalid hash at block " ++ PyStr.of_int (i + Z.of_nat k))%string]).
Proof.
  induction rest as [|cur rest IH]; intros i prev k b' Hv Hk Hb; simpl in Hk; [lia|].
  destruct k as [|k].
  - simpl. apply String.eqb_neq in Hb. rewrite Hb. simpl.
    rewrite Z.add_0_r. reflexivity.
  - apply validate_from_true_cons in Hv. destruct Hv as [Hc Hv].
    change (replace_at (S k) b' (cur :: rest)) with (cur :: replace_at k b' rest).
    rewrite validate_from_cons by assumption.
    rewrite (IH (i + 1) cur k b') by (assumption || lia).
    replace (i + 1 + Z.of_nat k) with (i + Z.of_nat (S k)) by lia. reflexivity.
Qed.

(** Whatever the rest of the chain, a stale block after the first one makes
    the verdict false. *)
Lemma validate_from_stale m rest :
  forall i prev k b',
    (k < List.length rest)%nat ->
    ~ sealed b' ->
    fst (validate_from m i prev (replace_at k b' rest)) = false.
Proof.
  induction rest as [|cur rest IH]; intros i prev k b' Hk Hb; simpl in Hk; [lia|].
  destruct k as [|k].
  - simpl. apply String.eqb_neq in Hb. rewrite Hb. reflexivity.
  - change (replace_at (S k) b' (cur :: rest)) with (cur :: replace_at k b' rest).
    simpl.
    destruct (String.eqb (hash cur) (calculate_hash cur)); simpl; [|reflexivity].
    destruct (String.eqb (previous_hash cur) (hash prev)); simpl; [|reflexivity].
    destruct (PyList.len (task_certificates cur) <? m); simpl; [reflexivity|].
    apply IH; [lia|assumption].
Qed.

(* ------------------------------------------------------------------ *)
(** ** What the public operations keep true *)

(** The facts about a chain object that the three operations preserve. *)
Record invariant (self : VirtusWorkChain) : Prop := mkInvariant
  { inv_genesis :
      exists w rest, chain self = fst (create_genesis_block w) :: rest;
    inv_min : min_task_certificates_per_block self = 5;
    inv_indexed : indexed (chain self);
    inv_linked : linked (chain self);
    inv_valid : is_chain_valid self = (true, []) }.

Lemma genesis_block_fields w :
  let g := fst (create_genesis_block w) in
  index g = 0 /\ transactions g = [] /\ task_certificates g = []
  /\ previous_hash g = "0" /\ nonce g = 0 /\ timestamp g = clock w O /\ sealed g.
Proof. repeat split. Qed.

Lemma invariant_init w : invariant (fst (VirtusWorkChain_init w)).
Proof.
  split.
  - exists w, []. reflexivity.
  - reflexivity.
  - intros [|[|i]] b H; simpl in H; try discriminate.
    injection H as <-. reflexivity.
  - intros [|i] p b H1 H2; simpl in H2; [discriminate|].
    destruct i; discriminate.
  - reflexivity.
Qed.

Lemma indexed_snoc l b :
  indexed l -> index b = PyList.len l -> indexed (l ++ [b]).
Proof.
  unfold indexed, PyList.len. intros Hl Hb i x Hx.
  destruct (Nat.lt_ge_cases i (List.length l)) as [Hi|Hi].
  - rewrite nth_error_app1 in Hx by assumption. apply Hl, Hx.
  - rewrite nth_error_app2 in Hx by assumption.
    destruct (i - List.length l)%nat as [|j] eqn:E; simpl in Hx.
    + injection Hx as <-. rewrite Hb. f_equal. lia.
    + destruct j; discriminate.
Qed.

Lemma linked_snoc l latest b :
  linked (l ++ [latest]) -> previous_hash b = hash latest ->
  linked ((l ++ [latest]) ++ [b]).
Proof.
  unfold linked. intros Hl Hb i p x Hp Hx.
  assert (Hlen : List.length (l ++ [latest]) = S (List.length l))
    by (rewrite length_app; simpl; lia).
  destruct (Nat.lt_ge_cases (S i) (List.length (l ++ [latest]))) as [Hi|Hi].
  - rewrite nth_error_app1 in Hx by assumption.
    rewrite nth_error_app1 in Hp by lia. eapply Hl; eassumption.
  - assert (Hi' : i = List.length l).
    { assert (nth_error ((l ++ [latest]) ++ [b]) (S i) <> None) by congruence.
      apply nth_error_Some in H. rewrite length_app in H. simpl in H. lia. }
    subst i.
    rewrite nth_error_app1 in Hp by lia.
    rewrite nth_error_app2 in Hp by lia.
    rewrite Nat.sub_diag in Hp. injection Hp as <-.
    rewrite nth_error_app2 in Hx by lia.
    rewrite Hlen, Nat.sub_diag in Hx. injection Hx as <-. assumption.
Qed.

Lemma invariant_after_mining self miner latest now fuel block :
  invariant self ->
  min_task_certificates_per_block self <= PyList.len (pending_task_certificates self) ->
  get_latest_block self = Returned latest ->
  proof_of_work fuel (difficulty self) (candidate_block self miner latest now) = Some block ->
  invariant (after_mining self block).
Proof.
  intros [Hg Hm Hi Hl Hv] Hge Hlatest Hpow.
  apply proof_of_work_sound in Hpow.
  destruct Hpow as (_ & Hs & Hidx & _ & _ & Hcerts & Hprev & _).
  specialize (Hs (candidate_block_sealed _ _ _ _)).
  simpl in Hidx, Hcerts, Hprev.
  destruct (get_latest_block_app _ _ Hlatest) as [l Hc].
  destruct Hg as (w & rest & Hg).
  remember (fst (create_genesis_block w)) as g eqn:Eg.
  split.
  - exists w, (rest ++ [block]). unfold after_mining. cbn [chain].
    rewrite Hg, Eg. reflexivity.
  - assumption.
  - apply indexed_snoc; assumption.
  - simpl. rewrite Hc in *. apply linked_snoc; assumption.
  - unfold is_chain_valid in *. simpl chain. simpl min_task_certificates_per_block.
    rewrite Hg in *.
    change ((g :: rest) ++ [block]) with (g :: (rest ++ [block])).
    apply validate_from_snoc; [assumption|].
    assert (Hlast : last rest g = latest).
    { rewrite <- (last_cons_default rest g g), Hc. apply last_last. }
    rewrite Hlast. unfold block_ok.
    unfold sealed in Hs. rewrite <- Hs, String.eqb_refl.
    rewrite Hprev, String.eqb_refl. simpl.
    apply negb_true_iff, Z.ltb_ge.
    rewrite Hcerts. apply slice_to_enough, Hge.
Qed.

Lemma reachable_invariant self : reachable self -> invariant self.
Proof.
  induction 1 as [w | self s r a _ IH | self c _ IH
                  | self fuel miner w r self' w' _ IH Hmine Hr].
  - apply invariant_init.
  - destruct IH. split; assumption.
  - destruct IH. split; assumption.
  - apply mine_block_cases in Hmine.
    destruct Hmine as [(_ & _ & ->) | [(_ & Hc & _) | [(_ & Hf) | (Hge & latest & block & Hl & Hp & _ & ->)]]].
    + destruct IH. split; assumption.
    + destruct IH as [(w0 & rest & Hg) _ _ _ _]. congruence.
    + contradiction.
    + eapply invariant_after_mining; eassumption.
Qed.

(* ------------------------------------------------------------------ *)
(** ** Mining: admission, consumption of certificates, the sealed block *)

Lemma attempts_shortfall fuel miner w n :
  forall self,
    PyList.len (pending_task_certificates self) < min_task_certificates_per_block self ->
    attempts n fuel self miner w
    = set_pending_transactions self
        (pending_transactions self ++ List.repeat (reward_transaction self miner) n).
Proof.
  induction n as [|n IH]; intros self H.
  - simpl. rewrite app_nil_r. destruct self; reflexivity.
  - simpl attempts. rewrite mine_block_shortfall by assumption.
    rewrite IH by exact H.
    unfold after_shortfall, set_pending_transactions, reward_transaction. simpl.
    rewrite <- app_assoc. reflexivity.
Qed.

(** C4: with fewer than [min_task_certificates_per_block] pending
    certificates, [mine_block] raises the [ValueError] that reports the
    shortfall; the chain and the pending certificates are as before, and the
    pending transactions have the reward transaction
    [{from: "network", to: miner_address, amount: mining_reward}] appended at
    the end, once per failed call. *)
Theorem mine_block_shortfall_frame fuel self miner_address w :
  PyList.len (pending_task_certificates self) < min_task_certificates_per_block self ->
  exists msg self',
    mine_block fuel self miner_address w = (Raised (ValueError msg), self', w)
    /\ chain self' = chain self
    /\ pending_task_certificates self' = pending_task_certificates self
    /\ pending_transactions self'
       = pending_transactions self
           ++ [mkTransaction "network" miner_address (mining_reward self)]
    /\ forall n,
         let self_n := attempts n fuel self miner_address w in
         chain self_n = chain self
         /\ pending_task_certificates self_n = pending_task_certificates self
         /\ pending_transactions self_n
            = pending_transactions self
                ++ List.repeat
                     (mkTransaction "network" miner_address (mining_reward self)) n.
Proof.
  intros H. eexists _, (after_shortfall self miner_address).
  split; [apply mine_block_shortfall, H|].
  repeat split; try reflexivity;
    rewrite attempts_shortfall by assumption; reflexivity.
Qed.

Lemma mine_block_shortfall_frame_witness :
  PyList.len (pending_task_certificates Samples.fresh)
  < min_task_certificates_per_block Samples.fresh
  /\ exists self',
       mine_block 0 Samples.fresh "miner1" Samples.w0
       = (Raised (ValueError "Need at least 5 task certificates to mine"),
          self', Samples.w0)
       /\ pending_transactions self' = [mkTransaction "network" "miner1" 5].
Proof.
  split; [reflexivity|].
  destruct (mine_block_shortfall_frame 0 Samples.fresh "miner1" Samples.w0)
    as (msg & self' & Hrun & _ & _ & Htx & _); [reflexivity|].
  exists self'. split; [|exact Htx].
  rewrite Hrun. rewrite mine_block_shortfall in Hrun by reflexivity.
  injection Hrun as <- _. reflexivity.
Defined.

(** C5: [mine_block] raises the shortfall error exactly when fewer than
    [min_task_certificates_per_block] certificates are pending; when it
    returns, the appended block holds exactly the first
    [min_task_certificates_per_block] pending certificates, in their order,
    and the others stay pending in their order. *)
Theorem mine_block_consumes_oldest fuel self miner_address w :
  0 <= min_task_certificates_per_block self ->
  ((exists msg self' w',
       mine_block fuel self miner_address w = (Raised (ValueError msg), self', w'))
   <-> PyList.len (pending_task_certificates self)
       < min_task_certificates_per_block self)
  /\ forall v self' w',
       mine_block fuel self miner_address w = (Returned v, self', w') ->
       exists block,
         chain self' = chain self ++ [block]
         /\ task_certificates block
            = firstn (Z.to_nat (min_task_certificates_per_block self))
                     (pending_task_certificates self)
         /\ PyList.len (task_certificates block)
            = min_task_certificates_per_block self
         /\ pending_task_certificates self'
            = skipn (Z.to_nat (min_task_certificates_per_block self))
                    (pending_task_certificates self)
         /\ pending_task_certificates self
            = task_certificates block ++ pending_task_certificates self'.
Proof.
  intros Hmin. split.
  - split.
    + intros (msg & self' & w' & H). apply mine_block_cases in H.
      destruct H as [(Hlt & _) | [(_ & _ & (m & Hm)) | [(_ & Hf) | (_ & l & b & _ & _ & Hr & _)]]];
        (assumption || discriminate).
    + intros H. eexists _, _, _. apply mine_block_shortfall, H.
  - intros v self' w' H. apply mine_block_cases in H.
    destruct H as [(_ & (m & Hm) & _) | [(_ & _ & (m & Hm)) | [(_ & Hf) | (Hge & l & b & _ & Hp & _ & ->)]]];
      try discriminate.
    apply proof_of_work_sound in Hp.
    destruct Hp as (_ & _ & _ & _ & _ & Hc & _).
    simpl in Hc. exists b. simpl.
    rewrite Hc, <- slice_to_firstn, <- slice_from_skipn by assumption.
    repeat split.
    + apply slice_to_length. unfold PyList.len in *. lia.
    + symmetry. apply slice_app.
Qed.

Lemma mine_block_consumes_oldest_witness :
  0 <= min_task_certificates_per_block Samples.ready
  /\ exists block,
       chain Samples.mined = chain Samples.ready ++ [block]
       /\ map task_id (task_certificates block)
          = ["task_0"; "task_1"; "task_2"; "task_3"; "task_4"]
       /\ map task_id (pending_task_certificates Samples.mined) = ["task_5"].
Proof.
  split; [discriminate|].
  destruct ready_mined as [w' Hrun].
  destruct (mine_block_consumes_oldest 10 Samples.ready Samples.miner Samples.w1)
    as [_ Hret]; [discriminate|].
  destruct (Hret _ _ _ Hrun) as (block & Hc & Hfirst & _ & Hrest & _).
  exists block. split; [exact Hc|].
  rewrite Hfirst, Hrest. split; reflexivity.
Defined.

Lemma calculate_hash_content b1 b2 :
  index b1 = index b2 -> timestamp b1 = timestamp b2 ->
  transactions b1 = transactions b2 ->
  task_certificates b1 = task_certificates b2 ->
  previous_hash b1 = previous_hash b2 -> nonce b1 = nonce b2 ->
  calculate_hash b1 = calculate_hash b2.
Proof.
  unfold calculate_hash, block_dict. intros -> -> -> -> -> ->. reflexivity.
Qed.

(** C6: the block a returning call of [mine_block] appended stores the hash
    of its content (a function of index, timestamp, transactions, task
    certificates, previous hash and nonce), and that hash starts with at
    least [difficulty] characters ['0']. *)
Theorem mined_block_sealed_and_hard fuel self miner_address w v self' w' :
  mine_block fuel self miner_address w = (Returned v, self', w') ->
  exists block,
    chain self' = chain self ++ [block]
    /\ hash block = calculate_hash block
    /\ (forall other,
          index other = index block -> timestamp other = timestamp block ->
          transactions other = transactions block ->
          task_certificates other = task_certificates block ->
          previous_hash other = previous_hash block ->
          nonce other = nonce block ->
          calculate_hash other = hash block)
    /\ PyStr.slice_to (difficulty self) (hash block)
       = PyStr.repeat "0" (difficulty self)
    /\ difficulty self <= Z.of_nat (PyStr.leading_zeros (hash block)).
Proof.
  intros H. apply mine_block_cases in H.
  destruct H as [(_ & (m & Hm) & _) | [(_ & _ & (m & Hm)) | [(_ & Hf) | (Hge & l & b & _ & Hp & _ & ->)]]];
    try discriminate.
  apply proof_of_work_sound in Hp.
  destruct Hp as (Hm & Hs & _).
  specialize (Hs (candidate_block_sealed _ _ _ _)).
  exists b. repeat split.
  - exact Hs.
  - intros other H1 H2 H3 H4 H5 H6. rewrite Hs.
    apply calculate_hash_content; assumption.
  - apply String.eqb_eq. exact Hm.
  - apply meets_target_leading_zeros, Hm.
Qed.

Lemma mined_block_sealed_and_hard_witness :
  exists block,
    chain Samples.mined = chain Samples.ready ++ [block]
    /\ hash block = calculate_hash block
    /\ difficulty Samples.ready <= Z.of_nat (PyStr.leading_zeros (hash block)).
Proof.
  destruct ready_mined as [w' Hrun].
  destruct (mined_block_sealed_and_hard _ _ _ _ _ _ _ Hrun)
    as (block & Hc & Hh & _ & _ & Hd).
  exists block. split; [exact Hc|]. split; [exact Hh|exact Hd].
Defined.


Lemma mine_block_returns_None fuel self miner w v self' w' :
  mine_block fuel self miner w = (Returned v, self', w') -> v = None.
Proof.
  intros H. apply mine_block_returned in H.
  destruct H as (_ & l & b & _ & _ & Hv & _). exact Hv.
Qed.

(** C3, as stated, fails: on [Samples.ready], which holds six pending
    certificates, no amount of fuel makes [mine_block] return a block; the
    call appends a block to the chain and returns [None]. *)
Lemma mine_block_does_not_return_the_block :
  min_task_certificates_per_block Samples.ready
  <= PyList.len (pending_task_certificates Samples.ready)
  /\ ~ (exists fuel block self' w',
          mine_block fuel Samples.ready Samples.miner Samples.w1
          = (Returned (Some block), self', w'))
  /\ fst (fst (mine_block 10 Samples.ready Samples.miner Samples.w1))
     = Returned None
  /\ List.length (chain Samples.mined) = S (List.length (chain Samples.ready)).
Proof.
  split; [vm_compute; discriminate|]. split.
  - intros (fuel & block & self' & w' & H).
    apply mine_block_returns_None in H. discriminate.
  - destruct ready_mined as [w' H]. split.
    + rewrite H. reflexivity.
    + apply mine_block_returned in H.
      destruct H as (_ & l & b & _ & _ & _ & ->).
      unfold after_mining. cbn [chain]. rewrite length_app. cbn [List.length]. lia.
Qed.

(** C3 (amended): on a chain object with a latest block and at least
    [min_task_certificates_per_block] pending certificates, if some nonce
    meets the difficulty target then [mine_block] ends: it appends the newly
    sealed block to the chain, empties the pending transactions and returns
    [None]; with fewer pending certificates it raises the [ValueError] of the
    shortfall. *)
Theorem mine_block_appends_and_returns_None self miner_address w latest :
  get_latest_block self = Returned latest ->
  (min_task_certificates_per_block self
   <= PyList.len (pending_task_certificates self) ->
   (exists n,
       meets_target (difficulty self)
         (Nat.iter n next_nonce
            (candidate_block self miner_address latest (clock w O))) = true) ->
   exists fuel0 block,
     sealed block
     /\ meets_target (difficulty self) block = true
     /\ previous_hash block = hash latest
     /\ forall fuel, (fuel0 <= fuel)%nat ->
          exists self',
            mine_block fuel self miner_address w
            = (Returned None, self', advance 3 w)
            /\ chain self' = chain self ++ [block]
            /\ pending_transactions self' = [])
  /\ (PyList.len (pending_task_certificates self)
      < min_task_certificates_per_block self ->
      forall fuel, exists msg self',
        mine_block fuel self miner_address w
        = (Raised (ValueError msg), self', w)).
Proof.
  intros Hlatest. split.
  - intros Hge (n & Hn).
    destruct (first_hit _ _ _ Hn) as (m & _ & Hm & Hfirst).
    set (cand := candidate_block self miner_address latest (clock w O)) in *.
    assert (Hpow : forall fuel, (m <= fuel)%nat ->
              proof_of_work fuel (difficulty self) cand = Some (Nat.iter m next_nonce cand))
      by (intros fuel Hf; apply proof_of_work_complete; assumption).
    pose proof (proof_of_work_sound _ _ _ _ (Hpow m (Nat.le_refl m)))
      as (_ & Hs & _ & _ & _ & _ & Hp & _).
    exists m, (Nat.iter m next_nonce cand). repeat split.
    + apply Hs, candidate_block_sealed.
    + exact Hm.
    + exact Hp.
    + intros fuel Hf. exists (after_mining self (Nat.iter m next_nonce cand)).
      rewrite (mine_block_enough _ _ _ _ _ Hge Hlatest).
      fold cand. rewrite (Hpow fuel Hf). repeat split.
  - intros Hlt fuel. eexists _, _. apply mine_block_shortfall, Hlt.
Qed.

Lemma mine_block_appends_and_returns_None_witness :
  get_latest_block Samples.ready = Returned Samples.genesis
  /\ exists fuel0 block,
       sealed block
       /\ meets_target (difficulty Samples.ready) block = true
       /\ previous_hash block = hash Samples.genesis
       /\ forall fuel, (fuel0 <= fuel)%nat ->
            exists self',
              mine_block fuel Samples.ready Samples.miner Samples.w1
              = (Returned None, self', advance 3 Samples.w1)
              /\ chain self' = chain Samples.ready ++ [block]
              /\ pending_transactions self' = [].
Proof.
  assert (Hl : get_latest_block Samples.ready = Returned Samples.genesis)
    by (vm_compute; reflexivity).
  split; [exact Hl|].
  apply (proj1 (mine_block_appends_and_returns_None
                  Samples.ready Samples.miner Samples.w1 Samples.genesis Hl)).
  - vm_compute. discriminate.
  - exists 5%nat. vm_compute. reflexivity.
Defined.

(* ------------------------------------------------------------------ *)
(** ** Validity and shape of the chains a program can build *)

(** C7: [is_chain_valid] returns [True], and prints nothing, on every chain
    object reached from the constructor by [add_transaction],
    [add_task_certificate] and calls of [mine_block] that ended. *)
Theorem reachable_chain_valid self :
  reachable self -> is_chain_valid self = (true, []).
Proof. intros H. apply reachable_invariant, H. Qed.

Lemma ready_reachable : reachable Samples.ready.
Proof.
  unfold Samples.ready. cbn [map fold_left].
  do 2 apply reach_add_transaction.
  repeat apply reach_add_task_certificate.
  apply reach_init.
Qed.

Lemma mined_reachable : reachable Samples.mined.
Proof.
  destruct ready_mined as [w' H].
  apply (reach_mine_block _ _ _ _ _ _ _ ready_reachable H). discriminate.
Qed.

Lemma reachable_chain_valid_witness :
  reachable Samples.mined /\ is_chain_valid Samples.mined = (true, []).
Proof.
  split; [exact mined_reachable|].
  apply reachable_chain_valid. exact mined_reachable.
Defined.

(** The states reached from the constructor are the states reached from an
    object the constructor returned. *)
Lemma reachable_from_constructor self :
  reachable self <-> exists w, reachable_from (fst (VirtusWorkChain_init w)) self.
Proof.
  split.
  - induction 1 as [w | self s r a _ IH | self c _ IH
                    | self fuel miner w r self' w' _ IH Hmine Hr].
    + exists w. apply from_start.
    + destruct IH as [w IH]. exists w. apply from_add_transaction, IH.
    + destruct IH as [w IH]. exists w. apply from_add_task_certificate, IH.
    + destruct IH as [w0 IH]. exists w0.
      exact (from_mine_block _ _ _ _ _ _ _ _ IH Hmine Hr).
  - intros [w H].
    induction H as [ | self s r a _ IH | self c _ IH
                    | self fuel miner w' r self' w'' _ IH Hmine Hr].
    + apply reach_init.
    + apply reach_add_transaction, IH.
    + apply reach_add_task_certificate, IH.
    + exact (reach_mine_block _ _ _ _ _ _ _ IH Hmine Hr).
Qed.

(** The operations only ever append to the chain: the blocks a chain object
    holds stay where they are and as they are. *)
Lemma reachable_from_extends start self :
  reachable_from start self -> exists suffix, chain self = chain start ++ suffix.
Proof.
  induction 1 as [ | self s r a _ IH | self c _ IH
                  | self fuel miner w r self' w' _ IH Hmine Hr].
  - exists []. rewrite app_nil_r. reflexivity.
  - exact IH.
  - exact IH.
  - destruct IH as [suffix IH].
    destruct (mine_block_extends _ _ _ _ _ _ _ Hmine Hr) as [more Hmore].
    exists (suffix ++ more). rewrite Hmore, IH, app_assoc. reflexivity.
Qed.

Lemma fresh_ready : reachable_from Samples.fresh Samples.ready.
Proof.
  unfold Samples.ready. cbn [map fold_left].
  do 2 apply from_add_transaction.
  repeat apply from_add_task_certificate.
  apply from_start.
Qed.

Lemma fresh_mined : reachable_from Samples.fresh Samples.mined.
Proof.
  destruct ready_mined as [w' H].
  apply (from_mine_block _ _ _ _ _ _ _ _ fresh_ready H). discriminate.
Qed.

(** C10: let a call of the constructor, reading the clock of [w], return a
    chain object, and let [self] be reached from that object by the three
    operations.  Then the chain of [self] is not empty, the block at
    position [i] has index [i], the first block is the very genesis block
    that call of the constructor made and sealed (index 0, no transaction,
    no certificate, previous hash ["0"], nonce 0, the time the constructor
    read), and every later block names the stored hash of the block before
    it.  Whatever is done to [self] afterwards only appends: its blocks,
    block 0 among them, stay in place unchanged, so the hash a block names
    is the one its predecessor had when the block was appended. *)
Theorem reachable_chain_well_formed w self :
  reachable_from (fst (VirtusWorkChain_init w)) self ->
  chain (fst (VirtusWorkChain_init w)) = [fst (create_genesis_block w)]
  /\ chain self <> []
  /\ indexed (chain self)
  /\ (exists rest, chain self = fst (create_genesis_block w) :: rest)
  /\ nth_error (chain self) O = nth_error (chain (fst (VirtusWorkChain_init w))) O
  /\ (index (fst (create_genesis_block w)) = 0
      /\ timestamp (fst (create_genesis_block w)) = clock w O
      /\ transactions (fst (create_genesis_block w)) = []
      /\ task_certificates (fst (create_genesis_block w)) = []
      /\ previous_hash (fst (create_genesis_block w)) = "0"
      /\ nonce (fst (create_genesis_block w)) = 0
      /\ sealed (fst (create_genesis_block w)))
  /\ linked (chain self)
  /\ (forall later,
         reachable_from self later ->
         exists suffix,
           chain later = chain self ++ suffix
           /\ forall i b, nth_error (chain self) i = Some b ->
                          nth_error (chain later) i = Some b).
Proof.
  intros H.
  assert (Hr : reachable self)
    by (apply reachable_from_constructor; exists w; exact H).
  apply reachable_invariant in Hr. destruct Hr as [_ _ Hi Hl _].
  destruct (reachable_from_extends _ _ H) as [rest Hrest].
  change (chain (fst (VirtusWorkChain_init w)))
    with [fst (create_genesis_block w)] in *.
  change ([fst (create_genesis_block w)] ++ rest)
    with (fst (create_genesis_block w) :: rest) in Hrest.
  split; [reflexivity|].
  split; [rewrite Hrest; discriminate|].
  split; [exact Hi|].
  split; [exists rest; exact Hrest|].
  split; [rewrite Hrest; reflexivity|].
  split; [repeat split|].
  split; [exact Hl|].
  intros later Hlater.
  destruct (reachable_from_extends _ _ Hlater) as [suffix Hsuffix].
  exists suffix. split; [exact Hsuffix|].
  intros i b Hb. rewrite Hsuffix.
  rewrite nth_error_app1; [exact Hb|].
  apply nth_error_Some. congruence.
Qed.

Lemma reachable_chain_well_formed_witness :
  reachable_from (fst (VirtusWorkChain_init Samples.w0)) Samples.mined
  /\ chain Samples.mined <> []
  /\ indexed (chain Samples.mined)
  /\ (exists rest, chain Samples.mined = Samples.genesis :: rest)
  /\ linked (chain Samples.mined).
Proof.
  split; [exact fresh_mined|].
  destruct (reachable_chain_well_formed Samples.w0 Samples.mined fresh_mined)
    as (_ & Hne & Hi & Hg & _ & _ & Hl & _).
  split; [exact Hne|]. split; [exact Hi|]. split; [exact Hg|exact Hl].
Defined.

(* ------------------------------------------------------------------ *)
(** ** Tampering with a sealed block *)

Lemma validate_from_true_sealed m rest :
  forall i prev k b,
    validate_from m i prev rest = (true, []) ->
    nth_error rest k = Some b -> sealed b.
Proof.
  induction rest as [|cur rest IH]; intros i prev k b Hv Hk.
  - destruct k; discriminate.
  - apply validate_from_true_cons in Hv. destruct Hv as [Hc Hv].
    destruct k as [|k]; simpl in Hk.
    + injection Hk as <-. unfold block_ok in Hc.
      apply andb_prop in Hc. destruct Hc as [Hc _].
      apply andb_prop in Hc. destruct Hc as [Hc _].
      apply String.eqb_eq, Hc.
    + eapply IH; eassumption.
Qed.

(** C1, as stated, fails on the genesis block: writing a transaction into
    the genesis block of a fresh chain, its stored hash left stale, leaves
    [is_chain_valid] returning [True]. *)
Lemma forged_genesis_passes :
  nth_error (chain Samples.fresh) 0 = Some Samples.genesis
  /\ hash Samples.forged_genesis = hash Samples.genesis
  /\ transactions Samples.forged_genesis <> transactions Samples.genesis
  /\ calculate_hash Samples.forged_genesis <> hash Samples.forged_genesis
  /\ is_chain_valid (tamper Samples.fresh 0 Samples.forged_genesis) = (true, []).
Proof.
  split; [vm_compute; reflexivity|]. split; [vm_compute; reflexivity|].
  split; [vm_compute; discriminate|].
  split; [|vm_compute; reflexivity].
  apply String.eqb_neq. vm_compute. reflexivity.
Qed.

(** Whatever the rest of the chain, a block after the first whose stored hash
    is not the hash of its content makes the verdict [False]. *)
Lemma stale_block_rejected self i b' :
  (1 <= i < List.length (chain self))%nat ->
  ~ sealed b' ->
  fst (is_chain_valid (tamper self i b')) = false.
Proof.
  intros [Hi Hlen] Hb. unfold is_chain_valid, tamper.
  cbn [chain min_task_certificates_per_block set_chain].
  destruct (chain self) as [|first rest]; [simpl in Hlen; lia|].
  destruct i as [|k]; [lia|].
  change (replace_at (S k) b' (first :: rest)) with (first :: replace_at k b' rest).
  cbv iota. apply validate_from_stale; [simpl in Hlen; lia|exact Hb].
Qed.

(** C1 (amended): on a chain that [is_chain_valid] accepts, changing the
    content of the block at an index [i >= 1] so that its content hash
    changes, its stored hash left as it was, makes [is_chain_valid] return
    [False] and print the diagnostic of an invalid hash at index [i]. *)
Theorem tampered_block_detected self i b b' :
  (1 <= i)%nat ->
  nth_error (chain self) i = Some b ->
  hash b' = hash b ->
  calculate_hash b' <> calculate_hash b ->
  is_chain_valid self = (true, []) ->
  is_chain_valid (tamper self i b')
  = (false, [("Invalid hash at block " ++ PyStr.of_int (Z.of_nat i))%string]).
Proof.
  intros Hi Hb Hh Hc Hv.
  unfold is_chain_valid, tamper in *. cbn [chain min_task_certificates_per_block set_chain].
  destruct (chain self) as [|first rest]; [destruct i; discriminate|].
  destruct i as [|k]; [lia|]. cbn [nth_error] in Hb.
  assert (Hk : (k < List.length rest)%nat)
    by (apply nth_error_Some; congruence).
  assert (Hstale : ~ sealed b').
  { pose proof (validate_from_true_sealed _ _ _ _ _ _ Hv Hb) as Hs.
    unfold sealed in *. congruence. }
  change (replace_at (S k) b' (first :: rest)) with (first :: replace_at k b' rest).
  cbv iota.
  rewrite (validate_from_tampered _ _ 1 first k b' Hv Hk Hstale).
  replace (1 + Z.of_nat k) with (Z.of_nat (S k)) by lia.
  reflexivity.
Qed.

Lemma mined_valid : is_chain_valid Samples.mined = (true, []).
Proof. vm_compute. reflexivity. Qed.

Lemma tampered_block_detected_witness :
  (1 <= 1)%nat
  /\ nth_error (chain Samples.mined) 1 = Some Samples.block1
  /\ hash Samples.forged_block1 = hash Samples.block1
  /\ calculate_hash Samples.forged_block1 <> calculate_hash Samples.block1
  /\ is_chain_valid Samples.mined = (true, [])
  /\ is_chain_valid (tamper Samples.mined 1 Samples.forged_block1)
     = (false, ["Invalid hash at block 1"]).
Proof.
  assert (H1 : nth_error (chain Samples.mined) 1 = Some Samples.block1)
    by (vm_compute; reflexivity).
  assert (H2 : hash Samples.forged_block1 = hash Samples.block1)
    by (vm_compute; reflexivity).
  assert (H3 : calculate_hash Samples.forged_block1 <> calculate_hash Samples.block1)
    by (apply String.eqb_neq; vm_compute; reflexivity).
  split; [apply Nat.le_refl|]. split; [exact H1|]. split; [exact H2|].
  split; [exact H3|]. split; [exact mined_valid|].
  exact (tampered_block_detected Samples.mined 1 Samples.block1
           Samples.forged_block1 (Nat.le_refl 1) H1 H2 H3 mined_valid).
Defined.

(* ------------------------------------------------------------------ *)
(** ** The certificate issuers *)

Lemma generate_task_certificate_reads_twice task_id user_address task_data w :
  luck w O = true ->
  fst (generate_task_certificate task_id user_address task_data w)
  = Some (mkCertificate task_id user_address (clock w 0)
            (Hashlib.sha256_hexdigest
               (PyStr.encode (task_id ++ user_address ++ float_repr (clock w 1))))).
Proof.
  intros H. unfold generate_task_certificate, validate_task, bind, random_verdict.
  rewrite H. reflexivity.
Qed.

(** The issuer of [utils.py], were [time] bound there, signs the timestamp it
    stores. *)
Lemma generate_certificate_body_consistent task_id user_address w :
  let c := fst (Utils.generate_certificate_body task_id user_address w) in
  cert_timestamp c = clock w 0
  /\ signature c
     = Hashlib.sha256_hexdigest
         (PyStr.encode (task_id ++ user_address ++ float_repr (cert_timestamp c))).
Proof. split; reflexivity. Qed.

(** As the module stands, [generate_certificate] raises [NameError]. *)
Lemma generate_certificate_raises task_id user_address w :
  Utils.generate_certificate task_id user_address w
  = (Raised (NameError "name 'time' is not defined"), w).
Proof. reflexivity. Qed.

(** C2, on the code: with a clock that moves between two readings,
    [generate_task_certificate] stores the first reading as the timestamp and
    signs the second, so the signature is not the hash of
    [task_id ++ user_address ++ timestamp]. *)
Theorem generate_task_certificate_signs_another_reading :
  exists c,
    fst (generate_task_certificate "task_0" "Alice" "Data for task_0"
           Samples.w_tick) = Some c
    /\ cert_timestamp c = PyFloat "1700000000.1"
    /\ signature c
       = Hashlib.sha256_hexdigest (PyStr.encode "task_0Alice1700000000.2")
    /\ signature c
       <> Hashlib.sha256_hexdigest
            (PyStr.encode (task_id c ++ user_address c
                           ++ float_repr (cert_timestamp c))).
Proof.
  eexists. split.
  - apply generate_task_certificate_reads_twice. reflexivity.
  - split; [vm_compute; reflexivity|]. split; [vm_compute; reflexivity|].
    apply String.eqb_neq. vm_compute. reflexivity.
Qed.

(* ------------------------------------------------------------------ *)
(** ** The stake ledger *)

Import Consensus.

(** Stake accumulated from the first entry through the entry at position
    [k], in iteration order. *)
Fixpoint cumulative (items : ledger) (k : nat) : Z :=
  match items with
  | [] => 0
  | (_, stake) :: rest =>
      match k with
      | O => stake
      | S k' => stake + cumulative rest k'
      end
  end.

(** The draw [selection] is met at position [k]. *)
Definition met (items : ledger) (current : Z) (selection : Q) (k : nat) : Prop :=
  (selection <= inject_Z (current + cumulative items k))%Q.

Lemma walk_spec items :
  forall current selection,
    match walk items current selection with
    | Some pk =>
        exists k,
          nth_error (keys items) k = Some pk
          /\ met items current selection k
          /\ forall j, (j < k)%nat -> ~ met items current selection j
    | None =>
        forall j, (j < List.length items)%nat -> ~ met items current selection j
    end.
Proof.
  induction items as [|[pk stake] rest IH]; intros current selection.
  - simpl. intros j Hj. lia.
  - simpl walk.
    destruct (Qle_bool selection (inject_Z (current + stake))) eqn:E.
    + exists O. split; [reflexivity|]. split.
      * unfold met. simpl. apply Qle_bool_iff, E.
      * intros j Hj. lia.
    + assert (H0 : ~ met ((pk, stake) :: rest) current selection 0).
      { unfold met. simpl. intros H. apply Qle_bool_iff in H. congruence. }
      specialize (IH (current + stake) selection).
      destruct (walk rest (current + stake) selection) as [pk'|].
      * destruct IH as (k & Hk & Hm & Hfirst). exists (S k).
        split; [exact Hk|]. split.
        -- unfold met in *. simpl. rewrite Z.add_assoc. exact Hm.
        -- intros [|j] Hj; [exact H0|].
           unfold met in *. simpl. rewrite Z.add_assoc. apply Hfirst. lia.
      * intros [|j] Hj; [exact H0|].
        unfold met in *. simpl. rewrite Z.add_assoc. apply IH. simpl in Hj. lia.
Qed.

Lemma last_In {A} (l : list A) d : l <> [] -> In (last l d) l.
Proof.
  induction l as [|x l IH]; intros H; [congruence|].
  destruct l as [|y l]; [left; reflexivity|].
  right. apply IH. discriminate.
Qed.

Lemma fold_left_add_from (l : list Z) :
  forall a, fold_left Z.add l a = a + fold_left Z.add l 0.
Proof.
  induction l as [|x l IH]; intros a; simpl; [lia|].
  rewrite (IH (a + x)), (IH x). lia.
Qed.

(** A draw that does not exceed the total stake is met before the walk runs
    out of entries. *)
Lemma walk_within_total items :
  forall current selection,
    items <> [] ->
    (selection <= inject_Z (current + fold_left Z.add (values items) 0%Z))%Q ->
    walk items current selection <> None.
Proof.
  induction items as [|[pk stake] rest IH]; intros current selection Hne Hle;
    [congruence|].
  simpl walk.
  destruct (Qle_bool selection (inject_Z (current + stake))) eqn:E; [discriminate|].
  destruct rest as [|entry rest'].
  - simpl in Hle. apply Qle_bool_iff in Hle. congruence.
  - apply IH; [discriminate|].
    replace (current + stake + fold_left Z.add (values (entry :: rest')) 0)
      with (current + fold_left Z.add (values ((pk, stake) :: entry :: rest')) 0);
      [exact Hle|].
    unfold values. cbn [map fold_left snd].
    rewrite (fold_left_add_from _ (0 + stake + snd entry)),
            (fold_left_add_from _ (0 + snd entry)).
    lia.
Qed.

(** C8: [select_validator] raises the "No stakers available" error exactly
    when the ledger is empty; on a ledger with entries, whatever the draw, it
    returns a key of the ledger: the first one, in iteration order, at which
    the accumulated stake is at least the draw, and the last key when there
    is none, which does not happen for a draw up to the total stake. *)
Theorem select_validator_first_cumulative self selection :
  ((exists e, select_validator self selection = Raised e) <-> stakers self = [])
  /\ (stakers self = [] ->
      select_validator self selection = Raised (ValueError "No stakers available"))
  /\ (stakers self <> [] ->
      exists pk,
        select_validator self selection = Returned pk
        /\ In pk (keys (stakers self))
        /\ ((exists k,
                nth_error (keys (stakers self)) k = Some pk
                /\ met (stakers self) 0 selection k
                /\ forall j, (j < k)%nat -> ~ met (stakers self) 0 selection j)
            \/ ((forall j, (j < List.length (stakers self))%nat ->
                           ~ met (stakers self) 0 selection j)
                /\ ~ (selection <= inject_Z (total_stake self))%Q
                /\ pk = last (keys (stakers self)) EmptyString))).
Proof.
  unfold select_validator, total_stake.
  pose proof (walk_spec (stakers self) 0 selection) as Hw.
  pose proof (walk_within_total (stakers self) 0 selection) as Ht.
  destruct (stakers self) as [|entry rest] eqn:Hs.
  - split; [split; [reflexivity|intros _; eexists; reflexivity]|].
    split; [reflexivity|congruence].
  - split.
    { split; [|discriminate].
      intros [e He]. destruct (walk (entry :: rest) 0 selection); discriminate. }
    split; [discriminate|]. intros _.
    destruct (walk (entry :: rest) 0 selection) as [pk|].
    + destruct Hw as (k & Hk & Hm & Hfirst). exists pk.
      split; [reflexivity|]. split.
      * eapply nth_error_In, Hk.
      * left. exists k. auto.
    + eexists. split; [reflexivity|]. split.
      * apply last_In. discriminate.
      * right. split; [exact Hw|]. split; [|reflexivity].
        intros Hle. apply Ht; [discriminate|exact Hle|reflexivity].
Qed.

Example select_validator_two_stakers :
  select_validator Samples.two_stakers 0 = Returned "A"
  /\ select_validator Samples.two_stakers (181 # 2) = Returned "B"
  /\ select_validator Samples.two_stakers 90 = Returned "A"
  /\ select_validator Samples.two_stakers 101 = Returned "B"
  /\ select_validator ProofOfStake_init 0 = Raised (ValueError "No stakers available").
Proof. repeat split. Qed.

Lemma lookup_None_iff k d : lookup k d = None <-> ~ In k (keys d).
Proof.
  induction d as [|[k' v] d IH]; simpl.
  - tauto.
  - destruct (String.eqb_spec k k') as [->|Hne].
    + split; [discriminate|]. intros H. exfalso. apply H. left. reflexivity.
    + rewrite IH. split; [intros H [Hk|Hk]; [congruence|tauto]|tauto].
Qed.

Lemma lookup_store_same k v d : lookup k (store k v d) = Some v.
Proof.
  induction d as [|[k' v'] d IH]; simpl.
  - rewrite String.eqb_refl. reflexivity.
  - destruct (String.eqb k k') eqn:E; simpl; rewrite E; [reflexivity|exact IH].
Qed.

Lemma lookup_store_other k k' v d :
  k' <> k -> lookup k' (store k v d) = lookup k' d.
Proof.
  intros Hne. induction d as [|[k0 v0] d IH]; simpl.
  - apply String.eqb_neq in Hne. rewrite Hne. reflexivity.
  - destruct (String.eqb_spec k k0) as [->|Hk]; simpl.
    + apply String.eqb_neq in Hne. rewrite Hne. reflexivity.
    + rewrite IH. reflexivity.
Qed.

Lemma keys_store_present k v d :
  In k (keys d) -> keys (store k v d) = keys d.
Proof.
  induction d as [|[k0 v0] d IH]; simpl; [tauto|].
  intros H. destruct (String.eqb_spec k k0) as [->|Hk]; simpl; [reflexivity|].
  f_equal. apply IH. destruct H; [congruence|assumption].
Qed.

Lemma lookup_delete_other k k' d :
  k' <> k -> lookup k' (delete k d) = lookup k' d.
Proof.
  intros Hne. induction d as [|[k0 v0] d IH]; simpl; [reflexivity|].
  destruct (String.eqb_spec k k0) as [->|Hk]; simpl.
  - apply String.eqb_neq in Hne. rewrite Hne. reflexivity.
  - rewrite IH. reflexivity.
Qed.

Lemma keys_delete_subset k d x : In x (keys (delete k d)) -> In x (keys d).
Proof.
  induction d as [|[k0 v0] d IH]; simpl; [tauto|].
  destruct (String.eqb k k0); simpl; tauto.
Qed.

Lemma delete_removes k d :
  well_formed d -> ~ In k (keys (delete k d)).
Proof.
  unfold well_formed.
  induction d as [|[k0 v0] d IH]; simpl; intros Hwf; [tauto|].
  inversion Hwf as [|? ? Hnotin Hnd]; subst.
  destruct (String.eqb_spec k k0) as [->|Hk]; simpl.
  - exact Hnotin.
  - intros [H|H]; [congruence|]. exact (IH Hnd H).
Qed.

Lemma delete_well_formed k d : well_formed d -> well_formed (delete k d).
Proof.
  unfold well_formed.
  induction d as [|[k0 v0] d IH]; simpl; intros Hwf; [constructor|].
  inversion Hwf as [|? ? Hnotin Hnd]; subst.
  destruct (String.eqb k k0); simpl; [exact Hnd|].
  constructor; [|exact (IH Hnd)].
  intros H. apply Hnotin. eapply keys_delete_subset, H.
Qed.

(* ------------------------------------------------------------------ *)
(** ** Rounding to the nearest double *)

Import Float64.

(** The nearest integer is within a half of the quotient. *)
Lemma round_half_even_spec n d :
  0 <= n -> 0 < d ->
  2 * Z.abs (round_half_even n d * d - n) <= d /\ n / d <= round_half_even n d <= n / d + 1.
Proof.
  intros Hn Hd. unfold round_half_even.
  pose proof (Z.div_mod n d ltac:(lia)) as E.
  pose proof (Z.mod_pos_bound n d Hd) as B.
  destruct (Z.compare_spec (2 * (n mod d)) d) as [H|H|H];
    [destruct (Z.even (n / d))| |]; nia.
Qed.

Lemma ilog2_spec n d :
  0 < n -> 0 < d ->
  let k := ilog2 n d in
  (0 <= k /\ 2 ^ k * d <= n < 2 ^ (k + 1) * d)
  \/ (k < 0 /\ d <= n * 2 ^ (- k) /\ n * 2 ^ (- k - 1) < d).
Proof.
  intros Hn Hd. unfold ilog2.
  destruct (Z.leb_spec d n) as [H|H].
  - left.
    assert (Hq : 0 < n / d) by (apply Z.div_str_pos; lia).
    pose proof (Z.log2_spec (n / d) Hq) as [L U].
    pose proof (Z.log2_nonneg (n / d)) as Hk.
    pose proof (Z.div_mod n d ltac:(lia)) as E.
    pose proof (Z.mod_pos_bound n d Hd) as B.
    rewrite <- Z.add_1_r in U.
    split; [exact Hk|]. split; nia.
  - right.
    set (c := (d + n - 1) / n).
    pose proof (Z.div_mod (d + n - 1) n ltac:(lia)) as E.
    pose proof (Z.mod_pos_bound (d + n - 1) n Hn) as B.
    fold c in E.
    assert (Hc : 1 < c) by nia.
    pose proof (Z.log2_up_spec c Hc) as [L U].
    assert (Hj : 0 < Z.log2_up c) by (apply Z.log2_up_pos; lia).
    replace (- - Z.log2_up c) with (Z.log2_up c) by lia.
    replace (Z.log2_up c - 1) with (Z.pred (Z.log2_up c)) by lia.
    split; [lia|]. split; nia.
Qed.

(** Powers of two among the rationals. *)
Lemma pow2_pos e : (0 < 2 ^ e)%Q.
Proof. apply Qpower_0_lt. reflexivity. Qed.

Lemma pow2_add a b : (2 ^ (a + b) == 2 ^ a * 2 ^ b)%Q.
Proof. apply Qpower_plus. discriminate. Qed.

Lemma pow2_inject e : 0 <= e -> (inject_Z (2 ^ e) == 2 ^ e)%Q.
Proof. intros H. rewrite Zpower_Qpower by exact H. reflexivity. Qed.

Lemma pow2_opp e : (2 ^ e * 2 ^ (- e) == 1)%Q.
Proof. rewrite <- pow2_add, Z.add_opp_diag_r. reflexivity. Qed.

Lemma pow2_mono a b : a <= b -> (2 ^ a <= 2 ^ b)%Q.
Proof. intros H. apply Qpower_le_compat_l; [exact H|discriminate]. Qed.

Lemma dyadic_value m e : (dyadic m e == inject_Z m * 2 ^ e)%Q.
Proof.
  unfold dyadic. destruct (Z.leb_spec 0 e) as [H|H].
  - rewrite inject_Z_mult, pow2_inject by exact H. reflexivity.
  - rewrite Qred_correct, Qmake_Qdiv.
    assert (Hp : 0 < 2 ^ (- e)) by (apply Z.pow_pos_nonneg; lia).
    rewrite Z2Pos.id by exact Hp.
    rewrite pow2_inject by lia.
    pose proof (pow2_opp e) as Ho. pose proof (pow2_pos (- e)) as Hpos.
    field_simplify_eq; [|lra].
    rewrite <- Qmult_assoc, (Qmult_comm (2 ^ (- e))), Ho, Qmult_1_r. reflexivity.
Qed.

(** The scaled quotient whose nearest integer is the significand. *)
Lemma scaled_quotient n d e :
  0 < n -> 0 < d ->
  (inject_Z (n * 2 ^ Z.max 0 (- e)) / inject_Z (d * 2 ^ Z.max 0 e)
   == inject_Z n / inject_Z d * 2 ^ (- e))%Q.
Proof.
  intros Hn Hd.
  assert (Hd' : (0 < inject_Z d)%Q) by (rewrite <- (Zlt_Qlt 0); exact Hd).
  rewrite !inject_Z_mult.
  pose proof (pow2_opp e) as Ho.
  pose proof (pow2_pos e) as Hu. pose proof (pow2_pos (- e)) as Hv.
  destruct (Z.le_ge_cases 0 e) as [H|H].
  - rewrite (Z.max_l 0 (- e)), (Z.max_r 0 e) by lia.
    rewrite !pow2_inject by lia. change (2 ^ 0)%Q with 1%Q.
    field_simplify_eq; [|split; lra].
    rewrite <- (Qmult_1_r (inject_Z n)) at 1. rewrite <- Ho. ring.
  - rewrite (Z.max_r 0 (- e)), (Z.max_l 0 e) by lia.
    rewrite !pow2_inject by lia. change (2 ^ 0)%Q with 1%Q.
    field. lra.
Qed.

Lemma round_half_even_near n d :
  0 <= n -> 0 < d ->
  (- (1 # 2) <= inject_Z (round_half_even n d) - inject_Z n / inject_Z d <= 1 # 2)%Q.
Proof.
  intros Hn Hd.
  destruct (round_half_even_spec n d Hn Hd) as [H _].
  set (m := round_half_even n d) in *.
  assert (Hd' : (0 < inject_Z d)%Q) by (rewrite <- (Zlt_Qlt 0); exact Hd).
  assert (H1 : 2 * (m * d - n) <= d) by lia.
  assert (H2 : - d <= 2 * (m * d - n)) by lia.
  rewrite Zle_Qle in H1, H2. unfold Z.sub in H1, H2.
  repeat first [rewrite inject_Z_mult in H1 | rewrite inject_Z_plus in H1
               | rewrite inject_Z_opp in H1].
  repeat first [rewrite inject_Z_mult in H2 | rewrite inject_Z_plus in H2
               | rewrite inject_Z_opp in H2].
  change (inject_Z 2) with 2%Q in *.
  assert (Et : exists t, t = (inject_Z n / inject_Z d)%Q
                         /\ (inject_Z n == t * inject_Z d)%Q).
  { eexists. split; [reflexivity|]. field. lra. }
  destruct Et as (t & <- & Et).
  split; apply (Qmult_le_r _ _ (inject_Z d) Hd'); lra.
Qed.


Lemma ilog2_bounds n d :
  0 < n -> 0 < d ->
  (2 ^ ilog2 n d <= inject_Z n / inject_Z d
   /\ inject_Z n / inject_Z d < 2 ^ (ilog2 n d + 1))%Q.
Proof.
  intros Hn Hd.
  assert (Hd' : (0 < inject_Z d)%Q) by (rewrite <- (Zlt_Qlt 0); exact Hd).
  destruct (ilog2_spec n d Hn Hd) as [(Hk & L & U)|(Hk & L & U)];
    set (k := ilog2 n d) in *.
  - rewrite Zle_Qle in L. rewrite Zlt_Qlt in U.
    rewrite inject_Z_mult, pow2_inject in L, U by lia.
    split.
    + apply (Qmult_le_r _ _ (inject_Z d) Hd').
      setoid_replace (inject_Z n / inject_Z d * inject_Z d)%Q with (inject_Z n)
        by (field; lra).
      exact L.
    + apply (Qmult_lt_r _ _ (inject_Z d) Hd').
      setoid_replace (inject_Z n / inject_Z d * inject_Z d)%Q with (inject_Z n)
        by (field; lra).
      exact U.
  - rewrite Zle_Qle in L. rewrite Zlt_Qlt in U.
    rewrite inject_Z_mult, pow2_inject in L, U by lia.
    pose proof (pow2_opp k) as Ho.
    pose proof (pow2_pos k) as Hu. pose proof (pow2_pos (- k)) as Hv.
    pose proof (pow2_pos (k + 1)) as Hu1. pose proof (pow2_pos (- k - 1)) as Hv1.
    assert (Ho1 : (2 ^ (k + 1) * 2 ^ (- k - 1) == 1)%Q).
    { rewrite <- pow2_add. replace (k + 1 + (- k - 1)) with 0 by lia. reflexivity. }
    split.
    + apply (Qmult_le_r _ _ (inject_Z d) Hd').
      setoid_replace (inject_Z n / inject_Z d * inject_Z d)%Q with (inject_Z n)
        by (field; lra).
      apply (Qmult_le_r _ _ (2 ^ (- k))%Q Hv).
      setoid_replace (2 ^ k * inject_Z d * 2 ^ (- k))%Q
        with (inject_Z d * (2 ^ k * 2 ^ (- k)))%Q by ring.
      rewrite Ho, Qmult_1_r. exact L.
    + apply (Qmult_lt_r _ _ (inject_Z d) Hd').
      setoid_replace (inject_Z n / inject_Z d * inject_Z d)%Q with (inject_Z n)
        by (field; lra).
      apply (Qmult_lt_r _ _ (2 ^ (- k - 1))%Q Hv1).
      setoid_replace (2 ^ (k + 1) * inject_Z d * 2 ^ (- k - 1))%Q
        with (inject_Z d * (2 ^ (k + 1) * 2 ^ (- k - 1)))%Q by ring.
      rewrite Ho1, Qmult_1_r. exact U.
Qed.

(** The exponents of the powers of two around a positive number are in
    order. *)
Lemma pow2_lt_inv a b : (2 ^ a < 2 ^ b)%Q -> a < b.
Proof.
  intros H. destruct (Z.lt_ge_cases a b) as [L|L]; [exact L|].
  exfalso. apply (Qlt_not_le _ _ H). apply pow2_mono, L.
Qed.

Lemma round_half_even_tie n d :
  0 <= n -> 0 < d ->
  2 * Z.abs (round_half_even n d * d - n) = d ->
  Z.even (round_half_even n d) = true.
Proof.
  intros Hn Hd. unfold round_half_even.
  pose proof (Z.div_mod n d ltac:(lia)) as E.
  pose proof (Z.mod_pos_bound n d Hd) as B.
  destruct (Z.compare_spec (2 * (n mod d)) d) as [H|H|H].
  - destruct (Z.even (n / d)) eqn:Ev; [intros _; exact Ev|].
    intros _. rewrite Z.add_1_r, Z.even_succ, <- Z.negb_even, Ev. reflexivity.
  - intros T. exfalso. nia.
  - intros T. exfalso. nia.
Qed.

Lemma pow2_le_inv a b : (2 ^ a <= 2 ^ b)%Q -> a <= b.
Proof.
  intros H. destruct (Z.le_gt_cases a b) as [L|L]; [exact L|].
  exfalso. apply (Qle_not_lt _ _ H).
  apply Qpower_lt_compat_l; [lia|reflexivity].
Qed.

(** An integer within a half of an integer is that integer. *)
Lemma near_integer m M :
  (- (1 # 2) <= inject_Z m - inject_Z M <= 1 # 2)%Q -> m = M.
Proof.
  intros [L U].
  assert (H1 : (inject_Z m < inject_Z (M + 1))%Q)
    by (rewrite inject_Z_plus; change (inject_Z 1) with 1%Q; lra).
  assert (H2 : (inject_Z M < inject_Z (m + 1))%Q)
    by (rewrite inject_Z_plus; change (inject_Z 1) with 1%Q; lra).
  rewrite <- Zlt_Qlt in H1, H2. lia.
Qed.

(** A tie between two integers, read on the quotient. *)
Lemma tie_integer m n d :
  0 < d ->
  (Qabs (inject_Z m - inject_Z n / inject_Z d) == 1 # 2)%Q ->
  2 * Z.abs (m * d - n) = d.
Proof.
  intros Hd H.
  assert (Hd' : (0 < inject_Z d)%Q) by (rewrite <- (Zlt_Qlt 0); exact Hd).
  assert (E : (inject_Z (m * d - n)
               == (inject_Z m - inject_Z n / inject_Z d) * inject_Z d)%Q).
  { unfold Z.sub. rewrite inject_Z_plus, inject_Z_mult, inject_Z_opp. field. lra. }
  apply inject_Z_injective.
  rewrite inject_Z_mult.
  change (inject_Z (Z.abs (m * d - n))) with (Qabs (inject_Z (m * d - n))).
  rewrite E, Qabs_Qmult, H, (Qabs_pos (inject_Z d)) by lra.
  change (inject_Z 2) with 2%Q. field.
Qed.

(** Rounding in the normal range, below [2 ^ 1023]: the result is finite,
    its significand [m] has 53 bits (or is [2 ^ 53], after a carry), its
    exponent [e] is the one of the number, [m] is within a half of the
    number counted in units of [2 ^ e], and [m] is even in a tie. *)
Lemma round64_nearest s q :
  (2 ^ (-1022) <= q)%Q -> (q < 2 ^ 1023)%Q ->
  exists m e,
    round64 s q = Finite s (dyadic m e)
    /\ 2 ^ 52 <= m <= 2 ^ 53
    /\ (2 ^ (e + 52) <= q /\ q < 2 ^ (e + 53))%Q
    /\ (- (1 # 2) <= inject_Z m - q * 2 ^ (- e) <= 1 # 2)%Q
    /\ ((Qabs (inject_Z m - q * 2 ^ (- e)) == 1 # 2)%Q -> Z.even m = true).
Proof.
  intros Hlow Hhigh.
  pose proof (pow2_pos (-1022)) as Hpos.
  destruct q as [qn qd]. unfold round64. cbn [Qnum Qden].
  destruct qn as [|n|n];
    [exfalso; apply (Qlt_not_le _ _ Hpos); exact Hlow| |
     exfalso; apply (Qlt_not_le _ _ Hpos);
     apply (Qle_trans _ _ _ Hlow); discriminate].
  destruct (ilog2_bounds (Zpos n) (Zpos qd) eq_refl eq_refl) as [Lk Uk].
  rewrite <- Qmake_Qdiv in Lk, Uk.
  set (q := Zpos n # qd) in *.
  unfold ulp_exponent, prec, emin, emax.
  set (k := ilog2 (Zpos n) (Zpos qd)) in *.
  assert (Hk1 : -1022 < k + 1)
    by (apply pow2_lt_inv; apply (Qle_lt_trans _ _ _ Hlow Uk)).
  assert (Hk2 : k < 1023)
    by (apply pow2_lt_inv; apply (Qle_lt_trans _ _ _ Lk Hhigh)).
  rewrite Z.max_l by lia.
  replace (k - (53 - 1)) with (k - 52) by lia.
  set (e := k - 52) in *.
  replace k with (e + 52) in Lk by (unfold e; lia).
  replace (k + 1) with (e + 53) in Uk by (unfold e; lia).
  pose proof (pow2_pos e) as Hu.
  assert (HN : 0 <= Zpos n * 2 ^ Z.max 0 (- e))
    by (apply Z.mul_nonneg_nonneg; [lia|apply Z.pow_nonneg; lia]).
  assert (HD : 0 < Zpos qd * 2 ^ Z.max 0 e)
    by (apply Z.mul_pos_pos; [lia|apply Z.pow_pos_nonneg; lia]).
  pose proof (round_half_even_near _ _ HN HD) as Near.
  pose proof (round_half_even_tie _ _ HN HD) as Tie.
  pose proof (tie_integer (round_half_even (Zpos n * 2 ^ Z.max 0 (- e))
                             (Zpos qd * 2 ^ Z.max 0 e))
                          (Zpos n * 2 ^ Z.max 0 (- e)) _ HD) as Tie'.
  set (m := round_half_even (Zpos n * 2 ^ Z.max 0 (- e)) (Zpos qd * 2 ^ Z.max 0 e)) in *.
  rewrite (scaled_quotient (Zpos n) (Zpos qd) e eq_refl eq_refl) in Near, Tie'.
  rewrite <- Qmake_Qdiv in Near, Tie'. fold q in Near, Tie'.
  destruct Near as [Near1 Near2].
  assert (Ek : (2 ^ (e + 52) == 2 ^ e * 4503599627370496)%Q)
    by (rewrite pow2_add; reflexivity).
  assert (Ek1 : (2 ^ (e + 53) == 2 ^ e * 9007199254740992)%Q)
    by (rewrite pow2_add; reflexivity).
  pose proof (pow2_opp e) as Ho. pose proof (pow2_pos (- e)) as Hv.
  assert (Et : exists t, (t == q * 2 ^ (- e))%Q /\ (q == t * 2 ^ e)%Q).
  { exists (q * 2 ^ (- e))%Q. split; [reflexivity|].
    rewrite <- Qmult_assoc, (Qmult_comm (2 ^ (- e))), Ho, Qmult_1_r. reflexivity. }
  destruct Et as (t & Et & Eq).
  assert (Ht1 : (4503599627370496 <= t)%Q).
  { apply (Qmult_le_r _ _ (2 ^ e)%Q Hu). rewrite <- Eq.
    rewrite (Qmult_comm 4503599627370496), <- Ek. exact Lk. }
  assert (Ht2 : (t < 9007199254740992)%Q).
  { apply (Qmult_lt_r _ _ (2 ^ e)%Q Hu). rewrite <- Eq.
    rewrite (Qmult_comm 9007199254740992), <- Ek1. exact Uk. }
  assert (Hm52 : 2 ^ 52 <= m).
  { assert (Hlt : (inject_Z 4503599627370495 < inject_Z m)%Q).
    { change (inject_Z 4503599627370495) with 4503599627370495%Q.
      rewrite <- Et in Near1. lra. }
    rewrite <- Zlt_Qlt in Hlt. change (2 ^ 52) with 4503599627370496. lia. }
  assert (Hm53 : m <= 2 ^ 53).
  { assert (Hlt : (inject_Z m < inject_Z 9007199254740993)%Q).
    { change (inject_Z 9007199254740993) with 9007199254740993%Q.
      rewrite <- Et in Near2. lra. }
    rewrite <- Zlt_Qlt in Hlt. change (2 ^ 53) with 9007199254740992. lia. }
  assert (Hfin : (0 <=? e) && (2 ^ 1024 <=? m * 2 ^ e) = false).
  { destruct (Z.leb_spec 0 e) as [He|He]; [|reflexivity]. simpl.
    apply Z.leb_gt.
    assert (He' : e <= 970) by (unfold e; lia).
    assert (Hp : 2 ^ e <= 2 ^ 970) by (apply Z.pow_le_mono_r; lia).
    assert (H0 : 0 < 2 ^ e) by (apply Z.pow_pos_nonneg; lia).
    apply (Z.le_lt_trans _ (2 ^ 53 * 2 ^ 970)); [|reflexivity].
    apply Z.mul_le_mono_nonneg; lia. }
  rewrite Hfin. exists m, e.
  split; [reflexivity|]. split; [split; assumption|].
  split; [split; assumption|].
  split; [split; assumption|].
  intros T. apply Tie, Tie', T.
Qed.

Lemma inject_Z_le_mult a b u :
  a <= b -> (0 < u)%Q -> (inject_Z a * u <= inject_Z b * u)%Q.
Proof.
  intros H Hu. apply Qmult_le_r; [exact Hu|]. rewrite <- Zle_Qle. exact H.
Qed.

Lemma inject_Z_lt_mult a b u :
  a < b -> (0 < u)%Q -> (inject_Z a * u < inject_Z b * u)%Q.
Proof.
  intros H Hu. apply Qmult_lt_r; [exact Hu|]. rewrite <- Zlt_Qlt. exact H.
Qed.

(** Doubling a double in the normal range is exact: the significand stays,
    the exponent goes up by one; after a carry the significand is
    [2 ^ 52]. *)
Lemma round64_double s m e :
  2 ^ 52 <= m <= 2 ^ 53 ->
  (2 ^ (-1022) <= 2 * dyadic m e)%Q -> (2 * dyadic m e < 2 ^ 1023)%Q ->
  round64 s (2 * dyadic m e)
  = Finite s (if m <? 2 ^ 53 then dyadic m (e + 1) else dyadic (2 ^ 52) (e + 2)).
Proof.
  intros Hm Hlow Hhigh.
  destruct (round64_nearest s _ Hlow Hhigh)
    as (m2 & e2 & Hx & Hm2 & [L2 U2] & N2 & _).
  rewrite Hx. clear Hx. f_equal.
  rewrite dyadic_value in L2, U2, N2.
  pose proof (pow2_pos e) as Hu.
  assert (E53 : (2 ^ (e + 53) == 9007199254740992 * 2 ^ e)%Q)
    by (rewrite pow2_add; change (2 ^ 53)%Q with 9007199254740992%Q; ring).
  assert (E54 : (2 ^ (e + 54) == 18014398509481984 * 2 ^ e)%Q)
    by (rewrite pow2_add; change (2 ^ 54)%Q with 18014398509481984%Q; ring).
  pose proof (inject_Z_le_mult _ _ _ (proj1 Hm) Hu) as F1.
  pose proof (inject_Z_le_mult _ _ _ (proj2 Hm) Hu) as F2.
  change (inject_Z (2 ^ 52)) with 4503599627370496%Q in F1.
  change (inject_Z (2 ^ 53)) with 9007199254740992%Q in F2.
  destruct (Z.ltb_spec m (2 ^ 53)) as [Hlt|Hge].
  - pose proof (inject_Z_lt_mult _ _ _ Hlt Hu) as F3.
    change (inject_Z (2 ^ 53)) with 9007199254740992%Q in F3.
    assert (He : e2 = e + 1).
    { assert (A : e2 + 52 < e + 54)
        by (apply pow2_lt_inv; rewrite E54; lra).
      assert (B : e + 53 < e2 + 53)
        by (apply pow2_lt_inv; rewrite E53; lra).
      lia. }
    subst e2.
    assert (Ev : (2 * (inject_Z m * 2 ^ e) * 2 ^ (- (e + 1)) == inject_Z m)%Q).
    { pose proof (pow2_opp (e + 1)) as Ho. rewrite pow2_add in Ho.
      change (2 ^ 1)%Q with 2%Q in Ho.
      setoid_replace (2 * (inject_Z m * 2 ^ e) * 2 ^ (- (e + 1)))%Q
        with (inject_Z m * (2 ^ e * 2 * 2 ^ (- (e + 1))))%Q by ring.
      rewrite Ho. ring. }
    rewrite Ev in N2. rewrite (near_integer _ _ N2). reflexivity.
  - assert (Em : m = 2 ^ 53) by lia. subst m.
    change (inject_Z (2 ^ 53)) with 9007199254740992%Q in *.
    assert (He : e2 = e + 2).
    { assert (A : e2 + 52 <= e + 54)
        by (apply pow2_le_inv; rewrite E54; lra).
      assert (B : e + 54 < e2 + 53)
        by (apply pow2_lt_inv; rewrite E54; lra).
      lia. }
    subst e2.
    assert (Ev : (2 * (9007199254740992 * 2 ^ e) * 2 ^ (- (e + 2))
                  == inject_Z (2 ^ 52))%Q).
    { pose proof (pow2_opp (e + 2)) as Ho. rewrite pow2_add in Ho.
      change (2 ^ 2)%Q with 4%Q in Ho.
      setoid_replace (2 * (9007199254740992 * 2 ^ e) * 2 ^ (- (e + 2)))%Q
        with (4503599627370496 * (2 ^ e * 4 * 2 ^ (- (e + 2))))%Q by ring.
      rewrite Ho. reflexivity. }
    rewrite Ev in N2. rewrite (near_integer _ _ N2). reflexivity.
Qed.

(* ------------------------------------------------------------------ *)
(** ** Withdrawing a stake, and the reward *)

Lemma calculate_reward_absent self validator :
  lookup validator (stakers self) = None ->
  calculate_reward self validator = Returned (Finite false 0).
Proof. unfold calculate_reward. intros ->. vm_compute. reflexivity. Qed.

Lemma calculate_reward_zero self validator :
  lookup validator (stakers self) = Some 0 ->
  calculate_reward self validator = Returned (Finite false 0).
Proof. unfold calculate_reward. intros ->. vm_compute. reflexivity. Qed.

(** The reward on a stake that is not zero and below [2 ^ 1000] in
    magnitude: a finite double with the sign of the stake; its magnitude
    [m * 2 ^ e], with a significand [m] of 53 bits, is within half a unit in
    the last place of [2 * stake / 100], and [m] is even when it is exactly
    half a unit away.  The quotient is rounded once; doubling it is
    exact. *)
Lemma calculate_reward_nearest self validator stake :
  lookup validator (stakers self) = Some stake ->
  stake <> 0 -> Z.abs stake < 2 ^ 1000 ->
  exists m e,
    calculate_reward self validator
    = Returned (Finite (stake <? 0) (dyadic m e))
    /\ 2 ^ 52 <= m < 2 ^ 53
    /\ (Qabs (dyadic m e - 2 * (Z.abs stake # 100)) <= (1 # 2) * 2 ^ e)%Q
    /\ ((Qabs (dyadic m e - 2 * (Z.abs stake # 100)) == (1 # 2) * 2 ^ e)%Q ->
        Z.even m = true).
Proof.
  intros Hl Hnz Hbound. unfold calculate_reward, truediv. rewrite Hl.
  change (100 =? 0) with false. change (100 <? 0) with false.
  rewrite xorb_false_r. cbv iota.
  change (Z.to_pos (Z.abs 100)) with 100%positive.
  set (a := Z.abs stake) in *. set (s := stake <? 0).
  assert (Ha : 1 <= a) by (unfold a; lia).
  assert (Hq1 : (1 # 100 <= a # 100)%Q) by (unfold Qle; simpl; lia).
  assert (Hq2 : (a # 100 < inject_Z (2 ^ 1000))%Q)
    by (unfold Qlt; cbn [Qnum Qden inject_Z]; lia).
  assert (Hlow : (2 ^ (-1022) <= 1 # 200)%Q) by (vm_compute; discriminate).
  assert (Hhigh : (4 * inject_Z (2 ^ 1000) <= 2 ^ 1023)%Q) by (vm_compute; discriminate).
  set (B := inject_Z (2 ^ 1000)) in *. clearbody B.
  set (lo := (2 ^ (-1022))%Q) in *. set (hi := (2 ^ 1023)%Q) in *.
  set (q := a # 100) in *.
  destruct (round64_nearest s q) as (m & e & Hy & Hm & [L U] & [N1 N2] & T);
    [fold lo; lra|fold hi; lra|].
  rewrite Hy.
  replace (of_int 2) with (Returned (Finite false 2)) by (vm_compute; reflexivity).
  unfold mul. cbn [xorb].
  pose proof (pow2_pos e) as Hu. pose proof (pow2_opp e) as Ho.
  assert (E52 : (2 ^ (e + 52) == 4503599627370496 * 2 ^ e)%Q)
    by (rewrite pow2_add; change (2 ^ 52)%Q with 4503599627370496%Q; ring).
  assert (E53 : (2 ^ (e + 53) == 9007199254740992 * 2 ^ e)%Q)
    by (rewrite pow2_add; change (2 ^ 53)%Q with 9007199254740992%Q; ring).
  assert (E1 : (2 ^ (e + 1) == 2 * 2 ^ e)%Q)
    by (rewrite pow2_add; change (2 ^ 1)%Q with 2%Q; ring).
  assert (E2 : (2 ^ (e + 2) == 4 * 2 ^ e)%Q)
    by (rewrite pow2_add; change (2 ^ 2)%Q with 4%Q; ring).
  rewrite E52 in L. rewrite E53 in U.
  pose proof (inject_Z_le_mult _ _ _ (proj1 Hm) Hu) as F1.
  pose proof (inject_Z_le_mult _ _ _ (proj2 Hm) Hu) as F2.
  change (inject_Z (2 ^ 52)) with 4503599627370496%Q in F1.
  change (inject_Z (2 ^ 53)) with 9007199254740992%Q in F2.
  (* the number in units of the last place *)
  assert (Eq : (q == q * 2 ^ (- e) * 2 ^ e)%Q).
  { rewrite <- Qmult_assoc, (Qmult_comm (2 ^ (- e))), Ho, Qmult_1_r. reflexivity. }
  assert (I1 : ((inject_Z m - q * 2 ^ (- e)) * 2 ^ e <= (1 # 2) * 2 ^ e)%Q)
    by (apply Qmult_le_r; [exact Hu|exact N2]).
  assert (I2 : ((- (1 # 2)) * 2 ^ e <= (inject_Z m - q * 2 ^ (- e)) * 2 ^ e)%Q)
    by (apply Qmult_le_r; [exact Hu|exact N1]).
  set (t := (q * 2 ^ (- e))%Q) in *.
  rewrite round64_double;
    [|exact Hm|rewrite dyadic_value; fold lo; lra|rewrite dyadic_value; fold hi; lra].
  destruct (Z.ltb_spec m (2 ^ 53)) as [Hlt|Hge].
  - exists m, (e + 1). split; [reflexivity|]. split; [lia|].
    assert (Ed : (dyadic m (e + 1) - 2 * q == 2 * 2 ^ e * (inject_Z m - t))%Q).
    { rewrite dyadic_value, E1. rewrite Eq at 1. ring. }
    split.
    + rewrite E1. apply Qabs_Qle_condition. rewrite Ed. split; lra.
    + intros Tie. apply T.
      rewrite Ed, E1, Qabs_Qmult, (Qabs_pos (2 * 2 ^ e)) in Tie by lra.
      apply (Qmult_inj_l _ _ (2 * 2 ^ e)%Q); [lra|].
      rewrite Tie. ring.
  - exists (2 ^ 52), (e + 2). split; [reflexivity|]. split; [lia|].
    assert (Em : m = 2 ^ 53) by lia. subst m.
    change (inject_Z (2 ^ 53)) with 9007199254740992%Q in *.
    assert (Ed : (dyadic (2 ^ 52) (e + 2) - 2 * q
                  == 2 * 2 ^ e * (9007199254740992 - t))%Q).
    { rewrite dyadic_value, E2. rewrite Eq at 1.
      change (inject_Z (2 ^ 52)) with 4503599627370496%Q. ring. }
    assert (Hb : (Qabs (dyadic (2 ^ 52) (e + 2) - 2 * q) <= 2 ^ e)%Q).
    { apply Qabs_Qle_condition. rewrite Ed. split; lra. }
    split.
    + rewrite E2. lra.
    + intros Tie. exfalso. rewrite E2 in Tie. lra.
Qed.

(** Closes the goals on the reward with the fact [Hreward] about it. *)
Ltac reward_part Hreward :=
  match goal with
  | H : ?stake = match lookup ?validator _ with Some _ => _ | None => _ end
    |- _ =>
      first [exact (proj1 (Hreward validator stake H))
            |exact (proj2 (Hreward validator stake H))]
  end.

(** C9: [remove_staker] raises "Insufficient stake" exactly when the key is
    absent or its stake is less than the amount, and then leaves the ledger
    as it was; otherwise it subtracts the amount, leaving the other entries
    alone, and when the difference is zero it removes the entry, after which
    [calculate_reward] for that key returns [0.0] and raises nothing.
    [calculate_reward] is [base_reward * (stake / 100)] with
    [base_reward = 2] and [stake = 0] for a key that is absent: on the stake
    0 it returns [0.0]; on any other stake below [2 ^ 1000] in magnitude it
    returns the double nearest to [2 * stake / 100], that is, a finite
    double with the sign of the stake and a magnitude [m * 2 ^ e], [m] of 53
    bits, that is within half a unit [2 ^ e] of [2 * stake / 100], with [m]
    even when it is exactly half a unit away. *)
Theorem remove_staker_spec self public_key amount :
  well_formed (stakers self) ->
  ((exists e self', remove_staker self public_key amount = (Raised e, self'))
   <-> (lookup public_key (stakers self) = None
        \/ exists stake,
             lookup public_key (stakers self) = Some stake /\ stake < amount))
  /\ (forall e self',
        remove_staker self public_key amount = (Raised e, self') ->
        e = ValueError "Insufficient stake" /\ self' = self)
  /\ (forall stake,
        lookup public_key (stakers self) = Some stake -> amount <= stake ->
        exists self',
          remove_staker self public_key amount = (Returned tt, self')
          /\ well_formed (stakers self')
          /\ (forall other, other <> public_key ->
                lookup other (stakers self') = lookup other (stakers self))
          /\ (stake - amount <> 0 ->
              lookup public_key (stakers self') = Some (stake - amount))
          /\ (stake - amount = 0 ->
              lookup public_key (stakers self') = None
              /\ ~ In public_key (keys (stakers self'))
              /\ calculate_reward self' public_key = Returned (Finite false 0)))
  /\ (forall validator stake,
        stake = match lookup validator (stakers self) with
                | Some stake => stake
                | None => 0
                end ->
        (stake = 0 ->
         calculate_reward self validator = Returned (Finite false 0))
        /\ (stake <> 0 -> Z.abs stake < 2 ^ 1000 ->
            exists reward m e,
              calculate_reward self validator
              = Returned (Finite (stake <? 0) reward)
              /\ (reward == inject_Z m * 2 ^ e)%Q
              /\ 2 ^ 52 <= m < 2 ^ 53
              /\ (Qabs (reward - 2 * (Z.abs stake # 100))
                  <= (1 # 2) * 2 ^ e)%Q
              /\ ((Qabs (reward - 2 * (Z.abs stake # 100))
                   == (1 # 2) * 2 ^ e)%Q -> Z.even m = true))).
Proof.
  intros Hwf.
  assert (Hreward : forall validator stake,
    stake = match lookup validator (stakers self) with
            | Some stake => stake
            | None => 0
            end ->
    (stake = 0 ->
     calculate_reward self validator = Returned (Finite false 0))
    /\ (stake <> 0 -> Z.abs stake < 2 ^ 1000 ->
        exists reward m e,
          calculate_reward self validator
          = Returned (Finite (stake <? 0) reward)
          /\ (reward == inject_Z m * 2 ^ e)%Q
          /\ 2 ^ 52 <= m < 2 ^ 53
          /\ (Qabs (reward - 2 * (Z.abs stake # 100))
              <= (1 # 2) * 2 ^ e)%Q
          /\ ((Qabs (reward - 2 * (Z.abs stake # 100))
               == (1 # 2) * 2 ^ e)%Q -> Z.even m = true))).
  { intros validator stake Hstake.
    destruct (lookup validator (stakers self)) as [s0|] eqn:Hv; subst stake.
    - split.
      + intros ->. apply calculate_reward_zero, Hv.
      + intros Hnz Hb.
        destruct (calculate_reward_nearest _ _ _ Hv Hnz Hb)
          as (m & e & Hrun & Hm & Hnear & Htie).
        exists (dyadic m e), m, e. split; [exact Hrun|].
        split; [apply dyadic_value|]. split; [exact Hm|].
        split; [exact Hnear|exact Htie].
    - split; [intros _; apply calculate_reward_absent, Hv|].
      intros Hnz. contradiction. }
  unfold remove_staker.
  destruct (lookup public_key (stakers self)) as [stake|] eqn:Hl.
  - destruct (stake <? amount) eqn:Hlt.
    + apply Z.ltb_lt in Hlt. repeat split; try solve [reward_part Hreward].
      * intros _. right. exists stake. auto.
      * intros _. eexists _, _. reflexivity.
      * injection H as <- _. reflexivity.
      * injection H as _ <-. reflexivity.
      * intros s Hs Hle. injection Hs as <-. lia.
    + apply Z.ltb_ge in Hlt.
      assert (Hin : In public_key (keys (stakers self))).
      { destruct (in_dec string_dec public_key (keys (stakers self))) as [H|H];
          [exact H|]. apply lookup_None_iff in H. congruence. }
      assert (Hwf1 : well_formed (store public_key (stake - amount) (stakers self))).
      { unfold well_formed. rewrite keys_store_present by exact Hin. exact Hwf. }
      repeat split; try solve [reward_part Hreward].
      * intros (e & self' & H).
        destruct (stake - amount =? 0); discriminate.
      * intros [H|(s & Hs & Hsa)]; [discriminate|].
        injection Hs as <-. lia.
      * destruct (stake - amount =? 0); discriminate.
      * destruct (stake - amount =? 0); discriminate.
      * intros s Hs _. injection Hs as <-.
        destruct (stake - amount =? 0) eqn:Hz.
        -- apply Z.eqb_eq in Hz. eexists. split; [reflexivity|]. simpl.
           split; [apply delete_well_formed, Hwf1|].
           split; [intros other Ho; rewrite lookup_delete_other, lookup_store_other by exact Ho; reflexivity|].
           split; [intros Hnz; contradiction|]. intros _.
           assert (Hout : ~ In public_key
                            (keys (delete public_key
                                     (store public_key (stake - amount) (stakers self)))))
             by (apply delete_removes, Hwf1).
           split; [apply lookup_None_iff, Hout|]. split; [exact Hout|].
           apply calculate_reward_absent. simpl. apply lookup_None_iff, Hout.
        -- apply Z.eqb_neq in Hz. eexists. split; [reflexivity|]. simpl.
           split; [exact Hwf1|].
           split; [intros other Ho; apply lookup_store_other, Ho|].
           split; [intros _; apply lookup_store_same|]. intros Hzero. contradiction.
  - repeat split; try solve [reward_part Hreward].
    + intros _. left. reflexivity.
    + intros _. eexists _, _. reflexivity.
    + injection H as <- _. reflexivity.
    + injection H as _ <-. reflexivity.
    + intros s Hs. discriminate.
Qed.

Lemma two_stakers_well_formed : well_formed (stakers Samples.two_stakers).
Proof.
  unfold well_formed. simpl.
  constructor; [simpl; intros [H|[]]; discriminate|].
  constructor; [simpl; tauto|constructor].
Qed.

Lemma remove_staker_spec_witness :
  well_formed (stakers Samples.two_stakers)
  /\ exists self',
       remove_staker Samples.two_stakers "A" 90 = (Returned tt, self')
       /\ stakers self' = [("B", 10)]
       /\ lookup "A" (stakers self') = None
       /\ calculate_reward self' "A" = Returned (Finite false 0).
Proof.
  split; [exact two_stakers_well_formed|].
  destruct (remove_staker_spec Samples.two_stakers "A" 90 two_stakers_well_formed)
    as (_ & _ & Hok & _).
  destruct (Hok 90 eq_refl (Z.le_refl 90)) as (self' & Hrun & _ & _ & _ & Hzero).
  destruct (Hzero eq_refl) as (Hnone & _ & Hreward).
  exists self'. split; [exact Hrun|]. split; [|split; assumption].
  injection Hrun as <-. reflexivity.
Defined.

Lemma add_staker_well_formed self public_key amount :
  well_formed (stakers self) ->
  well_formed (stakers (snd (add_staker self public_key amount))).
Proof.
  unfold add_staker. intros Hwf.
  destruct (amount <? min_stake self); [exact Hwf|].
  destruct (lookup public_key (stakers self)) as [stake|] eqn:Hl; simpl.
  - unfold well_formed. rewrite keys_store_present; [exact Hwf|].
    destruct (in_dec string_dec public_key (keys (stakers self))) as [H|H];
      [exact H|]. apply lookup_None_iff in H. congruence.
  - apply lookup_None_iff in Hl. revert Hwf Hl. unfold well_formed.
    induction (stakers self) as [|[k v] d IH]; simpl; intros Hwf Hl.
    + constructor; [simpl; tauto|constructor].
    + inversion Hwf as [|? ? Hnotin Hnd]; subst.
      destruct (String.eqb_spec public_key k) as [->|Hk]; [tauto|]. simpl.
      constructor; [|apply IH; tauto].
      intros H. apply Hnotin.
      clear - H Hk. induction d as [|[k0 v0] d IH]; simpl in *.
      * destruct H as [H|[]]. congruence.
      * destruct (String.eqb public_key k0); simpl in H; tauto.
Qed.

(** The reward on some stakes, as CPython computes it: 1.0, 0.0, 0.2,
    1.8446744073709552e+17, 180143985094819.88, -0.14, the exception for a
    quotient past the doubles, and [inf] where only the product is. *)
Example calculate_reward_examples :
  calculate_reward (mkPoS [("A", 50)] 10) "A" = Returned (Finite false 1)
  /\ calculate_reward (mkPoS [("A", 50)] 10) "B" = Returned (Finite false 0)
  /\ calculate_reward (mkPoS [("A", 10)] 10) "A"
     = Returned (Finite false (3602879701896397 # 18014398509481984))
  /\ calculate_reward (mkPoS [("A", 2 ^ 63)] 10) "A"
     = Returned (Finite false 184467440737095520)
  /\ calculate_reward (mkPoS [("A", 2 ^ 53 + 1)] 10) "A"
     = Returned (Finite false (1441151880758559 # 8))
  /\ calculate_reward (mkPoS [("A", -7)] 10) "A"
     = Returned (Finite true (1261007895663739 # 9007199254740992))
  /\ calculate_reward (mkPoS [("A", 10 ^ 400)] 10) "A"
     = Raised (OverflowError "integer division result too large for a float")
  /\ calculate_reward (mkPoS [("A", 100 * 2 ^ 1023)] 10) "A"
     = Returned (Infinite false).
Proof. repeat split; vm_compute; reflexivity. Qed.

(** On stakes that a double holds exactly, the reward is the one the
    prover's own binary64 arithmetic gives for [2.0 * (stake / 100.0)]. *)
Example calculate_reward_binary64 :
  forallb
    (fun stake =>
       match calculate_reward (mkPoS [("A", stake)] 10) "A" with
       | Returned reward =>
           same reward
             (of_binary64
                (PrimFloat.mul (PrimFloat.of_uint63 2)
                   (PrimFloat.div (PrimFloat.of_uint63 (Uint63.of_Z stake))
                                  (PrimFloat.of_uint63 100))))
       | _ => false
       end)
    [0; 1; 2; 3; 7; 10; 15; 25; 49; 50; 51; 99; 100; 101; 333; 1000; 12345;
     99999; 123456789; 2 ^ 31 - 1; 2 ^ 32 + 1; 2 ^ 52 + 1; 2 ^ 53 - 1; 2 ^ 53]
  = true.
Proof. vm_compute. reflexivity. Qed.

(* ------------------------------------------------------------------ *)
(** ** More on validation: what the loop tests, and where it stops *)

Import Blockchain.

Lemma block_ok_iff m p b :
  block_ok m p b = true
  <-> sealed b /\ previous_hash b = hash p
      /\ m <= PyList.len (task_certificates b).
Proof.
  unfold block_ok, sealed. rewrite !andb_true_iff, negb_true_iff.
  rewrite !String.eqb_eq, Z.ltb_ge. tauto.
Qed.

Lemma validate_from_true_nth m rest :
  forall i prev k p b,
    validate_from m i prev rest = (true, []) ->
    nth_error (prev :: rest) k = Some p ->
    nth_error rest k = Some b ->
    block_ok m p b = true.
Proof.
  induction rest as [|cur rest IH]; intros i prev k p b Hv Hp Hb.
  - destruct k; discriminate.
  - apply validate_from_true_cons in Hv. destruct Hv as [Hc Hv].
    destruct k as [|k]; simpl in Hp, Hb.
    + injection Hp as <-. injection Hb as <-. exact Hc.
    + eapply IH; eassumption.
Qed.

Lemma validate_from_all_ok m rest :
  forall i prev,
    (forall k p b,
        nth_error (prev :: rest) k = Some p -> nth_error rest k = Some b ->
        block_ok m p b = true) ->
    validate_from m i prev rest = (true, []).
Proof.
  induction rest as [|cur rest IH]; intros i prev H; [reflexivity|].
  rewrite validate_from_cons by (apply (H O); reflexivity).
  apply IH. intros k p b Hp Hb. apply (H (S k)); assumption.
Qed.

(** The verdict is [True] only with nothing printed. *)
Lemma validate_from_true_silent m rest :
  forall i prev, fst (validate_from m i prev rest) = true ->
                 validate_from m i prev rest = (true, []).
Proof.
  induction rest as [|cur rest IH]; intros i prev H; [reflexivity|].
  simpl in *.
  destruct (String.eqb (hash cur) (calculate_hash cur)); simpl in *; [|discriminate].
  destruct (String.eqb (previous_hash cur) (hash prev)); simpl in *; [|discriminate].
  destruct (PyList.len (task_certificates cur) <? m); simpl in *; [discriminate|].
  apply IH, H.
Qed.

(** X1: [is_chain_valid] returns [True] exactly when every block after the
    first stores the hash of its content, names the stored hash of the block
    before it and holds at least [min_task_certificates_per_block]
    certificates; it then prints nothing.  The first block is not tested. *)
Theorem is_chain_valid_iff self :
  (fst (is_chain_valid self) = true <-> is_chain_valid self = (true, []))
  /\ (is_chain_valid self = (true, [])
      <-> forall i p b,
            nth_error (chain self) i = Some p ->
            nth_error (chain self) (S i) = Some b ->
            sealed b /\ previous_hash b = hash p
            /\ min_task_certificates_per_block self
               <= PyList.len (task_certificates b)).
Proof.
  unfold is_chain_valid. destruct (chain self) as [|first rest].
  - split; [split; reflexivity|]. split; [|reflexivity].
    intros _ i p b Hp. destruct i; discriminate.
  - split.
    + split; [apply validate_from_true_silent|intros ->; reflexivity].
    + split.
      * intros Hv i p b Hp Hb. apply block_ok_iff.
        eapply validate_from_true_nth; eassumption.
      * intros H. apply validate_from_all_ok.
        intros k p b Hp Hb. apply block_ok_iff. eapply H; eassumption.
Qed.

Lemma validate_from_prefix m l1 :
  forall i prev l2,
    validate_from m i prev (l1 ++ l2) = (true, []) ->
    validate_from m i prev l1 = (true, []).
Proof.
  induction l1 as [|cur l1 IH]; intros i prev l2 H; [reflexivity|].
  change ((cur :: l1) ++ l2) with (cur :: (l1 ++ l2)) in H.
  apply validate_from_true_cons in H. destruct H as [Hc H].
  rewrite validate_from_cons by assumption. eapply IH, H.
Qed.

Lemma validate_from_split m l1 :
  forall i prev l2,
    validate_from m i prev l1 = (true, []) ->
    validate_from m i prev (l1 ++ l2)
    = validate_from m (i + PyList.len l1) (last l1 prev) l2.
Proof.
  induction l1 as [|cur l1 IH]; intros i prev l2 H.
  - simpl. unfold PyList.len. simpl. rewrite Z.add_0_r. reflexivity.
  - apply validate_from_true_cons in H. destruct H as [Hc H].
    change ((cur :: l1) ++ l2) with (cur :: (l1 ++ l2)).
    rewrite validate_from_cons by assumption.
    rewrite (IH _ _ _ H), last_cons_default.
    f_equal. unfold PyList.len. simpl List.length. lia.
Qed.

Lemma replace_at_split {A} (x : A) :
  forall l k, (k < List.length l)%nat ->
              replace_at k x l = firstn k l ++ x :: skipn (S k) l.
Proof.
  induction l as [|h t IH]; intros k Hk; simpl in Hk; [lia|].
  destruct k as [|k]; [reflexivity|].
  simpl. f_equal. apply IH. lia.
Qed.

Lemma last_firstn_nth {A} (l : list A) :
  forall k x p, nth_error (x :: l) k = Some p -> last (firstn k l) x = p.
Proof.
  induction l as [|h t IH]; intros k x p H.
  - destruct k as [|k]; simpl in *; [congruence|destruct k; discriminate].
  - destruct k as [|k]; [simpl in *; congruence|].
    change (firstn (S k) (h :: t)) with (h :: firstn k t).
    rewrite last_cons_default. apply IH. exact H.
Qed.

(** The loop on a chain whose block at [S k] was overwritten, the blocks
    before it being in order, goes on from the new block. *)
Lemma validate_from_reaches m first rest k p b' :
  validate_from m 1 first rest = (true, []) ->
  nth_error (first :: rest) k = Some p ->
  (k < List.length rest)%nat ->
  validate_from m 1 first (replace_at k b' rest)
  = validate_from m (Z.of_nat (S k)) p (b' :: skipn (S k) rest).
Proof.
  intros Hv Hp Hk.
  rewrite replace_at_split by exact Hk.
  rewrite <- (firstn_skipn k rest) in Hv. apply validate_from_prefix in Hv.
  rewrite (validate_from_split _ _ _ _ _ Hv).
  rewrite (last_firstn_nth _ _ _ _ Hp).
  f_equal. unfold PyList.len. rewrite firstn_length_le by lia. lia.
Qed.

(** X2: on a chain that [is_chain_valid] accepts, overwriting the block at an
    index [i >= 1] by a block that stores the hash of its content but names
    another previous hash than the stored hash of block [i - 1] makes
    [is_chain_valid] return [False] and print "Chain broken" at [i]. *)
Theorem broken_link_detected self i p b' :
  is_chain_valid self = (true, []) ->
  nth_error (chain self) i = Some p ->
  (S i < List.length (chain self))%nat ->
  sealed b' ->
  previous_hash b' <> hash p ->
  is_chain_valid (tamper self (S i) b')
  = (false, [("Chain broken at block " ++ PyStr.of_int (Z.of_nat (S i)))%string]).
Proof.
  intros Hv Hp Hlen Hs Hl.
  unfold is_chain_valid, tamper in *.
  cbn [chain min_task_certificates_per_block set_chain].
  destruct (chain self) as [|first rest]; [simpl in Hlen; lia|].
  change (replace_at (S i) b' (first :: rest)) with (first :: replace_at i b' rest).
  cbv iota. simpl in Hlen.
  rewrite (validate_from_reaches _ _ _ _ _ _ Hv Hp) by lia.
  cbn [validate_from].
  unfold sealed in Hs. rewrite <- Hs, String.eqb_refl.
  apply String.eqb_neq in Hl. rewrite Hl. reflexivity.
Qed.

(** X3: on a chain that [is_chain_valid] accepts, overwriting the block at an
    index [i >= 1] by a block that is sealed and linked but holds fewer than
    [min_task_certificates_per_block] certificates makes [is_chain_valid]
    return [False] and print "Insufficient task certificates" at [i]. *)
Theorem too_few_certificates_detected self i p b' :
  is_chain_valid self = (true, []) ->
  nth_error (chain self) i = Some p ->
  (S i < List.length (chain self))%nat ->
  sealed b' ->
  previous_hash b' = hash p ->
  PyList.len (task_certificates b') < min_task_certificates_per_block self ->
  is_chain_valid (tamper self (S i) b')
  = (false, [("Insufficient task certificates at block "
              ++ PyStr.of_int (Z.of_nat (S i)))%string]).
Proof.
  intros Hv Hp Hlen Hs Hl Hc.
  unfold is_chain_valid, tamper in *.
  cbn [chain min_task_certificates_per_block set_chain].
  destruct (chain self) as [|first rest]; [simpl in Hlen; lia|].
  change (replace_at (S i) b' (first :: rest)) with (first :: replace_at i b' rest).
  cbv iota. simpl in Hlen.
  rewrite (validate_from_reaches _ _ _ _ _ _ Hv Hp) by lia.
  cbn [validate_from].
  unfold sealed in Hs. rewrite <- Hs, String.eqb_refl.
  rewrite Hl, String.eqb_refl. apply Z.ltb_lt in Hc. rewrite Hc. reflexivity.
Qed.

(** [block.hash = block.calculate_hash()] *)
Definition reseal (b : Block) : Block := set_hash b (calculate_hash b).

Lemma reseal_sealed b : sealed (reseal b).
Proof. reflexivity. Qed.

Module Forgeries.

(** [Samples.block1] naming ["0"] as its previous hash, sealed again. *)
Definition unlinked_block1 : Block :=
  reseal (mkBlock (index Samples.block1) (timestamp Samples.block1)
                  (transactions Samples.block1)
                  (task_certificates Samples.block1) "0"
                  (nonce Samples.block1) EmptyString).

(** [Samples.block1] without its last certificate, sealed again. *)
Definition short_block1 : Block :=
  reseal (mkBlock (index Samples.block1) (timestamp Samples.block1)
                  (transactions Samples.block1)
                  (removelast (task_certificates Samples.block1))
                  (previous_hash Samples.block1)
                  (nonce Samples.block1) EmptyString).

(** [Samples.genesis] with a transaction written into it, sealed again. *)
Definition resealed_genesis : Block := reseal Samples.forged_genesis.

(** A block on top of [Samples.mined] that nobody mined: the first six
    certificates once more, no transaction, nonce 0. *)
Definition unmined_block : Block :=
  reseal (mkBlock 2 (PyFloat "1700000009.5") []
                  (map Samples.cert [0; 1; 2; 3; 4; 5])
                  (hash Samples.block1) 0 EmptyString).

End Forgeries.

Lemma mined_genesis : nth_error (chain Samples.mined) 0 = Some Samples.genesis.
Proof. vm_compute. reflexivity. Qed.

Lemma mined_block1 : nth_error (chain Samples.mined) 1 = Some Samples.block1.
Proof. vm_compute. reflexivity. Qed.

Lemma mined_length : List.length (chain Samples.mined) = 2%nat.
Proof. vm_compute. reflexivity. Qed.

Lemma broken_link_detected_witness :
  is_chain_valid (tamper Samples.mined 1 Forgeries.unlinked_block1)
  = (false, ["Chain broken at block 1"]).
Proof.
  apply (broken_link_detected Samples.mined 0 Samples.genesis
           Forgeries.unlinked_block1 mined_valid mined_genesis).
  - rewrite mined_length. apply Nat.lt_succ_diag_r.
  - apply reseal_sealed.
  - apply String.eqb_neq. vm_compute. reflexivity.
Defined.

Lemma too_few_certificates_detected_witness :
  is_chain_valid (tamper Samples.mined 1 Forgeries.short_block1)
  = (false, ["Insufficient task certificates at block 1"]).
Proof.
  apply (too_few_certificates_detected Samples.mined 0 Samples.genesis
           Forgeries.short_block1 mined_valid mined_genesis).
  - rewrite mined_length. apply Nat.lt_succ_diag_r.
  - apply reseal_sealed.
  - vm_compute. reflexivity.
  - vm_compute. reflexivity.
Defined.

Lemma nth_error_skipn_cons {A} (l : list A) :
  forall n x, nth_error l n = Some x -> skipn n l = x :: skipn (S n) l.
Proof.
  induction l as [|h t IH]; intros n x H; [destruct n; discriminate|].
  destruct n as [|n]; simpl in *; [congruence|]. apply IH, H.
Qed.

(** X4: on a chain that [is_chain_valid] accepts, replacing a block that has
    a successor by a block with another stored hash, one that passes the
    three tests itself (or sits at index 0, where nothing is tested), makes
    [is_chain_valid] return [False] and print "Chain broken" at the
    successor's index: sealing a changed block again moves the failure to
    the next block. *)
Theorem resealed_block_breaks_next_link self i b next b' :
  is_chain_valid self = (true, []) ->
  nth_error (chain self) i = Some b ->
  nth_error (chain self) (S i) = Some next ->
  hash b' <> hash b ->
  (i = O
   \/ exists p,
        nth_error (chain self) (i - 1) = Some p
        /\ sealed b' /\ previous_hash b' = hash p
        /\ min_task_certificates_per_block self
           <= PyList.len (task_certificates b')) ->
  is_chain_valid (tamper self i b')
  = (false, [("Chain broken at block " ++ PyStr.of_int (Z.of_nat (S i)))%string]).
Proof.
  intros Hv Hb Hnext Hh Hok.
  unfold is_chain_valid, tamper in *.
  cbn [chain min_task_certificates_per_block set_chain].
  destruct (chain self) as [|first rest]; [destruct i; discriminate|].
  set (m := min_task_certificates_per_block self) in *.
  assert (Hn : block_ok m b next = true)
    by (eapply validate_from_true_nth; eassumption).
  apply block_ok_iff in Hn. destruct Hn as (Hns & Hnl & Hnc).
  assert (Hstep : forall j, validate_from m j b' (next :: skipn (S i) rest)
            = (false, [("Chain broken at block " ++ PyStr.of_int j)%string])).
  { intros j. cbn [validate_from].
    unfold sealed in Hns. rewrite <- Hns, String.eqb_refl.
    rewrite Hnl. apply not_eq_sym in Hh. apply String.eqb_neq in Hh.
    rewrite Hh. reflexivity. }
  destruct i as [|k].
  - simpl in Hb. injection Hb as ->.
    change (nth_error rest 0 = Some next) in Hnext.
    cbn [replace_at].
    rewrite <- (skipn_O rest) at 1.
    rewrite (nth_error_skipn_cons _ _ _ Hnext). apply Hstep.
  - destruct Hok as [Hi|(p & Hp & Hs & Hl & Hc)]; [discriminate|].
    replace (S k - 1)%nat with k in Hp by lia.
    assert (Hk : (k < List.length rest)%nat)
      by (apply nth_error_Some; simpl in Hb; congruence).
    change (replace_at (S k) b' (first :: rest)) with (first :: replace_at k b' rest).
    cbv iota.
    rewrite (validate_from_reaches _ _ _ _ _ _ Hv Hp Hk).
    rewrite validate_from_cons by (apply block_ok_iff; auto).
    change (nth_error rest (S k) = Some next) in Hnext.
    rewrite (nth_error_skipn_cons _ _ _ Hnext).
    rewrite Hstep.
    replace (Z.of_nat (S k) + 1) with (Z.of_nat (S (S k))) by lia. reflexivity.
Qed.

Lemma resealed_block_breaks_next_link_witness :
  sealed Forgeries.resealed_genesis
  /\ is_chain_valid (tamper Samples.mined 0 Forgeries.resealed_genesis)
     = (false, ["Chain broken at block 1"]).
Proof.
  split; [apply reseal_sealed|].
  apply (resealed_block_breaks_next_link Samples.mined 0 Samples.genesis
           Samples.block1 Forgeries.resealed_genesis
           mined_valid mined_genesis mined_block1).
  - apply String.eqb_neq. vm_compute. reflexivity.
  - left. reflexivity.
Defined.

(** X5: [is_chain_valid] does not test the proof of work: a chain it accepts
    is still accepted after any block is appended that stores the hash of
    its content, names the stored hash of the latest block and holds enough
    certificates, whatever its nonce and whether or not its hash meets the
    difficulty target. *)
Theorem unmined_block_accepted self latest b :
  is_chain_valid self = (true, []) ->
  get_latest_block self = Returned latest ->
  sealed b ->
  previous_hash b = hash latest ->
  min_task_certificates_per_block self <= PyList.len (task_certificates b) ->
  is_chain_valid (set_chain self (chain self ++ [b])) = (true, []).
Proof.
  intros Hv Hlatest Hs Hl Hc.
  destruct (get_latest_block_app _ _ Hlatest) as [l Hchain].
  unfold is_chain_valid in *.
  cbn [chain min_task_certificates_per_block set_chain].
  destruct (chain self) as [|first rest]; [destruct l; discriminate|].
  change ((first :: rest) ++ [b]) with (first :: (rest ++ [b])). cbv iota.
  apply validate_from_snoc; [exact Hv|].
  apply block_ok_iff. split; [exact Hs|]. split; [|exact Hc].
  rewrite Hl. f_equal.
  rewrite <- (last_cons_default rest first first), Hchain.
  symmetry. apply last_last.
Qed.

Lemma unmined_block_accepted_witness :
  meets_target (difficulty Samples.mined) Forgeries.unmined_block = false
  /\ is_chain_valid
       (set_chain Samples.mined (chain Samples.mined ++ [Forgeries.unmined_block]))
     = (true, []).
Proof.
  split; [vm_compute; reflexivity|].
  apply (unmined_block_accepted Samples.mined Samples.block1
           Forgeries.unmined_block mined_valid).
  - vm_compute. reflexivity.
  - apply reseal_sealed.
  - vm_compute. reflexivity.
  - vm_compute. discriminate.
Defined.

(* ------------------------------------------------------------------ *)
(** ** More on mining: the appended block, the nonce, the difficulty *)

(** X6: when [mine_block] returns, the appended block has the length of the
    chain as its index, the first clock reading of the call as its
    timestamp, every transaction that was pending followed by the reward
    transaction, and the stored hash of the latest block as its previous
    hash; the pending transactions are empty, the settings are as before and
    the clock was read three times. *)
Theorem mine_block_postcondition fuel self miner_address w v self' w' :
  mine_block fuel self miner_address w = (Returned v, self', w') ->
  exists latest block,
    get_latest_block self = Returned latest
    /\ chain self' = chain self ++ [block]
    /\ index block = PyList.len (chain self)
    /\ timestamp block = clock w O
    /\ transactions block
       = pending_transactions self
           ++ [mkTransaction "network" miner_address (mining_reward self)]
    /\ previous_hash block = hash latest
    /\ pending_transactions self' = []
    /\ difficulty self' = difficulty self
    /\ min_task_certificates_per_block self' = min_task_certificates_per_block self
    /\ mining_reward self' = mining_reward self
    /\ w' = advance 3 w.
Proof.
  intros H. pose proof (mine_block_returned _ _ _ _ _ _ _ H) as Hr.
  destruct Hr as (Hge & latest & block & Hl & Hp & _ & Hs).
  rewrite (mine_block_enough _ _ _ _ _ Hge Hl), Hp in H.
  injection H as _ _ <-. subst self'.
  apply proof_of_work_sound in Hp.
  destruct Hp as (_ & _ & Hi & Ht & Htx & _ & Hprev & _).
  exists latest, block. repeat split; assumption.
Qed.

Lemma mine_block_postcondition_witness :
  exists block,
    chain Samples.mined = chain Samples.ready ++ [block]
    /\ index block = 1
    /\ timestamp block = PyFloat "1700000001.5"
    /\ transactions block
       = [mkTransaction "Alice" "Bob" 50; mkTransaction "Bob" "Charlie" 30;
          mkTransaction "network" Samples.miner 5]
    /\ pending_transactions Samples.mined = [].
Proof.
  destruct ready_mined as [w' Hrun].
  destruct (mine_block_postcondition _ _ _ _ _ _ _ Hrun)
    as (latest & block & _ & Hc & Hi & Ht & Htx & _ & Hp & _).
  exists block. split; [exact Hc|].
  split; [rewrite Hi; vm_compute; reflexivity|].
  split; [rewrite Ht; vm_compute; reflexivity|].
  split; [rewrite Htx; vm_compute; reflexivity|exact Hp].
Defined.

(** The content of [b] with the nonce [n], hashed again. *)
Definition with_nonce (b : Block) (n : Z) : Block := reseal (set_nonce b n).

Lemma iter_next_nonce n :
  forall b, Nat.iter n next_nonce (reseal b) = with_nonce b (nonce b + Z.of_nat n).
Proof.
  induction n as [|n IH]; intros b.
  - simpl. rewrite Z.add_0_r. destruct b; reflexivity.
  - rewrite Nat.iter_succ_r.
    change (next_nonce (reseal b)) with (reseal (set_nonce b (nonce b + 1))).
    rewrite IH. cbn [nonce set_nonce].
    replace (nonce b + 1 + Z.of_nat n) with (nonce b + Z.of_nat (S n)) by lia.
    destruct b; reflexivity.
Qed.

Lemma proof_of_work_first fuel d :
  forall b b',
    proof_of_work fuel d b = Some b' ->
    exists n,
      (n <= fuel)%nat
      /\ b' = Nat.iter n next_nonce b
      /\ forall k, (k < n)%nat -> meets_target d (Nat.iter k next_nonce b) = false.
Proof.
  induction fuel as [|fuel IH]; intros b b' H; simpl in H.
  - destruct (meets_target d b) eqn:E; [|discriminate].
    injection H as <-. exists O. repeat split; [lia|]. intros k Hk. lia.
  - destruct (meets_target d b) eqn:E.
    + injection H as <-. exists O. repeat split; [lia|]. intros k Hk. lia.
    + destruct (IH _ _ H) as (n & Hn & Hb & Hfirst).
      exists (S n). split; [lia|]. split.
      * rewrite Nat.iter_succ_r. exact Hb.
      * intros [|k] Hk; [exact E|].
        rewrite Nat.iter_succ_r. apply Hfirst. lia.
Qed.

(** A budget that ends before the first block meeting the target leaves the
    search without a result. *)
Lemma proof_of_work_short d :
  forall fuel b,
    (forall k, (k <= fuel)%nat -> meets_target d (Nat.iter k next_nonce b) = false) ->
    proof_of_work fuel d b = None.
Proof.
  induction fuel as [|fuel IH]; intros b H;
    pose proof (H O ltac:(lia)) as H0; simpl in H0; simpl; rewrite H0.
  - reflexivity.
  - apply IH. intros k Hk.
    rewrite <- Nat.iter_succ_r. apply H. lia.
Qed.

(** X7: the nonce of the block a returning call of [mine_block] appended is
    the number of turns of the search and the least nonce that works.  The
    appended block is the candidate block after exactly [nonce] runs of the
    loop body: a budget of at least [nonce] turns gives this very outcome, a
    budget of fewer turns runs out.  With any smaller nonce, from 0 on, the
    same content has a hash that does not meet the difficulty target. *)
Theorem mined_nonce_is_least fuel self miner_address w v self' w' :
  mine_block fuel self miner_address w = (Returned v, self', w') ->
  exists block,
    chain self' = chain self ++ [block]
    /\ 0 <= nonce block <= Z.of_nat fuel
    /\ meets_target (difficulty self) block = true
    /\ (forall n, 0 <= n < nonce block ->
                  meets_target (difficulty self) (with_nonce block n) = false)
    /\ (exists latest,
           get_latest_block self = Returned latest
           /\ block = Nat.iter (Z.to_nat (nonce block)) next_nonce
                        (candidate_block self miner_address latest (clock w O)))
    /\ (forall turns, (Z.to_nat (nonce block) <= turns)%nat ->
          mine_block turns self miner_address w = (Returned v, self', w'))
    /\ (forall turns, (turns < Z.to_nat (nonce block))%nat ->
          fst (fst (mine_block turns self miner_address w)) = OutOfFuel).
Proof.
  intros H. pose proof (mine_block_returned _ _ _ _ _ _ _ H) as Hr.
  destruct Hr as (Hge & latest & block & Hl & Hp & -> & Hs).
  rewrite (mine_block_enough _ _ _ _ _ Hge Hl), Hp in H.
  injection H as _ Hw. subst self' w'.
  pose proof (proof_of_work_sound _ _ _ _ Hp) as (Hm & _).
  apply proof_of_work_first in Hp. destruct Hp as (n & Hn & Hb & Hfirst).
  assert (Hnonce : nonce block = Z.of_nat n).
  { rewrite Hb. unfold candidate_block.
    match goal with
    | |- nonce (Nat.iter n next_nonce (set_hash ?b (calculate_hash ?b))) = _ =>
        change (set_hash b (calculate_hash b)) with (reseal b);
        rewrite iter_next_nonce
    end.
    cbn [with_nonce reseal set_hash set_nonce nonce]. lia. }
  exists block. split; [reflexivity|].
  split; [lia|]. split; [exact Hm|].
  split.
  { intros k Hk. specialize (Hfirst (Z.to_nat k)).
    rewrite <- Hfirst by lia. rewrite Hb. unfold candidate_block.
    match goal with
    | |- context [set_hash ?b (calculate_hash ?b)] =>
        change (set_hash b (calculate_hash b)) with (reseal b)
    end.
    rewrite !iter_next_nonce.
    cbn [with_nonce reseal set_hash set_nonce nonce].
    rewrite Z2Nat.id by lia. reflexivity. }
  rewrite Hnonce, Nat2Z.id.
  split; [exists latest; split; [exact Hl|exact Hb]|].
  assert (Hhit : meets_target (difficulty self)
                   (Nat.iter n next_nonce
                      (candidate_block self miner_address latest (clock w O))) = true)
    by (rewrite <- Hb; exact Hm).
  split.
  - intros turns Hturns.
    rewrite (mine_block_enough _ _ _ _ _ Hge Hl).
    rewrite (proof_of_work_complete _ n turns _ Hfirst Hhit Hturns), <- Hb.
    reflexivity.
  - intros turns Hturns.
    rewrite (mine_block_enough _ _ _ _ _ Hge Hl).
    rewrite proof_of_work_short; [reflexivity|].
    intros k Hk. apply Hfirst. lia.
Qed.

Lemma mined_nonce_is_least_witness :
  exists block,
    chain Samples.mined = chain Samples.ready ++ [block]
    /\ 0 <= nonce block <= 10
    /\ (forall n, 0 <= n < nonce block -> meets_target 4 (with_nonce block n) = false)
    /\ (forall turns, (turns < Z.to_nat (nonce block))%nat ->
          fst (fst (mine_block turns Samples.ready Samples.miner Samples.w1))
          = OutOfFuel).
Proof.
  destruct ready_mined as [w' Hrun].
  destruct (mined_nonce_is_least _ _ _ _ _ _ _ Hrun)
    as (block & Hc & Hn & _ & Hfirst & _ & _ & Hshort).
  exists block. split; [exact Hc|]. split; [exact Hn|].
  split; [exact Hfirst|exact Hshort].
Defined.

Lemma take_length_exact n :
  forall s, (n <= String.length s)%nat -> String.length (PyStr.take n s) = n.
Proof.
  induction n as [|n IH]; intros s H; [reflexivity|].
  destruct s as [|c s]; simpl in *; [lia|]. rewrite IH; lia.
Qed.

(** The loop test on a hash of 64 characters, by the difficulty. *)
Lemma meets_target_by_difficulty d b :
  String.length (hash b) = 64%nat ->
  meets_target d b = (d =? 0) || (d <=? -64) || ((0 <? d) && (d <=? 64) && meets_target d b).
Proof.
  intros Hlen.
  destruct (Z.eqb_spec d 0) as [->|Hz]; [reflexivity|].
  destruct (Z.leb_spec d (-64)) as [Hlow|Hlow]; simpl.
  - unfold meets_target, PyStr.slice_to, PyStr.repeat.
    destruct (0 <=? d) eqn:E; [apply Z.leb_le in E; lia|].
    rewrite Hlen. replace (64 - Z.to_nat (- d))%nat with O by lia.
    replace (Z.to_nat d) with O by lia. reflexivity.
  - destruct (Z.ltb_spec 0 d) as [Hpos|Hneg]; simpl.
    + destruct (Z.leb_spec d 64) as [Hle|Hgt]; simpl; [reflexivity|].
      apply meets_target_too_long. rewrite Hlen. lia.
    + apply String.eqb_neq. intros H. apply (f_equal String.length) in H.
      unfold PyStr.slice_to, PyStr.repeat in H.
      destruct (0 <=? d) eqn:E; [apply Z.leb_le in E; lia|].
      rewrite take_length_exact in H by lia.
      rewrite replicate_length in H. lia.
Qed.

(** [self.difficulty = d] *)
Definition with_difficulty (d : Z) (self : VirtusWorkChain) : VirtusWorkChain :=
  mkChain (chain self) d (pending_transactions self)
          (pending_task_certificates self)
          (min_task_certificates_per_block self) (mining_reward self).

Lemma proof_of_work_never fuel d :
  (64 < d \/ -64 < d < 0) ->
  forall b, String.length (hash b) = 64%nat -> proof_of_work fuel d b = None.
Proof.
  intros Hd. induction fuel as [|fuel IH]; intros b Hb; simpl;
    rewrite (meets_target_by_difficulty d b Hb);
    (replace (d =? 0) with false by (symmetry; apply Z.eqb_neq; lia));
    (replace (d <=? -64) with false by (symmetry; apply Z.leb_gt; lia));
    (replace ((0 <? d) && (d <=? 64)) with false
      by (symmetry; destruct Hd; [rewrite (proj2 (Z.leb_gt d 64)) by lia; apply andb_false_r
                                 |rewrite (proj2 (Z.ltb_ge 0 d)) by lia; reflexivity]));
    simpl; [reflexivity|].
  apply IH. apply sha256_hexdigest_length.
Qed.

(** X8: the difficulty decides whether the search can end at all.  With a
    difficulty of 0, or of -64 or less, [mine_block] appends the block with
    nonce 0 without a turn of the loop; with a difficulty above 64, the
    length of a hash, or strictly between -64 and 0, the loop never ends,
    whatever the fuel. *)
Theorem mine_block_difficulty_bounds self miner_address w latest :
  min_task_certificates_per_block self
  <= PyList.len (pending_task_certificates self) ->
  get_latest_block self = Returned latest ->
  ((difficulty self = 0 \/ difficulty self <= -64) ->
   forall fuel,
     exists self' block,
       mine_block fuel self miner_address w = (Returned None, self', advance 3 w)
       /\ chain self' = chain self ++ [block]
       /\ nonce block = 0)
  /\ ((64 < difficulty self \/ -64 < difficulty self < 0) ->
      forall fuel, fst (fst (mine_block fuel self miner_address w)) = OutOfFuel).
Proof.
  intros Hge Hl. split.
  - intros Hd fuel.
    exists (after_mining self (candidate_block self miner_address latest (clock w O))),
           (candidate_block self miner_address latest (clock w O)).
    rewrite (mine_block_enough _ _ _ _ _ Hge Hl).
    assert (Hm : meets_target (difficulty self)
                   (candidate_block self miner_address latest (clock w O)) = true).
    { rewrite meets_target_by_difficulty by apply sha256_hexdigest_length.
      destruct Hd as [->|Hd]; [reflexivity|].
      rewrite (proj2 (Z.leb_le _ _) Hd). apply orb_true_iff. left.
      apply orb_true_r. }
    destruct fuel; simpl proof_of_work; rewrite Hm; repeat split.
  - intros Hd fuel. rewrite (mine_block_enough _ _ _ _ _ Hge Hl).
    rewrite proof_of_work_never; [reflexivity|exact Hd|].
    apply sha256_hexdigest_length.
Qed.

Lemma mine_block_difficulty_bounds_witness :
  (forall fuel,
      fst (fst (mine_block fuel (with_difficulty 65 Samples.ready)
                  Samples.miner Samples.w1)) = OutOfFuel)
  /\ (forall fuel,
        exists self' block,
          mine_block fuel (with_difficulty 0 Samples.ready) Samples.miner Samples.w1
          = (Returned None, self', advance 3 Samples.w1)
          /\ chain self' = chain (with_difficulty 0 Samples.ready) ++ [block]
          /\ nonce block = 0).
Proof.
  assert (Hl : forall d, get_latest_block (with_difficulty d Samples.ready)
                         = Returned Samples.genesis)
    by (intros d; vm_compute; reflexivity).
  assert (Hge : forall d,
             min_task_certificates_per_block (with_difficulty d Samples.ready)
             <= PyList.len (pending_task_certificates (with_difficulty d Samples.ready)))
    by (intros d; vm_compute; discriminate).
  split.
  - apply (proj2 (mine_block_difficulty_bounds (with_difficulty 65 Samples.ready)
                    Samples.miner Samples.w1 Samples.genesis (Hge 65) (Hl 65))).
    left. reflexivity.
  - apply (proj1 (mine_block_difficulty_bounds (with_difficulty 0 Samples.ready)
                    Samples.miner Samples.w1 Samples.genesis (Hge 0) (Hl 0))).
    left. reflexivity.
Defined.

(* ------------------------------------------------------------------ *)
(** ** Balances *)

(** What one transaction adds to the balance of [address]: minus the amount
    if it is the sender, plus the amount if it is the recipient, both if it
    is both. *)
Definition effect (address : string) (tx : Transaction) : Z :=
  (if String.eqb (sender tx) address then - amount tx else 0)
  + (if String.eqb (recipient tx) address then amount tx else 0).

Definition sum (l : list Z) : Z := fold_right Z.add 0 l.

(** What a list of transactions adds to the balance of [address]. *)
Definition net (address : string) (txs : list Transaction) : Z :=
  sum (map (effect address) txs).

Lemma sum_app l1 l2 : sum (l1 ++ l2) = sum l1 + sum l2.
Proof. induction l1 as [|x l1 IH]; simpl; [reflexivity|rewrite IH; lia]. Qed.

Lemma net_app address l1 l2 :
  net address (l1 ++ l2) = net address l1 + net address l2.
Proof. unfold net. rewrite map_app. apply sum_app. Qed.

Lemma balance_inner_loop address txs :
  forall balance,
    fold_left
      (fun balance tx =>
         let balance :=
           if String.eqb (sender tx) address then balance - amount tx
           else balance in
         if String.eqb (recipient tx) address then balance + amount tx
         else balance)
      txs balance
    = balance + net address txs.
Proof.
  induction txs as [|tx txs IH]; intros balance; simpl.
  - unfold net. simpl. lia.
  - rewrite IH. unfold net, effect. simpl.
    destruct (String.eqb (sender tx) address), (String.eqb (recipient tx) address); lia.
Qed.

(** The balance of [address] over a list of blocks. *)
Definition balance_over (address : string) (blocks : list Block) : Z :=
  sum (map (fun b => net address (transactions b)) blocks).

Lemma get_balance_sum self address :
  get_balance self address = balance_over address (chain self).
Proof.
  unfold get_balance, balance_over.
  assert (H : forall blocks balance,
             fold_left
               (fun balance block =>
                  fold_left
                    (fun balance tx =>
                       let balance :=
                         if String.eqb (sender tx) address then balance - amount tx
                         else balance in
                       if String.eqb (recipient tx) address then balance + amount tx
                       else balance)
                    (transactions block) balance)
               blocks balance
             = balance + sum (map (fun b => net address (transactions b)) blocks)).
  { induction blocks as [|b blocks IH]; intros balance; simpl; [lia|].
    rewrite IH, balance_inner_loop. lia. }
  rewrite H. lia.
Qed.

Lemma balance_over_app address l1 l2 :
  balance_over address (l1 ++ l2) = balance_over address l1 + balance_over address l2.
Proof. unfold balance_over. rewrite map_app. apply sum_app. Qed.

(** X9: when [mine_block] returns, the balance of every address has changed
    by what the transactions that were pending and the reward transaction
    add to it; no balance is looked at before (a sender may go below
    zero). *)
Theorem balance_after_mining fuel self miner_address w v self' w' address :
  mine_block fuel self miner_address w = (Returned v, self', w') ->
  get_balance self' address
  = get_balance self address
    + net address (pending_transactions self)
    + effect address (mkTransaction "network" miner_address (mining_reward self)).
Proof.
  intros H. apply mine_block_returned in H.
  destruct H as (_ & latest & block & _ & Hp & _ & ->).
  apply proof_of_work_sound in Hp.
  destruct Hp as (_ & _ & _ & _ & Htx & _).
  rewrite !get_balance_sum. unfold after_mining. cbn [chain].
  rewrite balance_over_app. unfold balance_over at 2. cbn [map sum fold_right].
  rewrite Htx. cbn [transactions candidate_block set_hash].
  rewrite net_app. unfold net at 2. simpl. unfold reward_transaction. lia.
Qed.

Lemma balance_after_mining_witness :
  get_balance Samples.mined "Alice" = -50
  /\ get_balance Samples.mined "Bob" = 20
  /\ get_balance Samples.mined Samples.miner = 5.
Proof.
  destruct ready_mined as [w' Hrun].
  pose proof (balance_after_mining _ _ _ _ _ _ _ "Alice" Hrun) as HA.
  pose proof (balance_after_mining _ _ _ _ _ _ _ "Bob" Hrun) as HB.
  pose proof (balance_after_mining _ _ _ _ _ _ _ Samples.miner Hrun) as HM.
  assert (EA : get_balance Samples.ready "Alice"
               + net "Alice" (pending_transactions Samples.ready)
               + effect "Alice"
                   (mkTransaction "network" Samples.miner (mining_reward Samples.ready))
               = -50) by (vm_compute; reflexivity).
  assert (EB : get_balance Samples.ready "Bob"
               + net "Bob" (pending_transactions Samples.ready)
               + effect "Bob"
                   (mkTransaction "network" Samples.miner (mining_reward Samples.ready))
               = 20) by (vm_compute; reflexivity).
  assert (EM : get_balance Samples.ready Samples.miner
               + net Samples.miner (pending_transactions Samples.ready)
               + effect Samples.miner
                   (mkTransaction "network" Samples.miner (mining_reward Samples.ready))
               = 5) by (vm_compute; reflexivity).
  split; [exact (eq_trans HA EA)|].
  split; [exact (eq_trans HB EB)|exact (eq_trans HM EM)].
Defined.

Lemma sum_map_add {A} (f g : A -> Z) l :
  sum (map (fun a => f a + g a) l) = sum (map f l) + sum (map g l).
Proof. induction l as [|a l IH]; simpl; [reflexivity|rewrite IH; lia]. Qed.

Lemma sum_map_zero {A} (f : A -> Z) l :
  (forall a, In a l -> f a = 0) -> sum (map f l) = 0.
Proof.
  induction l as [|a l IH]; intros H; simpl; [reflexivity|].
  rewrite (H a) by (left; reflexivity). rewrite IH; [reflexivity|].
  intros x Hx. apply H. right. exact Hx.
Qed.

Lemma sum_map_ext {A} (f g : A -> Z) l :
  (forall a, f a = g a) -> sum (map f l) = sum (map g l).
Proof. intros H. induction l as [|a l IH]; simpl; [reflexivity|rewrite H, IH; reflexivity]. Qed.

(** Among pairwise distinct addresses, one address is met once. *)
Lemma sum_at_one_address x v addresses :
  NoDup addresses -> In x addresses ->
  sum (map (fun a => if String.eqb x a then v else 0) addresses) = v.
Proof.
  induction addresses as [|a l IH]; intros Hnd Hin; [destruct Hin|].
  inversion Hnd as [|? ? Hnotin Hnd']; subst. simpl.
  destruct (String.eqb_spec x a) as [->|Hne].
  - rewrite sum_map_zero; [lia|].
    intros y Hy. destruct (String.eqb_spec a y) as [->|_]; [contradiction|reflexivity].
  - rewrite IH; [lia|exact Hnd'|]. destruct Hin; [congruence|assumption].
Qed.

Lemma effect_over_addresses tx addresses :
  NoDup addresses ->
  In (sender tx) addresses -> In (recipient tx) addresses ->
  sum (map (fun a => effect a tx) addresses) = 0.
Proof.
  intros Hnd Hs Hr. unfold effect.
  rewrite (sum_map_add
             (fun a => if String.eqb (sender tx) a then - amount tx else 0)
             (fun a => if String.eqb (recipient tx) a then amount tx else 0)).
  rewrite !sum_at_one_address by assumption. lia.
Qed.

Lemma net_over_addresses txs addresses :
  NoDup addresses ->
  (forall tx, In tx txs ->
              In (sender tx) addresses /\ In (recipient tx) addresses) ->
  sum (map (fun a => net a txs) addresses) = 0.
Proof.
  intros Hnd. induction txs as [|tx txs IH]; intros H.
  - apply sum_map_zero. reflexivity.
  - rewrite (sum_map_ext _ (fun a => effect a tx + net a txs)) by reflexivity.
    rewrite sum_map_add.
    rewrite effect_over_addresses; [|exact Hnd|apply H; left; reflexivity..].
    rewrite IH; [reflexivity|]. intros t Ht. apply H. right. exact Ht.
Qed.

(** X10: tokens are neither made nor lost by the ledger: over pairwise
    distinct addresses that include every sender and recipient of the
    chain, "network" among them when a block was mined, the balances add up
    to zero. *)
Theorem balances_sum_to_zero self addresses :
  NoDup addresses ->
  (forall block tx,
      In block (chain self) -> In tx (transactions block) ->
      In (sender tx) addresses /\ In (recipient tx) addresses) ->
  sum (map (get_balance self) addresses) = 0.
Proof.
  intros Hnd H.
  rewrite (sum_map_ext _ (fun a => balance_over a (chain self)))
    by (intros a; apply get_balance_sum).
  induction (chain self) as [|b blocks IH].
  - apply sum_map_zero. reflexivity.
  - rewrite (sum_map_ext _ (fun a => net a (transactions b) + balance_over a blocks))
      by reflexivity.
    rewrite sum_map_add.
    rewrite net_over_addresses;
      [|exact Hnd|intros tx Ht; apply (H b tx); [left; reflexivity|exact Ht]].
    rewrite IH; [reflexivity|].
    intros block tx Hb Ht. apply (H block tx); [right; exact Hb|exact Ht].
Qed.

Lemma balances_sum_to_zero_witness :
  sum (map (get_balance Samples.mined)
           ["Alice"; "Bob"; "Charlie"; "network"; Samples.miner]) = 0.
Proof.
  apply balances_sum_to_zero.
  - repeat constructor; vm_compute; intuition discriminate.
  - assert (H : forallb
                  (fun block =>
                     forallb
                       (fun tx =>
                          existsb (String.eqb (sender tx))
                                  ["Alice"; "Bob"; "Charlie"; "network"; Samples.miner]
                          && existsb (String.eqb (recipient tx))
                                     ["Alice"; "Bob"; "Charlie"; "network"; Samples.miner])
                       (transactions block))
                  (chain Samples.mined) = true) by (vm_compute; reflexivity).
    intros block tx Hb Ht.
    rewrite forallb_forall in H. specialize (H block Hb).
    rewrite forallb_forall in H. specialize (H tx Ht).
    apply andb_prop in H. destruct H as [H1 H2].
    apply existsb_exists in H1, H2.
    destruct H1 as (x & Hx & Ex). destruct H2 as (y & Hy & Ey).
    apply String.eqb_eq in Ex, Ey. subst x y. split; assumption.
Defined.

Lemma add_task_certificates_fields cs :
  forall self,
    fold_left add_task_certificate cs self
    = set_pending_task_certificates self (pending_task_certificates self ++ cs).
Proof.
  induction cs as [|c cs IH]; intros self; simpl.
  - rewrite app_nil_r. destruct self; reflexivity.
  - rewrite IH. unfold add_task_certificate, set_pending_task_certificates. simpl.
    rewrite <- app_assoc. reflexivity.
Qed.

Lemma net_rewards miner_address reward n :
  miner_address <> "network" ->
  net miner_address (List.repeat (mkTransaction "network" miner_address reward) n)
  = Z.of_nat n * reward.
Proof.
  intros Hne. induction n as [|n IH]; [reflexivity|].
  change (List.repeat (mkTransaction "network" miner_address reward) (S n))
    with ([mkTransaction "network" miner_address reward]
            ++ List.repeat (mkTransaction "network" miner_address reward) n).
  rewrite net_app, IH. unfold net, effect.
  cbn [map sum fold_right sender recipient amount].
  apply not_eq_sym in Hne. apply String.eqb_neq in Hne.
  rewrite Hne, String.eqb_refl. lia.
Qed.

(** X11: every failed call of [mine_block] is paid in the end.  After [n]
    calls that raised for want of certificates, enough certificates and a
    call by the same miner that returns, the appended block holds the
    transactions that were pending at the start followed by [n + 1] reward
    transactions, and the miner's balance has grown by [n + 1] times
    [mining_reward] on top of what those transactions add to it. *)
Theorem failed_attempts_are_paid n fuel fuel' self miner_address w cs w2 v self' w' :
  PyList.len (pending_task_certificates self)
  < min_task_certificates_per_block self ->
  mine_block fuel'
    (fold_left add_task_certificate cs (attempts n fuel self miner_address w))
    miner_address w2
  = (Returned v, self', w') ->
  exists block,
    chain self' = chain self ++ [block]
    /\ transactions block
       = pending_transactions self
           ++ List.repeat
                (mkTransaction "network" miner_address (mining_reward self)) (S n)
    /\ (miner_address <> "network" ->
        get_balance self' miner_address
        = get_balance self miner_address
          + net miner_address (pending_transactions self)
          + Z.of_nat (S n) * mining_reward self).
Proof.
  intros Hlt H.
  rewrite (attempts_shortfall _ _ _ _ _ Hlt), add_task_certificates_fields in H.
  apply mine_block_returned in H.
  destruct H as (_ & latest & block & _ & Hp & _ & ->).
  apply proof_of_work_sound in Hp. destruct Hp as (_ & _ & _ & _ & Htx & _).
  cbn [transactions candidate_block set_hash pending_transactions
       set_pending_transactions set_pending_task_certificates mining_reward
       reward_transaction] in Htx.
  assert (Hall : transactions block
                 = pending_transactions self
                     ++ List.repeat
                          (mkTransaction "network" miner_address (mining_reward self))
                          (S n)).
  { rewrite Htx, <- app_assoc. f_equal.
    unfold reward_transaction.
    change (S n) with (1 + n)%nat. rewrite Nat.add_comm, repeat_app. reflexivity. }
  exists block. split; [reflexivity|]. split; [exact Hall|].
  intros Hne. rewrite !get_balance_sum. unfold after_mining. cbn [chain].
  cbn [set_pending_task_certificates set_pending_transactions chain].
  rewrite balance_over_app. unfold balance_over at 2. cbn [map sum fold_right].
  rewrite Hall, net_app, net_rewards by exact Hne. lia.
Qed.

Module Retry.

(** A miner address for which the search below ends at nonce 5. *)
Definition miner : string := "miner8102".

(** A fresh chain after two calls of [mine_block] without certificates. *)
Definition twice_failed : VirtusWorkChain :=
  attempts 2 0 Samples.fresh miner Samples.w1.

(** Then five certificates and a third call. *)
Definition third_call : result (option Block) * VirtusWorkChain * World :=
  mine_block 10
    (fold_left add_task_certificate (map Samples.cert [0; 1; 2; 3; 4]) twice_failed)
    miner Samples.w1.

End Retry.

Lemma third_call_returns :
  exists w',
    mine_block 10
      (fold_left add_task_certificate (map Samples.cert [0; 1; 2; 3; 4])
         (attempts 2 0 Samples.fresh Retry.miner Samples.w1))
      Retry.miner Samples.w1
    = (Returned None, snd (fst Retry.third_call), w').
Proof.
  assert (E : fst (fst (mine_block 10
                          (fold_left add_task_certificate
                             (map Samples.cert [0; 1; 2; 3; 4])
                             (attempts 2 0 Samples.fresh Retry.miner Samples.w1))
                          Retry.miner Samples.w1)) = Returned None)
    by (vm_compute; reflexivity).
  unfold Retry.third_call, Retry.twice_failed.
  destruct (mine_block 10 _ Retry.miner Samples.w1) as [[r s] w'].
  simpl in E. subst r. exists w'. reflexivity.
Qed.

Lemma failed_attempts_are_paid_witness :
  get_balance Samples.fresh Retry.miner = 0
  /\ get_balance (snd (fst Retry.third_call)) Retry.miner = 15.
Proof.
  split; [vm_compute; reflexivity|].
  destruct third_call_returns as [w' Hrun].
  assert (Hlt : PyList.len (pending_task_certificates Samples.fresh)
                < min_task_certificates_per_block Samples.fresh)
    by (vm_compute; reflexivity).
  pose proof (failed_attempts_are_paid 2 0 10 Samples.fresh Retry.miner Samples.w1
                (map Samples.cert [0; 1; 2; 3; 4]) Samples.w1 None
                (snd (fst Retry.third_call)) w' Hlt Hrun) as H.
  destruct H as (block & _ & _ & Hbal).
  assert (Hne : Retry.miner <> "network") by discriminate.
  assert (E : get_balance Samples.fresh Retry.miner
              + net Retry.miner (pending_transactions Samples.fresh)
              + Z.of_nat 3 * mining_reward Samples.fresh = 15)
    by (vm_compute; reflexivity).
  exact (eq_trans (Hbal Hne) E).
Defined.

(* ------------------------------------------------------------------ *)
(** ** Nothing submitted is lost *)

(** A run of the three operations from the constructor, with the
    transactions queued so far (those submitted, and the reward of every
    call of [mine_block] that ended) and the certificates submitted so far,
    in order. *)
Inductive history :
  list Transaction -> list Certificate -> VirtusWorkChain -> Prop :=
| hist_init w : history [] [] (fst (VirtusWorkChain_init w))
| hist_add_transaction txs cs self sender recipient amount :
    history txs cs self ->
    history (txs ++ [mkTransaction sender recipient amount]) cs
            (add_transaction self sender recipient amount)
| hist_add_task_certificate txs cs self certificate :
    history txs cs self ->
    history txs (cs ++ [certificate]) (add_task_certificate self certificate)
| hist_mine_block txs cs self fuel miner_address w r self' w' :
    history txs cs self ->
    mine_block fuel self miner_address w = (r, self', w') ->
    r <> OutOfFuel ->
    history (txs ++ [mkTransaction "network" miner_address (mining_reward self)])
            cs self'.

Lemma history_reachable txs cs self : history txs cs self -> reachable self.
Proof.
  induction 1 as [w | txs cs self s r a _ IH | txs cs self c _ IH
                  | txs cs self fuel m w r self' w' _ IH Hmine Hr].
  - apply reach_init.
  - apply reach_add_transaction, IH.
  - apply reach_add_task_certificate, IH.
  - eapply reach_mine_block; eassumption.
Qed.

Lemma flat_map_snoc {A B} (f : A -> list B) l x :
  flat_map f (l ++ [x]) = flat_map f l ++ f x.
Proof. rewrite flat_map_app. simpl. rewrite app_nil_r. reflexivity. Qed.

(** X12: nothing submitted is lost, duplicated or reordered.  In every
    state of a run, the transactions of the blocks in chain order followed by
    the pending transactions are exactly the transactions queued so far, and
    the certificates of the blocks followed by the pending certificates are
    exactly the certificates submitted so far. *)
Theorem history_conserved txs cs self :
  history txs cs self ->
  flat_map transactions (chain self) ++ pending_transactions self = txs
  /\ flat_map task_certificates (chain self) ++ pending_task_certificates self = cs.
Proof.
  induction 1 as [w | txs cs self s r a H IH | txs cs self c H IH
                  | txs cs self fuel m w r self' w' H IH Hmine Hr].
  - split; reflexivity.
  - destruct IH as [IHt IHc]. split; [|exact IHc].
    unfold add_transaction. cbn [chain pending_transactions set_pending_transactions].
    rewrite app_assoc, IHt. reflexivity.
  - destruct IH as [IHt IHc]. split; [exact IHt|].
    unfold add_task_certificate.
    cbn [chain pending_task_certificates set_pending_task_certificates].
    rewrite app_assoc, IHc. reflexivity.
  - destruct IH as [IHt IHc].
    pose proof (reachable_invariant _ (history_reachable _ _ _ H)) as Hinv.
    apply mine_block_cases in Hmine.
    destruct Hmine as [(_ & _ & ->) | [(_ & Hc & _) | [(_ & Hf) | (Hge & latest & block & Hl & Hp & _ & ->)]]].
    + unfold after_shortfall, reward_transaction.
      cbn [chain pending_transactions pending_task_certificates set_pending_transactions].
      split; [rewrite app_assoc, IHt; reflexivity|exact IHc].
    + destruct Hinv as [(w0 & rest & Hg) _ _ _ _]. congruence.
    + contradiction.
    + apply proof_of_work_sound in Hp.
      destruct Hp as (_ & _ & _ & _ & Htx & Hcerts & _).
      cbn [transactions task_certificates candidate_block set_hash] in Htx, Hcerts.
      unfold after_mining.
      cbn [chain pending_transactions pending_task_certificates].
      rewrite !flat_map_snoc, Htx, Hcerts. unfold reward_transaction. split.
      * rewrite app_nil_r, app_assoc, IHt. reflexivity.
      * rewrite <- app_assoc, slice_app. exact IHc.
Qed.

Lemma mined_history :
  history [mkTransaction "Alice" "Bob" 50; mkTransaction "Bob" "Charlie" 30;
           mkTransaction "network" Samples.miner 5]
          (map Samples.cert [0; 1; 2; 3; 4; 5]) Samples.mined.
Proof.
  destruct ready_mined as [w' Hrun].
  apply (hist_mine_block
           [mkTransaction "Alice" "Bob" 50; mkTransaction "Bob" "Charlie" 30]
           (map Samples.cert [0; 1; 2; 3; 4; 5])
           Samples.ready 10 Samples.miner Samples.w1 (Returned None)
           Samples.mined w');
    [|exact Hrun|discriminate].
  unfold Samples.ready. cbn [map fold_left].
  apply (hist_add_transaction [mkTransaction "Alice" "Bob" 50]).
  apply (hist_add_transaction []).
  apply (hist_add_task_certificate [] (map Samples.cert [0; 1; 2; 3; 4])).
  apply (hist_add_task_certificate [] (map Samples.cert [0; 1; 2; 3])).
  apply (hist_add_task_certificate [] (map Samples.cert [0; 1; 2])).
  apply (hist_add_task_certificate [] (map Samples.cert [0; 1])).
  apply (hist_add_task_certificate [] (map Samples.cert [0])).
  apply (hist_add_task_certificate [] []).
  apply hist_init.
Qed.

Lemma history_conserved_witness :
  flat_map transactions (chain Samples.mined) ++ pending_transactions Samples.mined
  = [mkTransaction "Alice" "Bob" 50; mkTransaction "Bob" "Charlie" 30;
     mkTransaction "network" Samples.miner 5]
  /\ flat_map task_certificates (chain Samples.mined)
       ++ pending_task_certificates Samples.mined
     = map Samples.cert [0; 1; 2; 3; 4; 5].
Proof. exact (history_conserved _ _ _ mined_history). Defined.

(* ------------------------------------------------------------------ *)
(** ** What every mined block of a chain looks like *)

(** What [mine_block] leaves in a block, under the constructor's settings. *)
Definition mined_shape (b : Block) : Prop :=
  sealed b
  /\ meets_target 4 b = true
  /\ PyList.len (task_certificates b) = 5
  /\ 0 <= nonce b
  /\ exists txs miner_address,
       transactions b = txs ++ [mkTransaction "network" miner_address 5].

Record settled (self : VirtusWorkChain) : Prop := mkSettled
  { settled_difficulty : difficulty self = 4;
    settled_min : min_task_certificates_per_block self = 5;
    settled_reward : mining_reward self = 5;
    settled_chain : chain self <> [];
    settled_blocks :
      forall i b, nth_error (chain self) (S i) = Some b -> mined_shape b }.

Lemma settled_after_mining self miner latest now fuel block :
  settled self ->
  min_task_certificates_per_block self <= PyList.len (pending_task_certificates self) ->
  proof_of_work fuel (difficulty self) (candidate_block self miner latest now) = Some block ->
  settled (after_mining self block).
Proof.
  intros [Hd Hm Hr Hne Hb] Hge Hpow.
  apply proof_of_work_sound in Hpow.
  destruct Hpow as (Hmeets & Hs & _ & _ & Htx & Hcerts & _ & Hn).
  specialize (Hs (candidate_block_sealed _ _ _ _)).
  cbn [transactions task_certificates nonce candidate_block set_hash] in Htx, Hcerts, Hn.
  split; try assumption.
  - unfold after_mining. cbn [chain]. destruct (chain self); discriminate.
  - intros i b Hi. unfold after_mining in Hi. cbn [chain] in Hi.
    destruct (Nat.lt_ge_cases (S i) (List.length (chain self))) as [Hlt|Hlt].
    + rewrite nth_error_app1 in Hi by exact Hlt. eapply Hb, Hi.
    + rewrite nth_error_app2 in Hi by exact Hlt.
      destruct (S i - List.length (chain self))%nat as [|j]; simpl in Hi;
        [|destruct j; discriminate].
      injection Hi as <-. unfold mined_shape.
      split; [exact Hs|]. split; [rewrite <- Hd; exact Hmeets|].
      split; [rewrite Hcerts, <- Hm; apply slice_to_length; lia|].
      split; [exact Hn|].
      exists (pending_transactions self), miner.
      rewrite Htx. unfold reward_transaction. rewrite Hr. reflexivity.
Qed.

Lemma reachable_settled self : reachable self -> settled self.
Proof.
  induction 1 as [w | self s r a _ IH | self c _ IH
                  | self fuel miner w r self' w' _ IH Hmine Hr].
  - split; try reflexivity; [discriminate|].
    intros i b H. destruct i; discriminate.
  - destruct IH. split; assumption.
  - destruct IH. split; assumption.
  - apply mine_block_cases in Hmine.
    destruct Hmine as [(_ & _ & ->) | [(_ & Hc & _) | [(_ & Hf) | (Hge & latest & block & Hl & Hp & _ & ->)]]].
    + destruct IH. split; assumption.
    + destruct IH as [_ _ _ Hne _]. contradiction.
    + contradiction.
    + eapply settled_after_mining; eassumption.
Qed.

(** X13: on every chain object reached from the constructor by the three
    operations, the settings are still 4, 5 and 5, and every block after the
    genesis block stores the hash of its content, has a hash with at least
    four leading zeros, holds exactly five certificates, has a nonce that is
    not negative and ends with a reward transaction of 5 from "network". *)
Theorem reachable_blocks_mined self :
  reachable self ->
  difficulty self = 4
  /\ min_task_certificates_per_block self = 5
  /\ mining_reward self = 5
  /\ forall i b,
       nth_error (chain self) (S i) = Some b ->
       hash b = calculate_hash b
       /\ (4 <= PyStr.leading_zeros (hash b))%nat
       /\ List.length (task_certificates b) = 5%nat
       /\ 0 <= nonce b
       /\ exists txs miner_address,
            transactions b = txs ++ [mkTransaction "network" miner_address 5].
Proof.
  intros H. apply reachable_settled in H. destruct H as [Hd Hm Hr _ Hb].
  split; [exact Hd|]. split; [exact Hm|]. split; [exact Hr|].
  intros i b Hi. destruct (Hb i b Hi) as (Hs & Ht & Hc & Hn & Htx).
  split; [exact Hs|].
  split; [apply meets_target_leading_zeros in Ht; lia|].
  split; [unfold PyList.len in Hc; lia|]. split; assumption.
Qed.

Lemma reachable_blocks_mined_witness :
  reachable Samples.mined
  /\ forall i b,
       nth_error (chain Samples.mined) (S i) = Some b ->
       (4 <= PyStr.leading_zeros (hash b))%nat
       /\ List.length (task_certificates b) = 5%nat.
Proof.
  split; [exact mined_reachable|].
  intros i b Hi.
  destruct (reachable_blocks_mined Samples.mined mined_reachable)
    as (_ & _ & _ & Hb).
  destruct (Hb i b Hi) as (_ & Hz & Hc & _). split; assumption.
Defined.

(* ------------------------------------------------------------------ *)
(** ** More on the stake ledger: deposits, round trips, the total *)

Lemma lookup_Some_In k v d : lookup k d = Some v -> In k (keys d).
Proof.
  intros H. destruct (in_dec string_dec k (keys d)) as [Hin|Hout]; [exact Hin|].
  apply lookup_None_iff in Hout. congruence.
Qed.

Lemma store_absent k v d : ~ In k (keys d) -> store k v d = d ++ [(k, v)].
Proof.
  induction d as [|[k0 v0] d IH]; simpl; intros H; [reflexivity|].
  destruct (String.eqb_spec k k0) as [->|Hne]; [tauto|].
  rewrite IH by tauto. reflexivity.
Qed.

Lemma store_same k v d : lookup k d = Some v -> store k v d = d.
Proof.
  induction d as [|[k0 v0] d IH]; simpl; [discriminate|].
  destruct (String.eqb_spec k k0) as [->|Hne]; intros H.
  - injection H as ->. reflexivity.
  - rewrite IH by exact H. reflexivity.
Qed.

Lemma store_store k v v' d : store k v' (store k v d) = store k v' d.
Proof.
  induction d as [|[k0 v0] d IH]; simpl.
  - rewrite String.eqb_refl. reflexivity.
  - destruct (String.eqb k k0) eqn:E; simpl; rewrite E; [reflexivity|].
    rewrite IH. reflexivity.
Qed.

Lemma delete_absent k d : ~ In k (keys d) -> delete k d = d.
Proof.
  induction d as [|[k0 v0] d IH]; simpl; intros H; [reflexivity|].
  destruct (String.eqb_spec k k0) as [->|Hne]; [tauto|].
  rewrite IH by tauto. reflexivity.
Qed.

Lemma delete_last k v d : ~ In k (keys d) -> delete k (d ++ [(k, v)]) = d.
Proof.
  induction d as [|[k0 v0] d IH]; simpl; intros H.
  - rewrite String.eqb_refl. reflexivity.
  - destruct (String.eqb_spec k k0) as [->|Hne]; [tauto|].
    rewrite IH by tauto. reflexivity.
Qed.

Lemma total_from d : fold_left Z.add (values d) 0 = sum (values d).
Proof.
  unfold values. induction d as [|[k v] d IH]; [reflexivity|].
  simpl. rewrite fold_left_add_from, IH. lia.
Qed.

Lemma sum_store_present k v old d :
  lookup k d = Some old ->
  sum (values (store k v d)) = sum (values d) - old + v.
Proof.
  unfold values. induction d as [|[k0 v0] d IH]; simpl; [discriminate|].
  destruct (String.eqb k k0); intros H; simpl.
  - injection H as ->. lia.
  - rewrite IH by exact H. lia.
Qed.

Lemma sum_store_absent k v d :
  lookup k d = None -> sum (values (store k v d)) = sum (values d) + v.
Proof.
  intros H. apply lookup_None_iff in H. rewrite store_absent by exact H.
  unfold values. rewrite map_app, sum_app. simpl. lia.
Qed.

Lemma sum_delete k old d :
  lookup k d = Some old -> sum (values (delete k d)) = sum (values d) - old.
Proof.
  unfold values. induction d as [|[k0 v0] d IH]; simpl; [discriminate|].
  destruct (String.eqb k k0); intros H; simpl.
  - injection H as ->. lia.
  - rewrite IH by exact H. lia.
Qed.

(** X14: [add_staker] raises "Stake must be at least ..." exactly when the
    amount is below [min_stake], and then leaves the ledger as it was;
    otherwise it adds the amount to the stake of a key that is present,
    which keeps its place in the iteration order, or appends a new key with
    the amount at the end; the other entries are as before and the keys stay
    pairwise distinct. *)
Theorem add_staker_spec self public_key amount :
  well_formed (stakers self) ->
  (amount < min_stake self ->
   add_staker self public_key amount
   = (Raised (ValueError ("Stake must be at least "
                ++ PyStr.of_int (min_stake self) ++ " tokens")), self))
  /\ (min_stake self <= amount ->
      exists self',
        add_staker self public_key amount = (Returned tt, self')
        /\ min_stake self' = min_stake self
        /\ well_formed (stakers self')
        /\ (forall other, other <> public_key ->
              lookup other (stakers self') = lookup other (stakers self))
        /\ (forall stake,
              lookup public_key (stakers self) = Some stake ->
              lookup public_key (stakers self') = Some (stake + amount)
              /\ keys (stakers self') = keys (stakers self))
        /\ (lookup public_key (stakers self) = None ->
            stakers self' = stakers self ++ [(public_key, amount)])).
Proof.
  intros Hwf. unfold add_staker. split.
  - intros H. apply Z.ltb_lt in H. rewrite H. reflexivity.
  - intros H. apply Z.ltb_ge in H. rewrite H.
    destruct (lookup public_key (stakers self)) as [stake|] eqn:Hl.
    + eexists. split; [reflexivity|]. cbn [stakers min_stake].
      split; [reflexivity|].
      split; [unfold well_formed; rewrite keys_store_present;
              [exact Hwf|eapply lookup_Some_In, Hl]|].
      split; [intros other Ho; apply lookup_store_other, Ho|].
      split; [|discriminate].
      intros s Hs. injection Hs as <-.
      split; [apply lookup_store_same|].
      apply keys_store_present. eapply lookup_Some_In, Hl.
    + eexists. split; [reflexivity|]. cbn [stakers min_stake].
      pose proof (proj1 (lookup_None_iff _ _) Hl) as Hout.
      split; [reflexivity|].
      split.
      { unfold well_formed, keys. rewrite store_absent by exact Hout.
        rewrite map_app. simpl. apply NoDup_app; [exact Hwf| |].
        - constructor; [simpl; tauto|constructor].
        - intros x Hx [Hy|[]]. subst x. exact (Hout Hx). }
      split; [intros other Ho; apply lookup_store_other, Ho|].
      split; [discriminate|].
      intros _. apply store_absent, Hout.
Qed.

Lemma add_staker_spec_witness :
  well_formed (stakers Samples.two_stakers)
  /\ add_staker Samples.two_stakers "C" 9
     = (Raised (ValueError "Stake must be at least 10 tokens"), Samples.two_stakers)
  /\ exists self',
       add_staker Samples.two_stakers "A" 10 = (Returned tt, self')
       /\ stakers self' = [("A", 100); ("B", 10)].
Proof.
  split; [exact two_stakers_well_formed|].
  split.
  - apply (proj1 (add_staker_spec Samples.two_stakers "C" 9 two_stakers_well_formed)).
    reflexivity.
  - destruct (proj2 (add_staker_spec Samples.two_stakers "A" 10 two_stakers_well_formed))
      as (self' & Hrun & _); [discriminate|].
    exists self'. split; [exact Hrun|].
    injection Hrun as <-. reflexivity.
Defined.

(** X15: a deposit followed by the withdrawal of the same amount gives the
    ledger back as it was, entry for entry and in the same order, when the
    stake of the key, if present, is positive. *)
Theorem add_then_remove self public_key amount :
  well_formed (stakers self) ->
  min_stake self <= amount ->
  (forall stake, lookup public_key (stakers self) = Some stake -> 0 < stake) ->
  remove_staker (snd (add_staker self public_key amount)) public_key amount
  = (Returned tt, self).
Proof.
  intros Hwf Hmin Hpos. unfold add_staker.
  apply Z.ltb_ge in Hmin. rewrite Hmin.
  destruct (lookup public_key (stakers self)) as [stake|] eqn:Hl;
    cbn [snd]; unfold remove_staker; cbn [stakers min_stake].
  - specialize (Hpos stake eq_refl).
    rewrite lookup_store_same.
    replace (stake + amount <? amount) with false by (symmetry; apply Z.ltb_ge; lia).
    replace (stake + amount - amount) with stake by lia.
    replace (stake =? 0) with false by (symmetry; apply Z.eqb_neq; lia).
    rewrite store_store, (store_same _ _ _ Hl). destruct self; reflexivity.
  - pose proof (proj1 (lookup_None_iff _ _) Hl) as Hout.
    rewrite lookup_store_same, Z.ltb_irrefl, Z.sub_diag. cbn [Z.eqb].
    rewrite store_store, (store_absent _ _ _ Hout), (delete_last _ _ _ Hout).
    destruct self; reflexivity.
Qed.

Lemma add_then_remove_witness :
  remove_staker (snd (add_staker Samples.two_stakers "C" 25)) "C" 25
  = (Returned tt, Samples.two_stakers)
  /\ remove_staker (snd (add_staker Samples.two_stakers "A" 25)) "A" 25
     = (Returned tt, Samples.two_stakers).
Proof.
  split.
  - apply (add_then_remove Samples.two_stakers "C" 25 two_stakers_well_formed);
      [discriminate|]. intros stake H. discriminate.
  - apply (add_then_remove Samples.two_stakers "A" 25 two_stakers_well_formed);
      [discriminate|]. intros stake H. injection H as <-. reflexivity.
Defined.

(** X16: a withdrawal followed by the deposit of the same amount gives the
    ledger back when something of the stake was left; when the whole stake
    was withdrawn, the entry was removed, and the deposit puts the key back
    at the end of the iteration order. *)
Theorem remove_then_add self public_key amount stake :
  well_formed (stakers self) ->
  lookup public_key (stakers self) = Some stake ->
  min_stake self <= amount <= stake ->
  (amount < stake ->
   add_staker (snd (remove_staker self public_key amount)) public_key amount
   = (Returned tt, self))
  /\ (amount = stake ->
      add_staker (snd (remove_staker self public_key amount)) public_key amount
      = (Returned tt,
         mkPoS (delete public_key (stakers self) ++ [(public_key, amount)])
               (min_stake self))).
Proof.
  intros Hwf Hl [Hmin Hle]. unfold remove_staker. rewrite Hl.
  replace (stake <? amount) with false by (symmetry; apply Z.ltb_ge; lia).
  apply Z.ltb_ge in Hmin. split; intros H.
  - replace (stake - amount =? 0) with false by (symmetry; apply Z.eqb_neq; lia).
    cbn [snd]. unfold add_staker. cbn [stakers min_stake]. rewrite Hmin.
    rewrite lookup_store_same, store_store.
    replace (stake - amount + amount) with stake by lia.
    rewrite (store_same _ _ _ Hl). destruct self; reflexivity.
  - subst amount. rewrite Z.sub_diag. cbn [Z.eqb snd].
    unfold add_staker. cbn [stakers min_stake]. rewrite Hmin.
    assert (Hwf1 : well_formed (store public_key 0 (stakers self))).
    { unfold well_formed. rewrite keys_store_present; [exact Hwf|].
      eapply lookup_Some_In, Hl. }
    pose proof (delete_removes public_key _ Hwf1) as Hout.
    rewrite (proj2 (lookup_None_iff _ _) Hout).
    rewrite (store_absent _ _ _ Hout).
    assert (Hd : forall d, delete public_key (store public_key 0 d) = delete public_key d).
    { clear. induction d as [|[k0 v0] d IH]; simpl.
      - rewrite String.eqb_refl. reflexivity.
      - destruct (String.eqb public_key k0) eqn:E; simpl; rewrite E; [reflexivity|].
        rewrite IH. reflexivity. }
    rewrite Hd. reflexivity.
Qed.

Lemma remove_then_add_witness :
  add_staker (snd (remove_staker Samples.two_stakers "A" 90)) "A" 90
  = (Returned tt, mkPoS [("B", 10); ("A", 90)] 10)
  /\ add_staker (snd (remove_staker Samples.two_stakers "A" 50)) "A" 50
     = (Returned tt, Samples.two_stakers).
Proof.
  split.
  - apply (proj2 (remove_then_add Samples.two_stakers "A" 90 90
                    two_stakers_well_formed eq_refl
                    (conj (Zle_bool_imp_le 10 90 eq_refl) (Z.le_refl 90)))).
    reflexivity.
  - apply (proj1 (remove_then_add Samples.two_stakers "A" 50 90
                    two_stakers_well_formed eq_refl
                    (conj (Zle_bool_imp_le 10 50 eq_refl)
                          (Zle_bool_imp_le 50 90 eq_refl)))).
    reflexivity.
Defined.

(** X17: the total stake moves by what was deposited or withdrawn: a
    deposit that is accepted adds the amount, a withdrawal that is accepted
    subtracts it, and a call that raises leaves the total as it was. *)
Theorem total_stake_accounts self public_key amount :
  (forall self', add_staker self public_key amount = (Returned tt, self') ->
                 total_stake self' = total_stake self + amount)
  /\ (forall self', remove_staker self public_key amount = (Returned tt, self') ->
                    total_stake self' = total_stake self - amount)
  /\ (forall e self', add_staker self public_key amount = (Raised e, self') ->
                      total_stake self' = total_stake self)
  /\ (forall e self', remove_staker self public_key amount = (Raised e, self') ->
                      total_stake self' = total_stake self).
Proof.
  unfold total_stake, add_staker, remove_staker. rewrite !total_from.
  destruct (lookup public_key (stakers self)) as [stake|] eqn:Hl.
  - repeat split; intros.
    + destruct (amount <? min_stake self); [discriminate|].
      injection H as <-. cbn [stakers]. rewrite total_from.
      rewrite (sum_store_present _ _ _ _ Hl). lia.
    + destruct (stake <? amount); [discriminate|].
      destruct (stake - amount =? 0) eqn:Hz; injection H as <-; cbn [stakers];
        rewrite total_from.
      * rewrite (sum_delete _ (stake - amount)) by apply lookup_store_same.
        rewrite (sum_store_present _ _ _ _ Hl). lia.
      * rewrite (sum_store_present _ _ _ _ Hl). lia.
    + destruct (amount <? min_stake self); [|discriminate].
      injection H as _ <-. rewrite total_from. reflexivity.
    + destruct (stake <? amount);
        [|destruct (stake - amount =? 0); discriminate].
      injection H as _ <-. rewrite total_from. reflexivity.
  - repeat split; intros.
    + destruct (amount <? min_stake self); [discriminate|].
      injection H as <-. cbn [stakers]. rewrite total_from.
      rewrite (sum_store_absent _ _ _ Hl). lia.
    + discriminate.
    + destruct (amount <? min_stake self); [|discriminate].
      injection H as _ <-. rewrite total_from. reflexivity.
    + injection H as _ <-. rewrite total_from. reflexivity.
Qed.

(** The ledgers a program can build from [ProofOfStake()] with [add_staker]
    and [remove_staker], whether the calls return or raise. *)
Inductive reachable_ledger : ProofOfStake -> Prop :=
| ledger_init : reachable_ledger ProofOfStake_init
| ledger_add self public_key amount :
    reachable_ledger self ->
    reachable_ledger (snd (add_staker self public_key amount))
| ledger_remove self public_key amount :
    reachable_ledger self ->
    reachable_ledger (snd (remove_staker self public_key amount)).

Lemma lookup_In k v d : lookup k d = Some v -> In (k, v) d.
Proof.
  induction d as [|[k0 v0] d IH]; simpl; [discriminate|].
  destruct (String.eqb_spec k k0) as [->|Hne]; intros H.
  - injection H as ->. left. reflexivity.
  - right. apply IH, H.
Qed.

Lemma In_lookup k v d : well_formed d -> In (k, v) d -> lookup k d = Some v.
Proof.
  unfold well_formed. induction d as [|[k0 v0] d IH]; simpl; intros Hwf H; [destruct H|].
  inversion Hwf as [|? ? Hnotin Hnd]; subst.
  destruct H as [H|H].
  - injection H as -> ->. rewrite String.eqb_refl. reflexivity.
  - destruct (String.eqb_spec k k0) as [->|Hne]; [|apply IH; assumption].
    exfalso. apply Hnotin. change (In (fst (k0, v)) (map fst d)).
    apply in_map, H.
Qed.

(** X18: in every ledger built from an empty one by deposits and
    withdrawals, [min_stake] is 10, the keys are pairwise distinct and every
    stake is positive: a key is present only while it holds a stake. *)
Theorem reachable_ledger_positive self :
  reachable_ledger self ->
  min_stake self = 10
  /\ well_formed (stakers self)
  /\ forall public_key stake,
       lookup public_key (stakers self) = Some stake -> 0 < stake.
Proof.
  induction 1 as [| self pk amount _ IH | self pk amount _ IH].
  - split; [reflexivity|]. split; [constructor|]. intros pk s H. discriminate.
  - destruct IH as (Hmin & Hwf & Hpos).
    split; [unfold add_staker; destruct (amount <? min_stake self);
            [exact Hmin|destruct (lookup pk (stakers self)); exact Hmin]|].
    split; [apply add_staker_well_formed, Hwf|].
    unfold add_staker. destruct (amount <? min_stake self) eqn:Ha; [exact Hpos|].
    apply Z.ltb_ge in Ha. rewrite Hmin in Ha.
    intros k s Hk.
    destruct (string_dec k pk) as [->|Hne].
    + destruct (lookup pk (stakers self)) as [old|] eqn:Hl; cbn [snd stakers] in Hk;
        rewrite lookup_store_same in Hk; injection Hk as <-;
        [specialize (Hpos pk old Hl)|]; lia.
    + destruct (lookup pk (stakers self)) as [old|] eqn:Hl; cbn [snd stakers] in Hk;
        rewrite lookup_store_other in Hk by exact Hne; eapply Hpos, Hk.
  - destruct IH as (Hmin & Hwf & Hpos).
    unfold remove_staker.
    destruct (lookup pk (stakers self)) as [old|] eqn:Hl;
      [|split; [exact Hmin|split; [exact Hwf|exact Hpos]]].
    destruct (old <? amount) eqn:Ho;
      [split; [exact Hmin|split; [exact Hwf|exact Hpos]]|].
    apply Z.ltb_ge in Ho.
    assert (Hwf1 : well_formed (store pk (old - amount) (stakers self))).
    { unfold well_formed. rewrite keys_store_present; [exact Hwf|].
      eapply lookup_Some_In, Hl. }
    destruct (old - amount =? 0) eqn:Hz; cbn [snd stakers min_stake].
    + split; [exact Hmin|]. split; [apply delete_well_formed, Hwf1|].
      intros k s Hk. destruct (string_dec k pk) as [->|Hne].
      * pose proof (delete_removes pk _ Hwf1) as Hout.
        apply lookup_None_iff in Hout. congruence.
      * rewrite lookup_delete_other, lookup_store_other in Hk by exact Hne.
        eapply Hpos, Hk.
    + apply Z.eqb_neq in Hz.
      split; [exact Hmin|]. split; [exact Hwf1|].
      intros k s Hk. destruct (string_dec k pk) as [->|Hne].
      * rewrite lookup_store_same in Hk. injection Hk as <-. lia.
      * rewrite lookup_store_other in Hk by exact Hne. eapply Hpos, Hk.
Qed.

Lemma two_stakers_reachable : reachable_ledger Samples.two_stakers.
Proof.
  apply (ledger_add (mkPoS [("A", 90)] 10) "B" 10).
  apply (ledger_add ProofOfStake_init "A" 90).
  apply ledger_init.
Qed.

Lemma reachable_ledger_positive_witness :
  reachable_ledger Samples.two_stakers
  /\ forall public_key stake,
       lookup public_key (stakers Samples.two_stakers) = Some stake -> 0 < stake.
Proof.
  split; [exact two_stakers_reachable|].
  apply (reachable_ledger_positive Samples.two_stakers two_stakers_reachable).
Defined.

(** X19: [remove_staker] does not look at the sign of the amount: with a
    negative amount, on a key whose stake is not negative, it returns and
    the stake has grown by the absolute value of the amount, however small
    that is against [min_stake]. *)
Theorem remove_staker_negative_amount self public_key amount stake :
  lookup public_key (stakers self) = Some stake ->
  0 <= stake ->
  amount < 0 ->
  exists self',
    remove_staker self public_key amount = (Returned tt, self')
    /\ lookup public_key (stakers self') = Some (stake + Z.abs amount)
    /\ keys (stakers self') = keys (stakers self)
    /\ total_stake self' = total_stake self + Z.abs amount.
Proof.
  intros Hl Hs Ha. unfold remove_staker, total_stake. rewrite Hl.
  replace (stake <? amount) with false by (symmetry; apply Z.ltb_ge; lia).
  replace (stake - amount =? 0) with false by (symmetry; apply Z.eqb_neq; lia).
  eexists. split; [reflexivity|]. cbn [stakers].
  replace (stake + Z.abs amount) with (stake - amount) by lia.
  split; [apply lookup_store_same|].
  split; [apply keys_store_present; eapply lookup_Some_In, Hl|].
  rewrite !total_from, (sum_store_present _ _ _ _ Hl). lia.
Qed.

Lemma remove_staker_negative_amount_witness :
  exists self',
    remove_staker Samples.two_stakers "B" (-1) = (Returned tt, self')
    /\ stakers self' = [("A", 90); ("B", 11)].
Proof.
  destruct (remove_staker_negative_amount Samples.two_stakers "B" (-1) 10 eq_refl)
    as (self' & Hrun & _); [discriminate|reflexivity|].
  exists self'. split; [exact Hrun|]. injection Hrun as <-. reflexivity.
Defined.

Lemma cumulative_mono items :
  (forall key s, In (key, s) items -> 0 <= s) ->
  forall j k, (j <= k)%nat -> (k < List.length items)%nat ->
              cumulative items j <= cumulative items k.
Proof.
  induction items as [|[key0 s0] rest IH]; intros Hpos j k Hjk Hk; simpl in Hk; [lia|].
  assert (Hrest : forall key s, In (key, s) rest -> 0 <= s)
    by (intros key s H; apply (Hpos key s); right; exact H).
  destruct k as [|k].
  - replace j with O by lia. lia.
  - destruct j as [|j]; simpl.
    + assert (H0 : 0 <= cumulative rest k).
      { clear - Hrest Hk. revert k Hk.
        induction rest as [|[key1 s1] rest IH]; intros k Hk; simpl in *; [lia|].
        assert (0 <= s1) by (apply (Hrest key1); left; reflexivity).
        destruct k as [|k]; [lia|].
        assert (0 <= cumulative rest k);
          [apply IH; [intros key s H'; apply (Hrest key s); right; exact H'|lia]|lia]. }
      lia.
    + specialize (IH Hrest j k). lia.
Qed.

(** Stake accumulated before the entry at position [k]: the lower end of
    the entry's interval. *)
Definition before (items : ledger) (k : nat) : Z :=
  match k with
  | O => 0
  | S j => cumulative items j
  end.

(** The interval of an entry is as long as the entry's stake. *)
Lemma cumulative_before items :
  forall k key s,
    nth_error items k = Some (key, s) ->
    cumulative items k = before items k + s.
Proof.
  induction items as [|[key0 s0] rest IH]; intros k key s H.
  - destruct k; discriminate.
  - destruct k as [|k]; simpl in H.
    + injection H as _ <-. reflexivity.
    + specialize (IH _ _ _ H). cbn [cumulative before]. rewrite IH.
      destruct k as [|k]; cbn [before]; [lia|].
      cbn [cumulative]. lia.
Qed.

Lemma nth_error_keys (items : ledger) k key :
  nth_error (keys items) k = Some key ->
  exists s, nth_error items k = Some (key, s).
Proof.
  unfold keys. rewrite nth_error_map.
  destruct (nth_error items k) as [[key' s]|]; [|discriminate].
  intros H. injection H as <-. exists s. reflexivity.
Qed.

(** X20: on a ledger whose stakes are not negative and for a draw up to the
    total stake, [select_validator] returns a key exactly when the draw lies
    in the key's interval: above the stake accumulated before the key's
    entry (no lower bound for the first entry) and at most the stake
    accumulated through it.  The interval of an entry is as long as its
    stake: the stake accumulated through the entry is the stake accumulated
    before it, which is 0 for the first entry, plus the entry's stake; and a
    draw from 0 on that selects a key lies between these two ends. *)
Theorem select_validator_interval self selection public_key :
  (forall key s, In (key, s) (stakers self) -> 0 <= s) ->
  (selection <= inject_Z (total_stake self))%Q ->
  (select_validator self selection = Returned public_key
   <-> exists k,
         nth_error (keys (stakers self)) k = Some public_key
         /\ (k = O
             \/ (inject_Z (cumulative (stakers self) (k - 1)) < selection)%Q)
         /\ (selection <= inject_Z (cumulative (stakers self) k))%Q)
  /\ (forall k key s,
         nth_error (stakers self) k = Some (key, s) ->
         cumulative (stakers self) k - before (stakers self) k = s
         /\ before (stakers self) (S k) = cumulative (stakers self) k
         /\ before (stakers self) O = 0)
  /\ ((0 <= selection)%Q ->
      select_validator self selection = Returned public_key ->
      exists k s,
        nth_error (stakers self) k = Some (public_key, s)
        /\ (inject_Z (before (stakers self) k) <= selection)%Q
        /\ (selection <= inject_Z (before (stakers self) k + s))%Q).
Proof.
  intros Hpos Htotal.
  assert (Hiff :
    select_validator self selection = Returned public_key
    <-> exists k,
          nth_error (keys (stakers self)) k = Some public_key
          /\ (k = O
              \/ (inject_Z (cumulative (stakers self) (k - 1)) < selection)%Q)
          /\ (selection <= inject_Z (cumulative (stakers self) k))%Q).
  { unfold select_validator, total_stake in *.
    pose proof (walk_spec (stakers self) 0 selection) as Hw.
    pose proof (walk_within_total (stakers self) 0 selection) as Ht.
    destruct (stakers self) as [|entry rest] eqn:Hs.
    - split; [discriminate|]. intros (k & Hk & _). destruct k; discriminate.
    - specialize (Ht ltac:(discriminate) Htotal).
      destruct (walk (entry :: rest) 0 selection) as [pk|]; [|congruence].
      destruct Hw as (k0 & Hk0 & Hm0 & Hfirst). unfold met in *.
      cbn [Z.add] in *.
      split.
      + intros H. injection H as <-. exists k0. split; [exact Hk0|].
        split; [|exact Hm0].
        destruct k0 as [|k0]; [left; reflexivity|right].
        replace (S k0 - 1)%nat with k0 by lia.
        apply Qnot_le_lt. apply Hfirst. lia.
      + intros (k & Hk & Hlow & Hhigh). f_equal.
        assert (Hklen : (k < List.length (entry :: rest))%nat).
        { unfold keys in Hk. rewrite <- (length_map fst). apply nth_error_Some. congruence. }
        assert (Hle : (k0 <= k)%nat).
        { destruct (Nat.le_gt_cases k0 k) as [H|H]; [exact H|].
          exfalso. exact (Hfirst k H Hhigh). }
        assert (Hge : (k <= k0)%nat).
        { destruct (Nat.le_gt_cases k k0) as [H|H]; [exact H|].
          exfalso. destruct Hlow as [->|Hlow]; [lia|].
          assert (Hc : cumulative (entry :: rest) k0 <= cumulative (entry :: rest) (k - 1))
            by (apply cumulative_mono; [exact Hpos|lia|lia]).
          rewrite Zle_Qle in Hc.
          apply (Qlt_not_le _ _ Hlow). exact (Qle_trans _ _ _ Hm0 Hc). }
        assert (k0 = k) by lia. subst k0. congruence. }
  split; [exact Hiff|]. split.
  - intros k key s Hk. split; [|split; reflexivity].
    rewrite (cumulative_before _ _ _ _ Hk). lia.
  - intros Hzero Hsel. apply Hiff in Hsel.
    destruct Hsel as (k & Hk & Hlow & Hhigh).
    destruct (nth_error_keys _ _ _ Hk) as (s & Hks).
    exists k, s. split; [exact Hks|].
    rewrite <- (cumulative_before _ _ _ _ Hks). split; [|exact Hhigh].
    destruct k as [|k]; [exact Hzero|].
    destruct Hlow as [Hlow|Hlow]; [discriminate|].
    replace (S k - 1)%nat with k in Hlow by lia.
    apply Qlt_le_weak. exact Hlow.
Qed.

Lemma select_validator_interval_witness :
  (select_validator Samples.two_stakers (181 # 2) = Returned "B"
   <-> exists k,
         nth_error (keys (stakers Samples.two_stakers)) k = Some "B"
         /\ (k = O
             \/ (inject_Z (cumulative (stakers Samples.two_stakers) (k - 1))
                 < 181 # 2)%Q)
         /\ (181 # 2 <= inject_Z (cumulative (stakers Samples.two_stakers) k))%Q)
  /\ cumulative (stakers Samples.two_stakers) 1
     - before (stakers Samples.two_stakers) 1 = 10
  /\ exists k s,
       nth_error (stakers Samples.two_stakers) k = Some ("B", s)
       /\ (inject_Z (before (stakers Samples.two_stakers) k) <= 181 # 2)%Q
       /\ (181 # 2 <= inject_Z (before (stakers Samples.two_stakers) k + s))%Q.
Proof.
  destruct (select_validator_interval Samples.two_stakers (181 # 2) "B")
    as (Hiff & Hwidth & Hdraw).
  - intros key s [H|[H|[]]]; injection H as _ <-; discriminate.
  - vm_compute. discriminate.
  - split; [exact Hiff|]. split.
    + exact (proj1 (Hwidth 1%nat "B" 10 eq_refl)).
    + apply Hdraw; [vm_compute; discriminate|vm_compute; reflexivity].
Defined.

(* ------------------------------------------------------------------ *)
(** ** The issuers, once more *)

(** X21: [complete_task] never hands out a certificate: when validation
    passes, the call of [generate_certificate] raises [NameError], since
    [utils.py] does not import [time]; when validation fails, it returns
    [None].  The clock is not read in either case. *)
Theorem complete_task_never_issues task_id user_address task_data w :
  (luck w O = true ->
   fst (Task.complete_task task_id user_address task_data w)
   = Raised (NameError "name 'time' is not defined"))
  /\ (luck w O = false ->
      fst (Task.complete_task task_id user_address task_data w) = Returned None)
  /\ (forall certificate,
        fst (Task.complete_task task_id user_address task_data w)
        <> Returned (Some certificate))
  /\ clock (snd (Task.complete_task task_id user_address task_data w)) = clock w.
Proof.
  unfold Task.complete_task, Task.validate_task, bind, random_verdict.
  destruct (luck w O); repeat split; intros; try discriminate; reflexivity.
Qed.

(** X22: [generate_task_certificate] returns [None], without reading the
    clock, when validation fails; when it passes, it keeps the task and the
    user as given, reads the clock twice, and if the two readings are equal
    the certificate is the one the statements of [generate_certificate]
    build from that reading, whose signature is the hash of its own
    timestamp. *)
Theorem generate_task_certificate_outcome task_id user_address task_data w :
  (luck w O = false ->
   fst (generate_task_certificate task_id user_address task_data w) = None
   /\ clock (snd (generate_task_certificate task_id user_address task_data w))
      = clock w)
  /\ (luck w O = true ->
      (exists c,
          fst (generate_task_certificate task_id user_address task_data w) = Some c
          /\ Blockchain.task_id c = task_id
          /\ Blockchain.user_address c = user_address
          /\ cert_timestamp c = clock w 0%nat)
      /\ clock (snd (generate_task_certificate task_id user_address task_data w))
         = (fun n => clock w (2 + n)%nat)
      /\ (clock w 1%nat = clock w 0%nat ->
          fst (generate_task_certificate task_id user_address task_data w)
          = Some (fst (Utils.generate_certificate_body task_id user_address w)))).
Proof.
  unfold generate_task_certificate, validate_task, bind, random_verdict.
  split; intros H; rewrite H.
  - split; reflexivity.
  - split; [eexists; repeat split|]. split; [reflexivity|].
    intros Hc. unfold Utils.generate_certificate_body, bind, time_time, ret.
    cbn [fst clock]. rewrite Hc. reflexivity.
Qed.

Lemma generate_task_certificate_outcome_witness :
  exists c,
    fst (generate_task_certificate "task_0" "Alice" "Data for task_0" Samples.w_tick)
    = Some c
    /\ Blockchain.task_id c = "task_0"
    /\ Blockchain.user_address c = "Alice"
    /\ cert_timestamp c = clock Samples.w_tick 0%nat.
Proof.
  exact (proj1 (proj2 (generate_task_certificate_outcome
                         "task_0" "Alice" "Data for task_0" Samples.w_tick)
                      eq_refl)).
Defined.

(* ------------------------------------------------------------------ *)
(** ** The latest block *)

(** X23: [get_latest_block] never raises on a chain reached from the
    constructor, and after a returning call of [mine_block] it returns the
    block that call appended, which is how a caller gets at the mined
    block. *)
Theorem latest_block_after_mining fuel self miner_address w v self' w' :
  reachable self ->
  (exists latest, get_latest_block self = Returned latest)
  /\ (mine_block fuel self miner_address w = (Returned v, self', w') ->
      exists block,
        get_latest_block self' = Returned block
        /\ chain self' = chain self ++ [block]
        /\ meets_target (difficulty self) block = true).
Proof.
  intros Hr. apply reachable_settled in Hr. destruct Hr as [_ _ _ Hne _].
  split; [eexists; apply get_latest_block_last, Hne|].
  intros H. apply mine_block_returned in H.
  destruct H as (_ & latest & block & _ & Hp & _ & ->).
  apply proof_of_work_sound in Hp. destruct Hp as (Hm & _).
  exists block. split; [|split; [reflexivity|exact Hm]].
  unfold get_latest_block, after_mining. cbn [chain].
  rewrite rev_app_distr. reflexivity.
Qed.

Lemma latest_block_after_mining_witness :
  reachable Samples.ready
  /\ exists block,
       get_latest_block Samples.mined = Returned block
       /\ chain Samples.mined = chain Samples.ready ++ [block].
Proof.
  split; [exact ready_reachable|].
  destruct ready_mined as [w' Hrun].
  destruct (proj2 (latest_block_after_mining _ _ _ _ _ _ _ ready_reachable) Hrun)
    as (block & Hl & Hc & _).
  exists block. split; assumption.
Defined.

(* ------------------------------------------------------------------ *)
(** ** wallet.py *)

From Stdlib Require Import Permutation.

Module Wallets.

Record Wallet : Type := mkWallet { address : string; balance : Z }.

(** [Wallet.__init__] *)
Definition Wallet_init (address : string) : Wallet := mkWallet address 0.

(** [update_balance] *)
Definition update_balance (self : Wallet) (amount : Z) : Wallet :=
  mkWallet (address self) (balance self + amount).

End Wallets.

Lemma wallet_updates_from amounts :
  forall self,
    Wallets.address (fold_left Wallets.update_balance amounts self)
    = Wallets.address self
    /\ Wallets.balance (fold_left Wallets.update_balance amounts self)
       = Wallets.balance self + sum amounts.
Proof.
  induction amounts as [|a amounts IH]; intros self; simpl.
  - split; [reflexivity|lia].
  - destruct (IH (Wallets.update_balance self a)) as [Ha Hb].
    rewrite Ha, Hb. simpl. split; [reflexivity|lia].
Qed.

Lemma sum_permutation l l' : Permutation l l' -> sum l = sum l'.
Proof. induction 1; simpl; lia. Qed.

(** X24: a wallet keeps no history and sets no floor: after any updates of
    a new wallet its address is as given and its balance is the sum of the
    amounts, which may be negative, so two runs of the same updates in
    different orders end in the same wallet. *)
Theorem wallet_updates address amounts :
  Wallets.address (fold_left Wallets.update_balance amounts (Wallets.Wallet_init address))
  = address
  /\ Wallets.balance
       (fold_left Wallets.update_balance amounts (Wallets.Wallet_init address))
     = sum amounts
  /\ forall amounts',
       Permutation amounts amounts' ->
       fold_left Wallets.update_balance amounts' (Wallets.Wallet_init address)
       = fold_left Wallets.update_balance amounts (Wallets.Wallet_init address).
Proof.
  destruct (wallet_updates_from amounts (Wallets.Wallet_init address)) as [Ha Hb].
  split; [exact Ha|]. split; [rewrite Hb; reflexivity|].
  intros amounts' Hp.
  destruct (wallet_updates_from amounts' (Wallets.Wallet_init address)) as [Ha' Hb'].
  rewrite (sum_permutation _ _ Hp) in Hb.
  destruct (fold_left Wallets.update_balance amounts' _) as [a' b'].
  destruct (fold_left Wallets.update_balance amounts _) as [a b].
  simpl in *. congruence.
Qed.
